(** * Retrieval-augmented WhatsApp responder: a shallow embedding

    The development follows the three source files of the repository:
    the Shopify ingestion pipeline ([ShopifyDataProcessor]), the retrieval
    layer ([retrieveRelevantChunks], [retrieveRelevantChunksFromFiles],
    [retrieveRelevantShopifyChunks]) and the response orchestrator
    ([retrySupabaseQuery], [generateAutoResponse]).

    Asynchronous functions are written in a small state-and-exception
    monad over a [World] that holds the two tables the code writes to,
    the console, and a trace of every call made to a collaborator.  The
    collaborators themselves (catalog client, embedder, vector search,
    language model, message sender, clock) are arbitrary functions of
    the number of calls made so far, collected in an [Env].

    Two idealisations are made throughout.  The Supabase client reports a
    failed request in the [error] field of what it returns and does not
    throw; a write it reports as failed leaves the table as it was.  The
    console lines of the ingestion pipeline are kept, since the
    specification speaks of them; the diagnostic lines of the retrieval
    layer and of the orchestrator are left out. *)

From Stdlib Require Import List String Ascii Bool Arith PeanoNat NArith ZArith QArith.
From Stdlib Require Import Lia Permutation Sorted.
From Stdlib Require Import Decimal DecimalString DecimalNat DecimalN.
Import ListNotations.
Close Scope Q_scope.
Local Open Scope nat_scope.
Local Open Scope list_scope.
Local Open Scope string_scope.

(** ** JavaScript values used by the code *)

Module Js.

(** Truthiness of a string: the empty string is falsy. *)
Definition truthy (s : string) : bool :=
  match s with EmptyString => false | String _ _ => true end.

(** Truthiness of a nullable string ([null], [undefined] and the empty
    string are falsy). *)
Definition truthy_opt (o : option string) : bool :=
  match o with Some s => truthy s | None => false end.

(** White space and line terminators removed by [String.prototype.trim],
    for the code units a [string] character can hold: TAB, LF, VT, FF,
    CR, SP and NBSP. *)
Definition is_space (c : ascii) : bool :=
  let n := nat_of_ascii c in
  Nat.eqb n 9 || Nat.eqb n 10 || Nat.eqb n 11 || Nat.eqb n 12
  || Nat.eqb n 13 || Nat.eqb n 32 || Nat.eqb n 160.

Fixpoint trim_start (s : string) : string :=
  match s with
  | EmptyString => EmptyString
  | String c r => if is_space c then trim_start r else s
  end.

(** [trim_end] keeps a character when it is not a space or when
    something remains after it. *)
Fixpoint trim_end (s : string) : string :=
  match s with
  | EmptyString => EmptyString
  | String c r =>
      match trim_end r with
      | EmptyString => if is_space c then EmptyString else String c EmptyString
      | r' => String c r'
      end
  end.

Definition trim (s : string) : string := trim_end (trim_start s).

(** Decimal rendering of a non-negative integer, as a template literal
    prints it. *)
Definition show_nat (n : nat) : string := NilEmpty.string_of_uint (Nat.to_uint n).
Definition show_N (n : N) : string := NilEmpty.string_of_uint (N.to_uint n).

(** [Array.prototype.join]. *)
Definition join (sep : string) (l : list string) : string := String.concat sep l.

(** [Array.prototype.slice(0, end)] for an integer [end]: a negative
    [end] counts from the end of the array. *)
Definition slice0 {A : Type} (l : list A) (e : Z) : list A :=
  if (e <? 0)%Z then firstn (List.length l - Z.to_nat (- e)) l
  else firstn (Z.to_nat e) l.

(** [Array.prototype.slice(-n)]: the last [n] elements. *)
Definition slice_last {A : Type} (n : nat) (l : list A) : list A :=
  skipn (List.length l - n) l.

End Js.

(** ** Errors, results and the monad *)

(** A PostgREST error object, as the Supabase client reports it in the
    [error] field of a result. *)
Record PgError := mkPgError { pg_code : string; pg_message : string }.

(** What can be thrown: an [Error] instance with its message, or another
    value (the code re-throws PostgREST error objects as they are). *)
Inductive Exn :=
| JsError (message : string)
| ThrownValue (e : PgError).

Inductive Outcome (A : Type) :=
| Ret (a : A)
| Throw (e : Exn).
Arguments Ret {A} a.
Arguments Throw {A} e.

(** The [{ data, error }] pair every Supabase call resolves to. *)
Record QueryResult (D : Type) := mkQueryResult {
  data : option D;
  error : option PgError
}.
Arguments mkQueryResult {D} data error.
Arguments data {D} q.
Arguments error {D} q.

Definition Vector := list Q.

(** ** Records of the data model *)

Inductive ContentType := CtProduct | CtPage | CtCollection.

Definition content_type_name (c : ContentType) : string :=
  match c with
  | CtProduct => "product"
  | CtPage => "page"
  | CtCollection => "collection"
  end.

(** The metadata objects built by the three record processors. *)
Inductive Metadata :=
| ProductMeta (handle : string) (variants_count images_count available_variants : nat)
| PageMeta (handle : string)
| CollectionMeta (handle : string).

(** [ShopifyChunkData], the argument of [storeChunk]. *)
Record ShopifyChunkData := mkChunkData {
  cd_content_type : ContentType;
  cd_content_id : string;
  cd_title : string;
  cd_text : string;
  cd_metadata : Metadata
}.

(** A row of the [shopify_chunks] table. *)
Record ChunkRow := mkChunkRow {
  store_id : string;
  content_type : ContentType;
  content_id : string;
  title : string;
  chunk_text : string;
  embedding : Vector;
  metadata : Metadata
}.

(** A row of the [whatsapp_messages] table.  Timestamps are kept as
    milliseconds since the epoch; [is_auto_response] is the
    [isAutoResponse] flag of [raw_payload], whose other fields repeat
    those of the row. *)
Record MsgRow := mkMsgRow {
  message_id : string;
  channel : string;
  from_number : string;
  to_number : string;
  received_at : N;
  msg_content_type : string;
  content_text : option string;
  sender_name : string;
  event_type : string;
  is_in_24_window : bool;
  is_responded : bool;
  is_auto_response : bool;
  auto_respond_sent : option bool;
  response_sent_at : option N
}.

(** Catalog records, with the fields the processor reads. *)
Record Variant := mkVariant {
  price_amount : string;
  price_currencyCode : string;
  availableForSale : bool;
  sku : option string
}.

Record ShopifyProduct := mkProduct {
  p_id : string;
  p_title : string;
  p_handle : string;
  p_description : string;
  p_variants : list Variant;
  p_images : list string
}.

Record ShopifyPage := mkPage {
  pg_id : string;
  pg_title : string;
  pg_handle : string;
  pg_body : string
}.

Record ShopifyCollection := mkCollection {
  c_id : string;
  c_title : string;
  c_handle : string;
  c_description : string
}.

(** One page of a paginated catalog listing. *)
Record Listing (A : Type) := mkListing {
  items : list A;
  hasNextPage : bool;
  endCursor : option string
}.
Arguments mkListing {A} items hasNextPage endCursor.
Arguments items {A} l.
Arguments hasNextPage {A} l.
Arguments endCursor {A} l.

(** A retrieved chunk; [file_id] is the tag added by the multi-file
    merge.  Similarity scores are finite numbers, kept as rationals. *)
Record Match := mkMatch {
  m_id : string;
  chunk : string;
  similarity : Q;
  file_id : option string
}.

(** The columns [retrieveRelevantShopifyChunks] selects. *)
Record ShopifyHit := mkShopifyHit {
  h_id : string;
  h_chunk_text : string;
  h_store_id : string;
  h_content_type : ContentType;
  h_title : string;
  h_metadata : Metadata
}.

Record ShopifyMatch := mkShopifyMatch {
  sm_id : string;
  sm_chunk : string;
  sm_similarity : Q;
  sm_store_id : string;
  sm_content_type : ContentType;
  sm_title : string;
  sm_metadata : Metadata
}.

(** A row of [phone_document_mapping], restricted to the selected columns. *)
Record MappingRow := mkMappingRow {
  system_prompt : option string;
  intent : option string;
  auth_token : option string;
  origin : option string
}.

Inductive Role := System | User | Assistant.

Record ChatMessage := mkChat { role : Role; content : string }.

(** A chat completion: the [message.content] of each choice. *)
Record Completion := mkCompletion { choices : list (option string) }.

Record SendResult := mkSendResult { send_success : bool; send_error : option string }.

(** [AutoResponseResult]; an absent optional field is [None]. *)
Record AutoResponseResult := mkResult {
  success : bool;
  response : option string;
  result_error : option string;
  noDocuments : option bool;
  sent : option bool
}.

(** ** The world and the trace of collaborator calls *)

Inductive Event :=
| EvQuery (table filter : string)
| EvSleep (ms : nat)
| EvGetProducts (first : nat) (after : option string)
| EvGetPages (first : nat) (after : option string)
| EvGetCollections (first : nat) (after : option string)
| EvEmbed (text : string)
| EvChunksDelete (store : string)
| EvChunksInsert (row : ChunkRow)
| EvMatchDocuments (q : Vector) (match_count : Z) (target_file : option string)
| EvShopifySearch (q : Vector) (store : string) (limit : Z)
| EvGetDataSource (phone : string)
| EvGetShopifyStore (phone : string)
| EvGetFiles (phone : string)
| EvHistoryRead (counterpart : string)
| EvCompletion (messages : list ChatMessage)
| EvSend (to text token org : string)
| EvClock
| EvMsgUpdate (id : string) (flag : bool) (at_time : N)
| EvMsgInsert (row : MsgRow).

Record World := mkWorld {
  ticks : nat;
  shopify_chunks : list ChunkRow;
  whatsapp_messages : list MsgRow;
  console : list string;
  trace : list Event
}.

(** The collaborators.  Every function takes first the number of
    collaborator calls made before it, so that two calls with the same
    arguments may answer differently. *)
Record Env := mkEnv {
  getProducts : nat -> nat -> option string -> Outcome (Listing ShopifyProduct);
  getPages : nat -> nat -> option string -> Outcome (Listing ShopifyPage);
  getCollections : nat -> nat -> option string -> Outcome (Listing ShopifyCollection);
  embedText : nat -> string -> Outcome (option Vector);
  chunk_store_error : nat -> option PgError;
  match_documents : nat -> Vector -> Z -> option string -> QueryResult (list Match);
  shopify_search : nat -> Vector -> string -> Z -> QueryResult (list ShopifyHit);
  getDataSourceForPhone : nat -> string -> Outcome (option string);
  getShopifyStoreForPhoneNumber : nat -> string -> Outcome (option string);
  getFilesForPhoneNumber : nat -> string -> Outcome (list string);
  phone_mapping_query : nat -> string -> QueryResult (list MappingRow);
  message_store_error : nat -> option PgError;
  chat_completion : nat -> list ChatMessage -> Outcome Completion;
  sendWhatsAppMessage : nat -> string -> string -> string -> string -> Outcome SendResult;
  clock : nat -> N
}.

Definition M (A : Type) : Type := World -> Outcome A * World.

Definition ret {A : Type} (a : A) : M A := fun w => (Ret a, w).

Definition throw {A : Type} (e : Exn) : M A := fun w => (Throw e, w).

Definition bind {A B : Type} (m : M A) (k : A -> M B) : M B :=
  fun w =>
    match m w with
    | (Ret a, w') => k a w'
    | (Throw e, w') => (Throw e, w')
    end.

(** [try { body } catch (e) { handler e }]. *)
Definition try_catch {A : Type} (body : M A) (handler : Exn -> M A) : M A :=
  fun w =>
    match body w with
    | (Ret a, w') => (Ret a, w')
    | (Throw e, w') => handler e w'
    end.

Declare Scope js_scope.
Delimit Scope js_scope with js.
Notation "x <- c1 ;; c2" := (bind c1 (fun x => c2))
  (at level 100, c1 at next level, right associativity) : js_scope.
Notation "c1 ;; c2" := (bind c1 (fun _ => c2))
  (at level 100, right associativity) : js_scope.
Local Open Scope js_scope.

(** A call to a collaborator: it is answered from the number of calls
    made so far and recorded in the trace. *)
Definition external {A : Type} (ev : Event) (answer : nat -> Outcome A) : M A :=
  fun w =>
    (answer (ticks w),
     mkWorld (S (ticks w)) (shopify_chunks w) (whatsapp_messages w)
             (console w) (trace w ++ [ev])).

Definition emit (ev : Event) : M unit :=
  fun w =>
    (Ret tt,
     mkWorld (ticks w) (shopify_chunks w) (whatsapp_messages w)
             (console w) (trace w ++ [ev])).

Definition console_log (line : string) : M unit :=
  fun w =>
    (Ret tt,
     mkWorld (ticks w) (shopify_chunks w) (whatsapp_messages w)
             (console w ++ [line]) (trace w)).

Definition set_chunks (f : list ChunkRow -> list ChunkRow) : M unit :=
  fun w =>
    (Ret tt,
     mkWorld (ticks w) (f (shopify_chunks w)) (whatsapp_messages w)
             (console w) (trace w)).

Definition set_messages (f : list MsgRow -> list MsgRow) : M unit :=
  fun w =>
    (Ret tt,
     mkWorld (ticks w) (shopify_chunks w) (f (whatsapp_messages w))
             (console w) (trace w)).

Definition get_messages : M (list MsgRow) := fun w => (Ret (whatsapp_messages w), w).

(** [await new Promise(resolve => setTimeout(resolve, ms))]. *)
Definition sleep (ms : nat) : M unit := emit (EvSleep ms).

(** [Date.now()] and [new Date()]: one reading of the clock. *)
Definition now (env : Env) : M N := external EvClock (fun t => Ret (clock env t)).

(** ** The bounded-retry wrapper *)

Definition has_error {D : Type} (r : QueryResult D) : bool :=
  match error r with Some _ => true | None => false end.

(** The [for] loop of [retrySupabaseQuery] from [attempt] on, with
    [remaining] iterations left, followed by the final
    [return await queryFn()]. *)
Fixpoint retry_from {D : Type} (queryFn : M (QueryResult D)) (maxRetries : nat)
    (attempt remaining : nat) : M (QueryResult D) :=
  match remaining with
  | 0 => queryFn
  | S remaining' =>
      result <- queryFn ;;
      if negb (has_error result) then ret result
      else
        (if Nat.ltb attempt maxRetries then sleep (attempt * 1000) else ret tt) ;;
        retry_from queryFn maxRetries (S attempt) remaining'
  end.

Definition retrySupabaseQuery {D : Type} (queryFn : M (QueryResult D))
    (maxRetries : nat) : M (QueryResult D) :=
  retry_from queryFn maxRetries 1 maxRetries.

(** ** Stable sorting

    [Array.prototype.sort] is stable, and so is the ordering assumed of
    the store; an insertion sort that keeps an earlier element ahead of
    later ones it does not have to follow gives the same sequence. *)
Section StableSort.

Variable A : Type.
Variable leb : A -> A -> bool.

Fixpoint insert_sorted (x : A) (l : list A) : list A :=
  match l with
  | [] => [x]
  | y :: ys => if leb x y then x :: y :: ys else y :: insert_sorted x ys
  end.

Fixpoint stable_sort (l : list A) : list A :=
  match l with
  | [] => []
  | x :: xs => insert_sorted x (stable_sort xs)
  end.

End StableSort.
Arguments insert_sorted {A} leb x l.
Arguments stable_sort {A} leb l.

(** ** The retrieval layer *)

(** [retrieveRelevantChunks]: one [match_documents] call; a reported
    error is thrown as it is, otherwise [data] is returned (possibly
    [null]). *)
Definition retrieveRelevantChunks (env : Env) (queryEmbedding : Vector)
    (fileId : option string) (limit : Z) : M (option (list Match)) :=
  r <- external (EvMatchDocuments queryEmbedding limit fileId)
         (fun t => Ret (match_documents env t queryEmbedding limit fileId)) ;;
  match error r with
  | Some e => throw (ThrownValue e)
  | None => ret (data r)
  end.

(** [{ ...c, file_id: fileId }]. *)
Definition with_file_id (fileId : string) (c : Match) : Match :=
  mkMatch (m_id c) (chunk c) (similarity c) (Some fileId).

(** The comparator [(a, b) => b.similarity - a.similarity] puts [a]
    first when it is not positive. *)
Definition before (a b : Match) : bool := Qle_bool (similarity b) (similarity a).

(** [.sort((a, b) => b.similarity - a.similarity)]. *)
Definition sort_desc (l : list Match) : list Match := stable_sort before l.

(** The [for (const fileId of fileIds)] loop, pushing onto [allChunks]. *)
Fixpoint gather_chunks (env : Env) (queryEmbedding : Vector) (limit : Z)
    (fileIds : list string) (allChunks : list Match) : M (list Match) :=
  match fileIds with
  | [] => ret allChunks
  | fileId :: rest =>
      chunks <- retrieveRelevantChunks env queryEmbedding (Some fileId) limit ;;
      match chunks with
      | None => throw (JsError "Cannot read properties of null (reading 'map')")
      | Some cs =>
          gather_chunks env queryEmbedding limit rest
            (allChunks ++ map (with_file_id fileId) cs)
      end
  end.

Definition retrieveRelevantChunksFromFiles (env : Env) (queryEmbedding : Vector)
    (fileIds : list string) (limit : Z) : M (option (list Match)) :=
  match fileIds with
  | [] => ret (Some [])
  | [fileId] => retrieveRelevantChunks env queryEmbedding (Some fileId) limit
  | _ =>
      allChunks <- gather_chunks env queryEmbedding limit fileIds [] ;;
      ret (Some (Js.slice0 (sort_desc allChunks) limit))
  end.

Definition hit_to_match (row : ShopifyHit) : ShopifyMatch :=
  mkShopifyMatch (h_id row) (h_chunk_text row) 0%Q (h_store_id row)
                 (h_content_type row) (h_title row) (h_metadata row).

Definition retrieveRelevantShopifyChunks (env : Env) (queryEmbedding : Vector)
    (storeId : string) (limit : Z) : M (list ShopifyMatch) :=
  r <- external (EvShopifySearch queryEmbedding storeId limit)
         (fun t => Ret (shopify_search env t queryEmbedding storeId limit)) ;;
  match error r with
  | Some e => throw (ThrownValue e)
  | None =>
      ret (match data r with
           | Some rows => map hit_to_match rows
           | None => []
           end)
  end.

(** ** The response orchestrator *)

Definition nl : string := String (ascii_of_nat 10) EmptyString.
Definition dquote : string := String (ascii_of_nat 34) EmptyString.

Definition failure (err : string) : AutoResponseResult :=
  mkResult false None (Some err) None None.

Definition failure_no_documents (err : string) : AutoResponseResult :=
  mkResult false None (Some err) (Some true) None.

(** The rows selected by
    [.or(from_number.eq.X,to_number.eq.X).order("received_at", { ascending: true }).limit(20)]. *)
Definition involves (fromNumber : string) (m : MsgRow) : bool :=
  String.eqb (from_number m) fromNumber || String.eqb (to_number m) fromNumber.

Definition not_later (x y : MsgRow) : bool := (received_at x <=? received_at y)%N.

(** Rows with equal [received_at] are kept in table order. *)
Definition order_by_received_at (l : list MsgRow) : list MsgRow :=
  stable_sort not_later l.

Definition history_window (fromNumber : string) (table : list MsgRow) : list MsgRow :=
  firstn 20 (order_by_received_at (filter (involves fromNumber) table)).

(** The history read; a failed read leaves [historyRows] null. *)
Definition read_history (env : Env) (fromNumber : string) : M (option (list MsgRow)) :=
  err <- external (EvHistoryRead fromNumber)
           (fun t => Ret (message_store_error env t)) ;;
  match err with
  | Some _ => ret None
  | None => table <- get_messages ;; ret (Some (history_window fromNumber table))
  end.

Definition qualifies (m : MsgRow) : bool :=
  Js.truthy_opt (content_text m)
  && (String.eqb (event_type m) "MoMessage" || String.eqb (event_type m) "MtMessage").

Definition to_turn (m : MsgRow) : ChatMessage :=
  mkChat (if String.eqb (event_type m) "MoMessage" then User else Assistant)
         (match content_text m with Some s => s | None => "" end).

Definition build_history (historyRows : option (list MsgRow)) : list ChatMessage :=
  map to_turn
      (filter qualifies (match historyRows with Some rows => rows | None => [] end)).

Definition shopify_rules : string :=
  "You are a helpful Shopify store assistant. Your ONLY job is to answer customer questions based strictly on the provided store data.

STRICT RULES:
- ONLY answer using information from the CONTEXT below
- Focus on products, pricing, availability, and store information
- If asked about unavailable products, inform customer politely
- Provide pricing in the store's currency format
- If information is not in the context, say you don't have that information but can help with other questions
- Be friendly, helpful, and conversational
- Detect the customer's language and respond in the same language
- Keep responses concise and appropriate for WhatsApp chat
- Format responses with line breaks for readability".

Definition document_rules : string :=
  "Your ONLY job is to answer questions based strictly on the provided document context.

STRICT RULES:
- ONLY answer questions using information from the CONTEXT below
- If the answer is not in the CONTEXT, say " ++ dquote
  ++ "I don't have that information in the document" ++ dquote ++ "
- NEVER use your general knowledge or make assumptions beyond the document
- NEVER offer to do tasks you cannot do (generate files, make calls, etc.)
- Be concise and friendly - keep responses under 300 words
- Use clear, simple language appropriate for WhatsApp chat
- Format responses with line breaks for readability".

Definition is_shopify (dataSource : string) : bool := String.eqb dataSource "shopify".

Definition baseRules (dataSource : string) : string :=
  if is_shopify dataSource then shopify_rules else document_rules.

Definition compose_system_prompt (customSystemPrompt : option string)
    (dataSource : string) : string :=
  match customSystemPrompt with
  | Some custom =>
      if Js.truthy custom then custom ++ nl ++ nl ++ baseRules dataSource
      else "You are a helpful "
           ++ (if is_shopify dataSource then "Shopify store" else "WhatsApp")
           ++ " assistant." ++ nl ++ nl ++ baseRules dataSource
  | None =>
      "You are a helpful "
      ++ (if is_shopify dataSource then "Shopify store" else "WhatsApp")
      ++ " assistant." ++ nl ++ nl ++ baseRules dataSource
  end.

Definition compose_messages (systemPrompt contextText : string)
    (history : list ChatMessage) (messageText : string) : list ChatMessage :=
  mkChat System
         (systemPrompt ++ nl ++ nl ++ "CONTEXT:" ++ nl
          ++ (if Js.truthy contextText then contextText
              else "No relevant context found in the documents."))
  :: Js.slice_last 10 history
  ++ [mkChat User messageText].

(** Step 3: the chunk texts of the matches, or an early result. *)
Definition retrieve_context (env : Env) (dataSource toNumber : string)
    (queryEmbedding : Vector) : M (AutoResponseResult + list string) :=
  if is_shopify dataSource then
    shopifyStoreId <- external (EvGetShopifyStore toNumber)
                        (fun t => getShopifyStoreForPhoneNumber env t toNumber) ;;
    if Js.truthy_opt shopifyStoreId then
      matches <- retrieveRelevantShopifyChunks env queryEmbedding
                   (match shopifyStoreId with Some s => s | None => "" end) 5 ;;
      ret (inr (map sm_chunk matches))
    else
      ret (inl (failure_no_documents "No Shopify store mapped to this business number"))
  else
    fileIds <- external (EvGetFiles toNumber)
                 (fun t => getFilesForPhoneNumber env t toNumber) ;;
    match fileIds with
    | [] => ret (inl (failure_no_documents "No documents mapped to this business number"))
    | _ =>
        matches <- retrieveRelevantChunksFromFiles env queryEmbedding fileIds 5 ;;
        match matches with
        | None => throw (JsError "Cannot read properties of null (reading 'length')")
        | Some ms => ret (inr (map chunk ms))
        end
    end.

(** What steps 1 to 5 hand over to the send: the generated text and the
    credentials of the first mapping. *)
Record Reply := mkReply {
  reply_text : string;
  reply_auth_token : string;
  reply_origin : string
}.

(** The mapping read of step 1.5, through the retry wrapper. *)
Definition fetch_phone_mappings (env : Env) (toNumber : string)
    : M (QueryResult (list MappingRow)) :=
  retrySupabaseQuery
    (external (EvQuery "phone_document_mapping" toNumber)
       (fun t => Ret (phone_mapping_query env t toNumber)))
    3.

(** Steps 2 to 5, once the first mapping row is known. *)
Definition answer_with_mapping (env : Env) (dataSource fromNumber toNumber messageText : string)
    (first : MappingRow) : M (AutoResponseResult + Reply) :=
  let customSystemPrompt := system_prompt first in
  if Js.truthy_opt (auth_token first) && Js.truthy_opt (origin first) then
    queryEmbedding <- external (EvEmbed messageText)
                        (fun t => embedText env t messageText) ;;
    match queryEmbedding with
    | None => ret (inl (failure "Failed to generate embedding for message"))
    | Some q =>
        ctx <- retrieve_context env dataSource toNumber q ;;
        match ctx with
        | inl early => ret (inl early)
        | inr chunks =>
            let contextText := Js.join (nl ++ nl) chunks in
            historyRows <- read_history env fromNumber ;;
            let history := build_history historyRows in
            let systemPrompt := compose_system_prompt customSystemPrompt dataSource in
            let messages := compose_messages systemPrompt contextText history messageText in
            completion <- external (EvCompletion messages)
                            (fun t => chat_completion env t messages) ;;
            match choices completion with
            | [] => throw (JsError "Cannot read properties of undefined (reading 'message')")
            | reply :: _ =>
                if Js.truthy_opt reply then
                  ret (inr (mkReply
                              (match reply with Some s => s | None => "" end)
                              (match auth_token first with Some s => s | None => "" end)
                              (match origin first with Some s => s | None => "" end)))
                else ret (inl (failure "No response generated from LLM"))
            end
        end
    end
  else
    ret (inl (failure
      "No WhatsApp API credentials found. Please set credentials in the Configuration tab.")).

(** Steps 1 to 5 of [generateAutoResponse]. *)
Definition prepare_reply (env : Env) (fromNumber toNumber messageText : string)
    : M (AutoResponseResult + Reply) :=
  dataSource <- external (EvGetDataSource toNumber)
                  (fun t => getDataSourceForPhone env t toNumber) ;;
  if Js.truthy_opt dataSource then
    let ds := match dataSource with Some s => s | None => "" end in
    mappings <- fetch_phone_mappings env toNumber ;;
    match error mappings, data mappings with
    | None, Some (first :: _) =>
        answer_with_mapping env ds fromNumber toNumber messageText first
    | _, _ => ret (inl (failure "Failed to fetch phone mapping details"))
    end
  else
    ret (inl (failure_no_documents "No data source mapped to this business number")).

(** [update({ auto_respond_sent, response_sent_at }).eq("message_id", id)]. *)
Definition mark_row (messageId : string) (flag : bool) (at_time : N) (m : MsgRow) : MsgRow :=
  if String.eqb (message_id m) messageId then
    mkMsgRow (message_id m) (channel m) (from_number m) (to_number m) (received_at m)
             (msg_content_type m) (content_text m) (sender_name m) (event_type m)
             (is_in_24_window m) (is_responded m) (is_auto_response m)
             (Some flag) (Some at_time)
  else m.

Definition update_message (env : Env) (messageId : string) (flag : bool) : M unit :=
  at_time <- now env ;;
  err <- external (EvMsgUpdate messageId flag at_time)
           (fun t => Ret (message_store_error env t)) ;;
  match err with
  | Some _ => ret tt
  | None => set_messages (map (mark_row messageId flag at_time))
  end.

(** [`auto_${messageId}_${Date.now()}`]. *)
Definition responseMessageId (messageId : string) (date_now : N) : string :=
  "auto_" ++ messageId ++ "_" ++ Js.show_N date_now.

Definition outbound_row (responseId fromNumber toNumber response : string)
    (at_time : N) : MsgRow :=
  mkMsgRow responseId "whatsapp" toNumber fromNumber at_time "text" (Some response)
           "AI Assistant" "MtMessage" true false true None None.

Definition insert_message (env : Env) (row : MsgRow) : M unit :=
  err <- external (EvMsgInsert row) (fun t => Ret (message_store_error env t)) ;;
  match err with
  | Some _ => ret tt
  | None => set_messages (fun table => (table ++ [row])%list)
  end.

Definition undefined_or (o : option string) : string :=
  match o with Some s => s | None => "undefined" end.

(** Steps 6 to 7: send, then persist. *)
Definition deliver_reply (env : Env) (fromNumber toNumber messageId : string)
    (reply : Reply) : M AutoResponseResult :=
  let response := reply_text reply in
  sendResult <- external
                  (EvSend fromNumber response (reply_auth_token reply) (reply_origin reply))
                  (fun t => sendWhatsAppMessage env t fromNumber response
                              (reply_auth_token reply) (reply_origin reply)) ;;
  if negb (send_success sendResult) then
    update_message env messageId false ;;
    ret (mkResult false (Some response)
           (Some ("Generated response but failed to send: "
                  ++ undefined_or (send_error sendResult)))
           None (Some false))
  else
    date_now <- now env ;;
    let responseId := responseMessageId messageId date_now in
    at_time <- now env ;;
    insert_message env (outbound_row responseId fromNumber toNumber response at_time) ;;
    update_message env messageId true ;;
    ret (mkResult true (Some response) None None (Some true)).

Definition generateAutoResponse_body (env : Env)
    (fromNumber toNumber messageText messageId : string) : M AutoResponseResult :=
  prepared <- prepare_reply env fromNumber toNumber messageText ;;
  match prepared with
  | inl early => ret early
  | inr reply => deliver_reply env fromNumber toNumber messageId reply
  end.

(** The [catch] block: [error instanceof Error ? error.message : "Unknown error"]. *)
Definition error_text (e : Exn) : string :=
  match e with
  | JsError message => message
  | ThrownValue _ => "Unknown error"
  end.

Definition generateAutoResponse (env : Env)
    (fromNumber toNumber messageText messageId : string) : M AutoResponseResult :=
  try_catch (generateAutoResponse_body env fromNumber toNumber messageText messageId)
            (fun e => ret (failure (error_text e))).

(** ** The ingestion pipeline *)

(** [s.replace(/<[^>]*>/g, '')]: a [<] is removed together with
    everything up to the next [>]; without a later [>] nothing more
    matches. *)
Fixpoint after_tag_end (s : string) : option string :=
  match s with
  | EmptyString => None
  | String c r => if Ascii.eqb c ">" then Some r else after_tag_end r
  end.

Fixpoint strip_tags_fuel (fuel : nat) (s : string) : string :=
  match fuel, s with
  | _, EmptyString => EmptyString
  | 0, _ => s
  | S fuel', String c r =>
      if Ascii.eqb c "<" then
        match after_tag_end r with
        | Some r' => strip_tags_fuel fuel' r'
        | None => s
        end
      else String c (strip_tags_fuel fuel' r)
  end.

Definition strip_tags (s : string) : string := strip_tags_fuel (String.length s) s.

Fixpoint take (n : nat) (s : string) : string :=
  match n, s with
  | S n', String c r => String c (take n' r)
  | _, _ => EmptyString
  end.

Fixpoint drop (n : nat) (s : string) : string :=
  match n, s with
  | S n', String _ r => drop n' r
  | _, _ => s
  end.

(** The segments of [text], at most [fuel] of them, each of [chunkSize]
    characters but possibly the last. *)
Fixpoint chunk_segments (fuel : nat) (text : string) (chunkSize : nat) : list string :=
  match fuel with
  | 0 => []
  | S fuel' =>
      match text with
      | EmptyString => []
      | _ => take chunkSize text :: chunk_segments fuel' (drop chunkSize text) chunkSize
      end
  end.

(** Modelled from the spec: [chunkText] is imported from [./chunk], which
    is not among the sources.  The spec describes the chunker as a pure
    function that splits normalized text into bounded-size segments; here
    the text is cut into consecutive segments of [chunkSize] characters,
    the last one holding what remains. *)
Definition chunkText (text : string) (chunkSize : nat) : list string :=
  chunk_segments (String.length text) text chunkSize.

(** [for (const x of xs) { await body(x) }]. *)
Fixpoint for_each {A : Type} (body : A -> M unit) (xs : list A) : M unit :=
  match xs with
  | [] => ret tt
  | x :: rest => body x ;; for_each body rest
  end.

(** The [while (hasNextPage)] loop shared by [processProducts],
    [processPages] and [processCollections]; it yields the number of
    records processed, or [None] when [fuel] pages did not exhaust the
    listing. *)
Fixpoint paginate {A : Type} (fetch : option string -> M (Listing A))
    (process : A -> M unit) (fuel : nat) (cursor : option string) (total : nat)
    : M (option nat) :=
  match fuel with
  | 0 => ret None
  | S fuel' =>
      page <- fetch cursor ;;
      for_each process (items page) ;;
      let total' := total + List.length (items page) in
      if hasNextPage page then paginate fetch process fuel' (endCursor page) total'
      else ret (Some total')
  end.

Section Ingestion.

(** [parseFloat] ([None] stands for NaN) and [Number.prototype.toFixed(2)]
    are taken as given; prices are compared as rationals. *)
Variable parseFloat : string -> option Q.
Variable toFixed2 : Q -> string.

Variable env : Env.
Variable storeId : string.

Definition q_min (a b : Q) : Q := if Qle_bool a b then a else b.
Definition q_max (a b : Q) : Q := if Qle_bool a b then b else a.

Fixpoint parsed_prices (variants : list Variant) : list Q :=
  match variants with
  | [] => []
  | v :: rest =>
      match parseFloat (price_amount v) with
      | Some p => p :: parsed_prices rest
      | None => parsed_prices rest
      end
  end.

Fixpoint truthy_skus (variants : list Variant) : list string :=
  match variants with
  | [] => []
  | v :: rest =>
      match sku v with
      | Some s => if Js.truthy s then s :: truthy_skus rest else truthy_skus rest
      | None => truthy_skus rest
      end
  end.

Definition price_line (variants : list Variant) : string :=
  match parsed_prices variants, variants with
  | p :: ps, v :: _ =>
      let minPrice := fold_left q_min ps p in
      let maxPrice := fold_left q_max ps p in
      let currencyCode := price_currencyCode v in
      if Qeq_bool minPrice maxPrice then
        "Price: " ++ currencyCode ++ " " ++ toFixed2 minPrice ++ nl
      else
        "Price Range: " ++ currencyCode ++ " " ++ toFixed2 minPrice ++ " - "
        ++ currencyCode ++ " " ++ toFixed2 maxPrice ++ nl
  | _, _ => ""
  end.

Definition productToText (product : ShopifyProduct) : string :=
  let variants := p_variants product in
  Js.trim
    ("Product: " ++ p_title product ++ nl
     ++ (if Js.truthy (p_description product) then
           "Description: " ++ Js.trim (strip_tags (p_description product)) ++ nl
         else "")
     ++ price_line variants
     ++ "Availability: "
     ++ Js.show_nat (List.length (filter availableForSale variants)) ++ "/"
     ++ Js.show_nat (List.length variants) ++ " variants available" ++ nl
     ++ (match truthy_skus variants with
         | [] => ""
         | skus => "SKUs: " ++ Js.join ", " skus ++ nl
         end)
     ++ (match p_images product with
         | [] => ""
         | images => "Images: " ++ Js.show_nat (List.length images) ++ " available" ++ nl
         end)).

Definition pageToText (page : ShopifyPage) : string :=
  Js.trim
    ("Page: " ++ pg_title page ++ nl
     ++ (if Js.truthy (pg_body page) then
           "Content: " ++ Js.trim (strip_tags (pg_body page)) ++ nl
         else "")).

Definition collectionToText (collection : ShopifyCollection) : string :=
  Js.trim
    ("Collection: " ++ c_title collection ++ nl
     ++ (if Js.truthy (c_description collection) then
           "Description: " ++ Js.trim (strip_tags (c_description collection)) ++ nl
         else "")).

Definition row_of (chunkData : ShopifyChunkData) (emb : Vector) : ChunkRow :=
  mkChunkRow storeId (cd_content_type chunkData) (cd_content_id chunkData)
             (cd_title chunkData) (cd_text chunkData) emb (cd_metadata chunkData).

Definition storeChunk (chunkData : ShopifyChunkData) : M unit :=
  emb <- external (EvEmbed (cd_text chunkData))
           (fun t => embedText env t (cd_text chunkData)) ;;
  match emb with
  | None =>
      throw (JsError ("Failed to generate embedding for chunk: " ++ cd_title chunkData))
  | Some e =>
      let row := row_of chunkData e in
      err <- external (EvChunksInsert row) (fun t => Ret (chunk_store_error env t)) ;;
      match err with
      | None => set_chunks (fun table => (table ++ [row])%list)
      | Some pg =>
          if String.eqb (pg_code pg) "23505" then
            console_log ("Skipping duplicate chunk for "
                         ++ content_type_name (cd_content_type chunkData) ++ ": "
                         ++ cd_title chunkData)
          else throw (JsError ("Failed to store chunk: " ++ pg_message pg))
      end
  end.

(** [chunkText(text, 1500).filter(c => c.trim().length > 0)]. *)
Definition kept_chunks (text : string) : list string :=
  filter (fun c => Nat.ltb 0 (String.length (Js.trim c))) (chunkText text 1500).

Definition product_chunks (product : ShopifyProduct) : list ShopifyChunkData :=
  let metadata :=
    ProductMeta (p_handle product) (List.length (p_variants product))
                (List.length (p_images product))
                (List.length (filter availableForSale (p_variants product))) in
  map (fun c => mkChunkData CtProduct (p_id product) (p_title product) c metadata)
      (kept_chunks (productToText product)).

Definition processProduct (product : ShopifyProduct) : M unit :=
  for_each storeChunk (product_chunks product).

Definition page_chunks (page : ShopifyPage) : list ShopifyChunkData :=
  map (fun c => mkChunkData CtPage (pg_id page) (pg_title page) c
                  (PageMeta (pg_handle page)))
      (kept_chunks (pageToText page)).

Definition processPage (page : ShopifyPage) : M unit :=
  for_each storeChunk (page_chunks page).

Definition collection_chunks (collection : ShopifyCollection) : list ShopifyChunkData :=
  map (fun c => mkChunkData CtCollection (c_id collection) (c_title collection) c
                  (CollectionMeta (c_handle collection)))
      (kept_chunks (collectionToText collection)).

Definition processCollection (collection : ShopifyCollection) : M unit :=
  for_each storeChunk (collection_chunks collection).

Definition clearExistingChunks : M unit :=
  err <- external (EvChunksDelete storeId) (fun t => Ret (chunk_store_error env t)) ;;
  match err with
  | Some pg => throw (JsError ("Failed to clear existing chunks: " ++ pg_message pg))
  | None =>
      set_chunks (filter (fun r => negb (String.eqb (store_id r) storeId))) ;;
      console_log ("Cleared existing chunks for store " ++ storeId)
  end.

Definition processProducts (fuel : nat) : M (option unit) :=
  console_log "Processing products..." ;;
  done <- paginate (fun cursor => external (EvGetProducts 250 cursor)
                                    (fun t => getProducts env t 250 cursor))
            processProduct fuel None 0 ;;
  match done with
  | None => ret None
  | Some totalProducts =>
      console_log ("Processed " ++ Js.show_nat totalProducts ++ " products") ;;
      ret (Some tt)
  end.

Definition processPages (fuel : nat) : M (option unit) :=
  console_log "Processing pages..." ;;
  done <- paginate (fun cursor => external (EvGetPages 100 cursor)
                                    (fun t => getPages env t 100 cursor))
            processPage fuel None 0 ;;
  match done with
  | None => ret None
  | Some totalPages =>
      console_log ("Processed " ++ Js.show_nat totalPages ++ " pages") ;;
      ret (Some tt)
  end.

Definition processCollections (fuel : nat) : M (option unit) :=
  console_log "Processing collections..." ;;
  done <- paginate (fun cursor => external (EvGetCollections 100 cursor)
                                    (fun t => getCollections env t 100 cursor))
            processCollection fuel None 0 ;;
  match done with
  | None => ret None
  | Some totalCollections =>
      console_log ("Processed " ++ Js.show_nat totalCollections ++ " collections") ;;
      ret (Some tt)
  end.

(** [processAllData]; [None] when a listing was not exhausted within
    [fuel] pages. *)
Definition processAllData (fuel : nat) : M (option unit) :=
  console_log "Starting Shopify data processing..." ;;
  clearExistingChunks ;;
  products <- processProducts fuel ;;
  match products with
  | None => ret None
  | Some _ =>
      pages <- processPages fuel ;;
      match pages with
      | None => ret None
      | Some _ =>
          collections <- processCollections fuel ;;
          match collections with
          | None => ret None
          | Some _ =>
              console_log "Shopify data processing completed." ;;
              ret (Some tt)
          end
      end
  end.

End Ingestion.

(** ** The store sync entry point *)

(** A row of [shopify_stores], with the columns [processShopifyStore]
    reads and writes. *)
Record StoreRow := mkStoreRow {
  st_id : string;
  store_domain : string;
  storefront_token : string;
  last_synced_at : option N
}.

(** [processShopifyStore] also works on the [shopify_stores] table. *)
Record SyncWorld := mkSync {
  base : World;
  shopify_stores : list StoreRow
}.

(** What [processShopifyStore] talks to besides the table: the error the
    store reports for the call numbered [t], if any, and the environment
    of a processor built for a store domain and a storefront token. *)
Record SyncEnv := mkSyncEnv {
  stores_error : nat -> option PgError;
  processor_env : string -> string -> Env;
  sync_clock : nat -> N
}.

Definition Sync (A : Type) : Type := SyncWorld -> Outcome A * SyncWorld.

Definition lift {A : Type} (m : M A) : Sync A :=
  fun s => let (o, w) := m (base s) in (o, mkSync w (shopify_stores s)).

Definition sync_ret {A : Type} (a : A) : Sync A := fun s => (Ret a, s).

Definition sync_throw {A : Type} (e : Exn) : Sync A := fun s => (Throw e, s).

Definition sync_bind {A B : Type} (m : Sync A) (k : A -> Sync B) : Sync B :=
  fun s =>
    match m s with
    | (Ret a, s') => k a s'
    | (Throw e, s') => (Throw e, s')
    end.

(** [.select('*').eq('id', storeId).single()]: an error unless exactly
    one row has the id. *)
Definition select_single_store (err : option PgError) (storeId : string)
    (table : list StoreRow) : QueryResult StoreRow :=
  match err with
  | Some e => mkQueryResult None (Some e)
  | None =>
      match filter (fun r => String.eqb (st_id r) storeId) table with
      | [row] => mkQueryResult (Some row) None
      | _ =>
          mkQueryResult None
            (Some (mkPgError "PGRST116"
                     "JSON object requested, multiple (or no) rows returned"))
      end
  end.

Definition read_store (senv : SyncEnv) (storeId : string) : Sync (QueryResult StoreRow) :=
  sync_bind
    (lift (external (EvQuery "shopify_stores" storeId)
             (fun t => Ret (stores_error senv t))))
    (fun err s => (Ret (select_single_store err storeId (shopify_stores s)), s)).

(** [.update({ last_synced_at }).eq('id', storeId)]. *)
Definition stamp_store (storeId : string) (at_time : N) (row : StoreRow) : StoreRow :=
  if String.eqb (st_id row) storeId then
    mkStoreRow (st_id row) (store_domain row) (storefront_token row) (Some at_time)
  else row.

Definition update_last_synced (senv : SyncEnv) (storeId : string) : Sync unit :=
  sync_bind (lift (external EvClock (fun t => Ret (sync_clock senv t))))
    (fun at_time =>
       sync_bind
         (lift (external (EvQuery "shopify_stores" storeId)
                  (fun t => Ret (stores_error senv t))))
         (fun err s =>
            match err with
            | Some _ => (Ret tt, s)
            | None =>
                (Ret tt,
                 mkSync (base s) (map (stamp_store storeId at_time) (shopify_stores s)))
            end)).

(** [processShopifyStore]; [None] when a listing was not exhausted within
    [fuel] pages. *)
Definition processShopifyStore (parseFloat : string -> option Q) (toFixed2 : Q -> string)
    (senv : SyncEnv) (storeId : string) (fuel : nat) : Sync (option unit) :=
  sync_bind (read_store senv storeId)
    (fun found =>
       match error found, data found with
       | None, Some store =>
           sync_bind
             (lift (processAllData parseFloat toFixed2
                      (processor_env senv (store_domain store) (storefront_token store))
                      storeId fuel))
             (fun done =>
                match done with
                | None => sync_ret None
                | Some _ =>
                    sync_bind (update_last_synced senv storeId)
                      (fun _ => sync_ret (Some tt))
                end)
       | _, _ => sync_throw (JsError ("Store not found: " ++ storeId))
       end).

(** * Vocabulary of the statements *)

Local Open Scope list_scope.

(** [advance w n evs]: [n] more collaborator calls, [evs] appended to the
    trace, tables and console untouched. *)
Definition advance (w : World) (n : nat) (evs : list Event) : World :=
  mkWorld (ticks w + n) (shopify_chunks w) (whatsapp_messages w) (console w)
          (trace w ++ evs).

Definition sleeps_of (evs : list Event) : list nat :=
  flat_map (fun e => match e with EvSleep ms => [ms] | _ => [] end) evs.

Definition queries_of (evs : list Event) : nat :=
  List.length (filter (fun e => match e with EvQuery _ _ => true | _ => false end) evs).

(** The calls and waits of the loop from [attempt] on when every one of
    the [remaining] attempts fails. *)
Fixpoint failed_attempts (ev : Event) (maxRetries attempt remaining : nat) : list Event :=
  match remaining with
  | 0 => []
  | S remaining' =>
      (ev :: (if Nat.ltb attempt maxRetries then [EvSleep (attempt * 1000)] else []))
      ++ failed_attempts ev maxRetries (S attempt) remaining'
  end.

Definition fails_at {D : Type} (q : nat -> Outcome (QueryResult D)) (t : nat) : Prop :=
  exists r, q t = Ret r /\ has_error r = true.

(** [a] may stand before [b] in a list sorted descending by similarity. *)
Definition desc (a b : Match) : Prop := (similarity b <= similarity a)%Q.

(** The per-source answers, each tagged with its source. *)
Fixpoint tagged (fileIds : list string) (parts : list (list Match)) : list Match :=
  match fileIds, parts with
  | fileId :: fs, part :: ps => map (with_file_id fileId) part ++ tagged fs ps
  | _, _ => []
  end.

(** [parts] are the store's answers to the [match_documents] calls for
    [fileIds], made in sequence from call number [t] on. *)
Fixpoint answers_from (env : Env) (q : Vector) (limit : Z) (t : nat)
    (fileIds : list string) (parts : list (list Match)) : Prop :=
  match fileIds, parts with
  | [], [] => True
  | fileId :: fs, part :: ps =>
      match_documents env t q limit (Some fileId) = mkQueryResult (Some part) None
      /\ answers_from env q limit (S t) fs ps
  | _, _ => False
  end.

Definition match_calls (q : Vector) (limit : Z) (fileIds : list string) : list Event :=
  map (fun fileId => EvMatchDocuments q limit (Some fileId)) fileIds.

(** A store holding [(file, row)] pairs that answers [match_documents]
    exactly: the [match_count] best rows of the target file. *)
Definition rows_of_file (table : list (string * Match)) (target : option string)
    : list Match :=
  map snd (filter (fun fr => match target with
                             | Some f => String.eqb (fst fr) f
                             | None => true
                             end) table).

Definition exact_match_documents (table : list (string * Match))
    (_ : nat) (_ : Vector) (match_count : Z) (target : option string)
    : QueryResult (list Match) :=
  mkQueryResult
    (Some (firstn (Z.to_nat match_count) (sort_desc (rows_of_file table target))))
    None.

(** What that store answers for each of [fileIds]. *)
Definition exact_parts (table : list (string * Match)) (fileIds : list string)
    (limit : Z) : list (list Match) :=
  map (fun f => firstn (Z.to_nat limit) (sort_desc (rows_of_file table (Some f))))
      fileIds.

(** How many chunks of [l] score at least [q]. *)
Definition count_ge (q : Q) (l : list Match) : nat :=
  List.length (filter (fun m => Qle_bool q (similarity m)) l).

Definition same_score (a b : Match) : Prop := (similarity a == similarity b)%Q.

(** The [limit] best rows among all rows of the listed files. *)
Definition global_top (table : list (string * Match)) (fileIds : list string)
    (limit : Z) : list Match :=
  firstn (Z.to_nat limit)
    (sort_desc
       (map (fun fr => with_file_id (fst fr) (snd fr))
            (filter (fun fr => existsb (String.eqb (fst fr)) fileIds) table))).

(** [always R m]: whatever [m] returns or throws, the world it leaves is
    related by [R] to the one it started from. *)
Definition always {A : Type} (R : World -> World -> Prop) (m : M A) : Prop :=
  forall w, R w (snd (m w)).

Definition is_message_write (ev : Event) : bool :=
  match ev with
  | EvMsgUpdate _ _ _ | EvMsgInsert _ => true
  | _ => false
  end.

(** The world [w'] differs from [w] by calls that write nothing to
    [whatsapp_messages]. *)
Definition only_reads (w w' : World) : Prop :=
  whatsapp_messages w' = whatsapp_messages w
  /\ exists evs, trace w' = trace w ++ evs
                 /\ Forall (fun e => is_message_write e = false) evs.

(** The prompts handed to the language model, read off the trace. *)
Definition prompts_of (evs : list Event) : list (list ChatMessage) :=
  flat_map (fun e => match e with EvCompletion messages => [messages] | _ => [] end) evs.

(** The turns between the system message and the new user message. *)
Definition history_part (messages : list ChatMessage) : list ChatMessage :=
  removelast (tl messages).

(** The history turns [generateAutoResponse] puts in the prompt when the
    history read succeeds on [table]. *)
Definition prompt_history (fromNumber : string) (table : list MsgRow) : list ChatMessage :=
  Js.slice_last 10 (build_history (Some (history_window fromNumber table))).

(** The ten most recent qualifying turns among all rows that involve the
    counterpart, in order of receipt. *)
Definition most_recent_qualifying (fromNumber : string) (table : list MsgRow)
    : list ChatMessage :=
  map to_turn
      (Js.slice_last 10
         (filter qualifies
            (order_by_received_at (filter (involves fromNumber) table)))).

Definition earlier_or_same (x y : MsgRow) : Prop := (received_at x <= received_at y)%N.

(** The auto-response rows the table holds for the inbound id prefix. *)
Definition outbound_turns (w : World) : list MsgRow :=
  filter is_auto_response (whatsapp_messages w).

(** Handling the same inbound message a second time leaves the outbound
    turns as the first handling left them. *)
Definition redelivery_is_idempotent (env : Env)
    (fromNumber toNumber messageText messageId : string) (w : World) : Prop :=
  let w1 := snd (generateAutoResponse env fromNumber toNumber messageText messageId w) in
  let w2 := snd (generateAutoResponse env fromNumber toNumber messageText messageId w1) in
  outbound_turns w2 = outbound_turns w1.

(** What a write leaves in the table: nothing changes when the store
    reports an error. *)
Definition written (err : option PgError) (f : list MsgRow -> list MsgRow)
    (table : list MsgRow) : list MsgRow :=
  match err with
  | None => f table
  | Some _ => table
  end.

Definition first_row (r : QueryResult (list MappingRow)) : option MappingRow :=
  match data r with
  | Some (first :: _) => Some first
  | _ => None
  end.

(** Two answers of the mapping lookup that agree on the reported error
    and on the first row. *)
Definition same_first_row (r1 r2 : QueryResult (list MappingRow)) : Prop :=
  error r1 = error r2 /\ first_row r1 = first_row r2.

Definition duplicate_line (chunkData : ShopifyChunkData) : string :=
  ("Skipping duplicate chunk for " ++ content_type_name (cd_content_type chunkData)
   ++ ": " ++ cd_title chunkData)%string.

(** The world after the embedder answered [emb] and the insert of the
    row was attempted: [stored] tells whether the row was added,
    [logged] what was printed. *)
Definition after_insert (storeId : string) (w : World) (chunkData : ShopifyChunkData)
    (emb : Vector) (stored : bool) (logged : list string) : World :=
  mkWorld (ticks w + 2)
          (if stored then shopify_chunks w ++ [row_of storeId chunkData emb]
           else shopify_chunks w)
          (whatsapp_messages w) (console w ++ logged)
          (trace w ++ [EvEmbed (cd_text chunkData);
                       EvChunksInsert (row_of storeId chunkData emb)]).

(** Empty or made of white space only. *)
Definition blank (s : string) : bool :=
  (fix all_space (s : string) : bool :=
     match s with
     | EmptyString => true
     | String c r => Js.is_space c && all_space r
     end) s.

Definition chunk_size_bound : nat := 1500.

Definition stored_text_ok (text : string) : Prop :=
  String.length text <= chunk_size_bound /\ blank text = false.

Definition insert_ok (ev : Event) : Prop :=
  match ev with
  | EvChunksInsert row => stored_text_ok (chunk_text row)
  | _ => True
  end.

(** Every insert attempted between [w] and [w'] carries an admissible
    text, and so does every row of [w'] that [w] did not have. *)
Definition writes_ok (w w' : World) : Prop :=
  (exists evs, trace w' = trace w ++ evs /\ Forall insert_ok evs)
  /\ forall row, In row (shopify_chunks w') ->
                 In row (shopify_chunks w) \/ stored_text_ok (chunk_text row).

(** [sourced answer chunks_of lo hi chunkData]: the chunk was cut from a
    record of a page that the listing [answer] returned at a call
    numbered in [lo, hi). *)
Definition sourced {A : Type} (answer : nat -> option string -> Outcome (Listing A))
    (chunks_of : A -> list ShopifyChunkData) (lo hi : nat)
    (chunkData : ShopifyChunkData) : Prop :=
  exists t cursor page x,
    lo <= t < hi /\ answer t cursor = Ret page /\ In x (items page)
    /\ In chunkData (chunks_of x).

(** The row was built, for this store, from a record the catalog returned
    during the calls numbered in [lo, hi). *)
Definition from_current_source (parseFloat : string -> option Q) (toFixed2 : Q -> string)
    (env : Env) (storeId : string) (lo hi : nat) (row : ChunkRow) : Prop :=
  exists chunkData emb,
    row = row_of storeId chunkData emb
    /\ (sourced (fun t => getProducts env t 250) (product_chunks parseFloat toFixed2)
          lo hi chunkData
        \/ sourced (fun t => getPages env t 100) page_chunks lo hi chunkData
        \/ sourced (fun t => getCollections env t 100) collection_chunks lo hi chunkData).

(** Between [w] and [w'] calls were made and rows were appended to
    [shopify_chunks], each satisfying [P] for the calls in between. *)
Definition appends (P : nat -> nat -> ChunkRow -> Prop) (w w' : World) : Prop :=
  ticks w <= ticks w'
  /\ (exists evs, trace w' = trace w ++ evs)
  /\ exists rows, shopify_chunks w' = shopify_chunks w ++ rows
                  /\ Forall (P (ticks w) (ticks w')) rows.

Definition widens (P : nat -> nat -> ChunkRow -> Prop) : Prop :=
  forall lo hi lo' hi' row, lo' <= lo -> hi <= hi' -> P lo hi row -> P lo' hi' row.

(** The rows [storeChunk] may add for one chunk. *)
Definition row_for (storeId : string) (P : ShopifyChunkData -> Prop)
    (_ _ : nat) (row : ChunkRow) : Prop :=
  exists chunkData emb, P chunkData /\ row = row_of storeId chunkData emb.

(** Rows cut from one of the records [xs]. *)
Definition cut_from {A : Type} (chunks_of : A -> list ShopifyChunkData) (xs : list A)
    (chunkData : ShopifyChunkData) : Prop :=
  exists x, In x xs /\ In chunkData (chunks_of x).

(** Rows built from a chunk the listing [answer] gave during [lo, hi). *)
Definition listed {A : Type} (storeId : string)
    (answer : nat -> option string -> Outcome (Listing A))
    (chunks_of : A -> list ShopifyChunkData) (lo hi : nat) (row : ChunkRow) : Prop :=
  exists chunkData emb,
    row = row_of storeId chunkData emb /\ sourced answer chunks_of lo hi chunkData.

(** What [processAllData] does once the old chunks are cleared. *)
Definition repopulate (parseFloat : string -> option Q) (toFixed2 : Q -> string)
    (env : Env) (storeId : string) (fuel : nat) : M (option unit) :=
  products <- processProducts parseFloat toFixed2 env storeId fuel ;;
  match products with
  | None => ret None
  | Some _ =>
      pages <- processPages env storeId fuel ;;
      match pages with
      | None => ret None
      | Some _ =>
          collections <- processCollections env storeId fuel ;;
          match collections with
          | None => ret None
          | Some _ =>
              console_log "Shopify data processing completed." ;;
              ret (Some tt)
          end
      end
  end.

(** The rows of the other stores. *)
Definition other_owners (storeId : string) (table : list ChunkRow) : list ChunkRow :=
  filter (fun r => negb (String.eqb (store_id r) storeId)) table.

(** The world after a successful delete. *)
Definition cleared (storeId : string) (w : World) : World :=
  mkWorld (ticks w + 1) (other_owners storeId (shopify_chunks w)) (whatsapp_messages w)
          (console w ++ ["Starting Shopify data processing...";
                         "Cleared existing chunks for store " ++ storeId]%string)
          (trace w ++ [EvChunksDelete storeId]).

(** The world after a failed delete. *)
Definition clear_failed (storeId : string) (w : World) : World :=
  mkWorld (ticks w + 1) (shopify_chunks w) (whatsapp_messages w)
          (console w ++ ["Starting Shopify data processing..."]%string)
          (trace w ++ [EvChunksDelete storeId]).

(** The calls of the mapping lookup when all three attempts and the
    extra call are made. *)
Definition exhausted_lookup (toNumber : string) : list Event :=
  [EvQuery "phone_document_mapping" toNumber; EvSleep 1000;
   EvQuery "phone_document_mapping" toNumber; EvSleep 2000;
   EvQuery "phone_document_mapping" toNumber;
   EvQuery "phone_document_mapping" toNumber].

(** [calls_only P w w']: between [w] and [w'] only calls satisfying [P]
    were made, and neither table nor the console changed. *)
Definition calls_only (P : Event -> Prop) (w w' : World) : Prop :=
  shopify_chunks w' = shopify_chunks w
  /\ whatsapp_messages w' = whatsapp_messages w
  /\ console w' = console w
  /\ exists evs, trace w' = trace w ++ evs /\ Forall P evs.

(** A history turn as the prompt may hold it. *)
Definition turn_ok (m : ChatMessage) : Prop :=
  role m <> System /\ content m <> EmptyString.

(** A history turn built from a stored row that has [fromNumber] as
    sender or recipient. *)
Definition conversation_turn (fromNumber : string) (table : list MsgRow)
    (turn : ChatMessage) : Prop :=
  exists row,
    In row table /\ involves fromNumber row = true /\ qualifies row = true
    /\ turn = to_turn row.

(** A system message: an opening, one of the two sets of strict rules,
    then the context section. *)
Definition system_ok (text : string) : Prop :=
  exists opening rules context,
    text = (opening ++ nl ++ nl ++ rules ++ nl ++ nl ++ "CONTEXT:" ++ nl ++ context)%string
    /\ opening <> EmptyString
    /\ (rules = shopify_rules \/ rules = document_rules)
    /\ context <> EmptyString.

(** A prompt for the inbound text [messageText]: one system message, then
    the history turns, then the inbound text as a user turn.  The history
    is empty (the read failed) or the last ten qualifying rows of the
    window read for [fromNumber]. *)
Definition prompt_ok (fromNumber messageText : string) (table : list MsgRow)
    (messages : list ChatMessage) : Prop :=
  exists sys hist,
    messages = sys :: hist ++ [mkChat User messageText]
    /\ role sys = System
    /\ system_ok (content sys)
    /\ (hist = [] \/ hist = prompt_history fromNumber table)
    /\ List.length hist <= 10
    /\ Forall turn_ok hist
    /\ Forall (conversation_turn fromNumber table) hist.

(** The calls steps 1 to 5 may make for an inbound message, [table] being
    the stored messages. *)
Definition prepare_event (fromNumber toNumber messageText : string)
    (table : list MsgRow) (ev : Event) : Prop :=
  match ev with
  | EvGetDataSource phone | EvGetShopifyStore phone | EvGetFiles phone =>
      phone = toNumber
  | EvQuery table_name flt =>
      table_name = "phone_document_mapping"%string /\ flt = toNumber
  | EvSleep _ => True
  | EvEmbed text => text = messageText
  | EvMatchDocuments _ match_count target => match_count = 5%Z /\ target <> None
  | EvShopifySearch _ _ limit => limit = 5%Z
  | EvHistoryRead counterpart => counterpart = fromNumber
  | EvCompletion messages => prompt_ok fromNumber messageText table messages
  | _ => False
  end.

(** Steps 1 to 5 lead from [w] to [w']. *)
Definition prepares (fromNumber toNumber messageText : string) (w w' : World) : Prop :=
  calls_only (prepare_event fromNumber toNumber messageText (whatsapp_messages w)) w w'.

(** The outbound turn step 6.5 stores. *)
Definition outbound (fromNumber toNumber : string) (row : MsgRow) : Prop :=
  from_number row = toNumber /\ to_number row = fromNumber
  /\ event_type row = "MtMessage"%string /\ is_auto_response row = true
  /\ exists text, text <> EmptyString /\ content_text row = Some text.

(** [m'] is the row [m], possibly after an update of the rows with the
    inbound message id. *)
Definition touched (messageId : string) (m m' : MsgRow) : Prop :=
  m' = m
  \/ (message_id m = messageId
      /\ exists flag at_time, m' = mark_row messageId flag at_time m).

(** The results [generateAutoResponse] can return. *)
Inductive result_shape : AutoResponseResult -> Prop :=
| shape_not_configured (msg : string) :
    result_shape (mkResult false None (Some msg) (Some true) None)
| shape_failed (msg : string) :
    result_shape (mkResult false None (Some msg) None None)
| shape_unsent (text msg : string) :
    text <> EmptyString ->
    result_shape (mkResult false (Some text) (Some msg) None (Some false))
| shape_sent (text : string) :
    text <> EmptyString ->
    result_shape (mkResult true (Some text) None None (Some true)).

(** What steps 1 to 5 return: an early result without text, or a reply
    with text and credentials. *)
Definition prepared_shape (r : AutoResponseResult + Reply) : Prop :=
  match r with
  | inl early => result_shape early /\ response early = None
  | inr reply =>
      reply_text reply <> EmptyString
      /\ reply_auth_token reply <> EmptyString
      /\ reply_origin reply <> EmptyString
  end.

(** [returns P m]: whenever [m] returns, what it returns satisfies [P]. *)
Definition returns {A : Type} (P : A -> Prop) (m : M A) : Prop :=
  forall w, match fst (m w) with Ret a => P a | Throw _ => True end.

Definition sends_of (evs : list Event) : list Event :=
  filter (fun e => match e with EvSend _ _ _ _ => true | _ => false end) evs.

(** The calls one handling of an inbound message may make, each tied to
    that message. *)
Definition orchestrator_event (fromNumber toNumber messageText messageId : string)
    (ev : Event) : Prop :=
  match ev with
  | EvGetDataSource phone | EvGetShopifyStore phone | EvGetFiles phone =>
      phone = toNumber
  | EvQuery table_name flt =>
      table_name = "phone_document_mapping"%string /\ flt = toNumber
  | EvSleep _ => True
  | EvEmbed text => text = messageText
  | EvMatchDocuments _ match_count target => match_count = 5%Z /\ target <> None
  | EvShopifySearch _ _ limit => limit = 5%Z
  | EvHistoryRead counterpart => counterpart = fromNumber
  | EvCompletion _ => True
  | EvSend recipient _ _ _ => recipient = fromNumber
  | EvClock => True
  | EvMsgUpdate id _ _ => id = messageId
  | EvMsgInsert row => outbound fromNumber toNumber row
  | _ => False
  end.

(** [has_char c s]: the character [c] occurs in [s]. *)
Fixpoint has_char (c : ascii) (s : string) : bool :=
  match s with
  | EmptyString => false
  | String d r => Ascii.eqb d c || has_char c r
  end.

(** [tag_free s]: no [<] of [s] has a [>] somewhere after it, so the
    pattern [<[^>]*>] matches nowhere in [s]. *)
Fixpoint tag_free (s : string) : bool :=
  match s with
  | EmptyString => true
  | String c r => negb (Ascii.eqb c "<" && has_char ">" r) && tag_free r
  end.

Fixpoint no_space (s : string) : bool :=
  match s with
  | EmptyString => true
  | String c r => negb (Js.is_space c) && no_space r
  end.

(** [text] begins with [label], has no white space at either end and is
    not blank. *)
Definition labelled (label text : string) : Prop :=
  String.prefix label text = true /\ Js.trim text = text /\ blank text = false.

(** All prices of [prices] are equal. *)
Definition single_price (prices : list Q) : Prop :=
  forall x y, In x prices -> In y prices -> (x == y)%Q.

(** Between [w] and [w'] only calls satisfying [P] were made and
    [whatsapp_messages] did not change. *)
Definition emits (P : Event -> Prop) (w w' : World) : Prop :=
  whatsapp_messages w' = whatsapp_messages w
  /\ exists evs, trace w' = trace w ++ evs /\ Forall P evs.

(** The calls of the ingestion phase for records of one kind: listings of
    that kind with the page size of the code, embeddings, and inserts of
    rows of that kind for the store. *)
Definition phase_event (storeId : string) (kind : ContentType) (ev : Event) : Prop :=
  match ev with
  | EvGetProducts first _ => kind = CtProduct /\ first = 250
  | EvGetPages first _ => kind = CtPage /\ first = 100
  | EvGetCollections first _ => kind = CtCollection /\ first = 100
  | EvEmbed _ => True
  | EvChunksInsert row => store_id row = storeId /\ content_type row = kind
  | _ => False
  end.

(** The columns of a store row other than [last_synced_at]. *)
Definition store_identity (row : StoreRow) : string * string * string :=
  (st_id row, store_domain row, storefront_token row).

(** The pages a listing loop visits on a catalog that answers
    [catalog cursor] for the cursor [cursor]: from [cursor] on, following
    [endCursor] as long as [hasNextPage] is set; [None] when [fuel] pages
    do not exhaust the listing. *)
Fixpoint visited {A : Type} (catalog : option string -> Listing A) (fuel : nat)
    (cursor : option string) : option (list (Listing A)) :=
  match fuel with
  | 0 => None
  | S fuel' =>
      let page := catalog cursor in
      if hasNextPage page then
        match visited catalog fuel' (endCursor page) with
        | Some pages => Some (page :: pages)
        | None => None
        end
      else Some [page]
  end.

Definition records {A : Type} (pages : list (Listing A)) : list A := flat_map items pages.

(** Collaborators that always answer: the three listings answer from
    fixed catalogs, the embedder returns [embed text] and the chunk store
    accepts every request. *)
Definition steady (env : Env)
    (products : option string -> Listing ShopifyProduct)
    (pages : option string -> Listing ShopifyPage)
    (collections : option string -> Listing ShopifyCollection)
    (embed : string -> Vector) : Prop :=
  (forall t cursor, getProducts env t 250 cursor = Ret (products cursor))
  /\ (forall t cursor, getPages env t 100 cursor = Ret (pages cursor))
  /\ (forall t cursor, getCollections env t 100 cursor = Ret (collections cursor))
  /\ (forall t text, embedText env t text = Ret (Some (embed text)))
  /\ (forall t, chunk_store_error env t = None).

(** The rows built for [chunks]. *)
Definition rows_of_chunks (storeId : string) (embed : string -> Vector)
    (chunks : list ShopifyChunkData) : list ChunkRow :=
  map (fun chunkData => row_of storeId chunkData (embed (cd_text chunkData))) chunks.

(** What a complete run prints. *)
Definition ingestion_log (storeId : string) (products pages collections : nat)
    : list string :=
  ["Starting Shopify data processing...";
   "Cleared existing chunks for store " ++ storeId;
   "Processing products...";
   "Processed " ++ Js.show_nat products ++ " products";
   "Processing pages...";
   "Processed " ++ Js.show_nat pages ++ " pages";
   "Processing collections...";
   "Processed " ++ Js.show_nat collections ++ " collections";
   "Shopify data processing completed."]%string.

(** What the calls made after the mapping lookup take from the row
    [first]: a prompt begins with the system prompt composed from the
    row's [system_prompt], and a send carries the row's token and
    origin. *)
Definition uses_first_row (first : MappingRow) (dataSource : string) (ev : Event) : Prop :=
  match ev with
  | EvCompletion messages =>
      exists context hist,
        messages
        = mkChat System
            (compose_system_prompt (system_prompt first) dataSource ++ nl ++ nl
             ++ "CONTEXT:" ++ nl ++ context)%string
          :: hist
  | EvSend _ _ token org => auth_token first = Some token /\ origin first = Some org
  | _ => True
  end.

(** * Example environments *)

(** An environment whose collaborators all answer with nothing. *)
Definition quiet_env : Env :=
  mkEnv (fun _ _ _ => Ret (mkListing [] false None))
        (fun _ _ _ => Ret (mkListing [] false None))
        (fun _ _ _ => Ret (mkListing [] false None))
        (fun _ _ => Ret (Some []))
        (fun _ => None)
        (fun _ _ _ _ => mkQueryResult (Some []) None)
        (fun _ _ _ _ => mkQueryResult (Some []) None)
        (fun _ _ => Ret None)
        (fun _ _ => Ret None)
        (fun _ _ => Ret [])
        (fun _ _ => mkQueryResult (Some []) None)
        (fun _ => None)
        (fun _ _ => Ret (mkCompletion []))
        (fun _ _ _ _ _ => Ret (mkSendResult true None))
        (fun t => N.of_nat t).

Definition with_documents (env : Env) (table : list (string * Match)) : Env :=
  mkEnv (getProducts env) (getPages env) (getCollections env) (embedText env)
        (chunk_store_error env) (exact_match_documents table) (shopify_search env)
        (getDataSourceForPhone env) (getShopifyStoreForPhoneNumber env)
        (getFilesForPhoneNumber env) (phone_mapping_query env)
        (message_store_error env) (chat_completion env) (sendWhatsAppMessage env)
        (clock env).

Definition empty_world : World := mkWorld 0 [] [] [] [].

(** Two sources whose best chunks have the same score. *)
Definition tied_rows : list (string * Match) :=
  [("B", mkMatch "b1" "from B" (9 # 10) None);
   ("A", mkMatch "a1" "from A" (9 # 10) None)].

Definition two_rows : list (string * Match) :=
  [("A", mkMatch "a1" "first" (9 # 10) None);
   ("A", mkMatch "a2" "second" (8 # 10) None)].

Definition demo_mapping : MappingRow :=
  mkMappingRow None (Some "support") (Some "token-1") (Some "https://wa.example").

Definition demo_documents : list (string * Match) :=
  [("f1", mkMatch "c1" "Blue Mug costs USD 12.00" (9 # 10) None);
   ("f2", mkMatch "c2" "Shipping takes 3 days" (5 # 10) None)].

Definition blue_mug : ShopifyProduct :=
  mkProduct "gid://shopify/Product/1" "Blue Mug" "blue-mug" "<p>A sturdy mug.</p>"
            [mkVariant "12.00" "USD" true (Some "MUG-1")] ["mug.png"].

Definition about_page : ShopifyPage :=
  mkPage "gid://shopify/Page/1" "About" "about" "<h1>About us</h1> We sell mugs.".

Definition demo_env : Env :=
  mkEnv (fun _ _ _ => Ret (mkListing [blue_mug] false None))
        (fun _ _ _ => Ret (mkListing [about_page] false None))
        (fun _ _ _ => Ret (mkListing [] false None))
        (fun _ _ => Ret (Some [1 # 2; 1 # 3]%Q))
        (fun _ => None)
        (exact_match_documents demo_documents)
        (fun _ _ _ _ => mkQueryResult (Some []) None)
        (fun _ _ => Ret (Some "file"%string))
        (fun _ _ => Ret None)
        (fun _ _ => Ret ["f1"; "f2"]%string)
        (fun _ _ => mkQueryResult (Some [demo_mapping]) None)
        (fun _ => None)
        (fun _ _ => Ret (mkCompletion [Some "The Blue Mug costs USD 12.00."%string]))
        (fun _ _ _ _ _ => Ret (mkSendResult true None))
        (fun t => (1700000000000 + N.of_nat t)%N).

Definition with_send (env : Env)
    (send : nat -> string -> string -> string -> string -> Outcome SendResult) : Env :=
  mkEnv (getProducts env) (getPages env) (getCollections env) (embedText env)
        (chunk_store_error env) (match_documents env) (shopify_search env)
        (getDataSourceForPhone env) (getShopifyStoreForPhoneNumber env)
        (getFilesForPhoneNumber env) (phone_mapping_query env)
        (message_store_error env) (chat_completion env) send (clock env).

Definition with_embedText (env : Env) (f : nat -> string -> Outcome (option Vector)) : Env :=
  mkEnv (getProducts env) (getPages env) (getCollections env) f
        (chunk_store_error env) (match_documents env) (shopify_search env)
        (getDataSourceForPhone env) (getShopifyStoreForPhoneNumber env)
        (getFilesForPhoneNumber env) (phone_mapping_query env)
        (message_store_error env) (chat_completion env) (sendWhatsAppMessage env)
        (clock env).

Definition with_chat_completion (env : Env)
    (f : nat -> list ChatMessage -> Outcome Completion) : Env :=
  mkEnv (getProducts env) (getPages env) (getCollections env) (embedText env)
        (chunk_store_error env) (match_documents env) (shopify_search env)
        (getDataSourceForPhone env) (getShopifyStoreForPhoneNumber env)
        (getFilesForPhoneNumber env) (phone_mapping_query env)
        (message_store_error env) f (sendWhatsAppMessage env)
        (clock env).

Definition with_match_documents (env : Env)
    (f : nat -> Vector -> Z -> option string -> QueryResult (list Match)) : Env :=
  mkEnv (getProducts env) (getPages env) (getCollections env) (embedText env)
        (chunk_store_error env) f (shopify_search env)
        (getDataSourceForPhone env) (getShopifyStoreForPhoneNumber env)
        (getFilesForPhoneNumber env) (phone_mapping_query env)
        (message_store_error env) (chat_completion env) (sendWhatsAppMessage env)
        (clock env).

Definition with_phone_mappings (env : Env)
    (q : nat -> string -> QueryResult (list MappingRow)) : Env :=
  mkEnv (getProducts env) (getPages env) (getCollections env) (embedText env)
        (chunk_store_error env) (match_documents env) (shopify_search env)
        (getDataSourceForPhone env) (getShopifyStoreForPhoneNumber env)
        (getFilesForPhoneNumber env) q
        (message_store_error env) (chat_completion env) (sendWhatsAppMessage env)
        (clock env).

Definition with_chunk_store_error (env : Env) (f : nat -> option PgError) : Env :=
  mkEnv (getProducts env) (getPages env) (getCollections env) (embedText env)
        f (match_documents env) (shopify_search env)
        (getDataSourceForPhone env) (getShopifyStoreForPhoneNumber env)
        (getFilesForPhoneNumber env) (phone_mapping_query env)
        (message_store_error env) (chat_completion env) (sendWhatsAppMessage env)
        (clock env).

(** An inbound turn from the customer ["cust"] to the business ["biz"],
    received at time [i]. *)
Definition inbound_turn (i : nat) : MsgRow :=
  mkMsgRow ("wamid." ++ Js.show_nat i)%string "whatsapp" "cust" "biz" (N.of_nat i) "text"
           (Some ("turn " ++ Js.show_nat i)%string) "Customer" "MoMessage"
           true false false None None.

Definition conversation (n : nat) : list MsgRow := map inbound_turn (seq 1 n).

Definition world_with_messages (table : list MsgRow) : World :=
  mkWorld 0 [] table [] [].

(** A lookup that fails twice and then succeeds, and one that always fails. *)
Definition bad_gateway : PgError := mkPgError "502" "bad gateway".

Definition flaky_query (t : nat) : Outcome (QueryResult nat) :=
  if Nat.ltb t 2 then Ret (mkQueryResult None (Some bad_gateway))
  else Ret (mkQueryResult (Some 7) None).

Definition failing_query (_ : nat) : Outcome (QueryResult nat) :=
  Ret (mkQueryResult None (Some bad_gateway)).

(** The chunk store refuses the insert made at call [t] with [code]. *)
Definition refuse_at (t : nat) (code : string) (n : nat) : option PgError :=
  if Nat.eqb n t then Some (mkPgError code "refused by the store") else None.

Definition mug_chunk : ShopifyChunkData :=
  mkChunkData CtProduct "gid://shopify/Product/1" "Blue Mug" "Product: Blue Mug"
              (ProductMeta "blue-mug" 1 1 1).

Definition mug_chunk_2 : ShopifyChunkData :=
  mkChunkData CtProduct "gid://shopify/Product/1" "Blue Mug" "Availability: 1/1"
              (ProductMeta "blue-mug" 1 1 1).

(** A table with a chunk of an earlier ingestion of ["store-1"] and a
    chunk of another store. *)
Definition stale_row : ChunkRow :=
  mkChunkRow "store-1" CtProduct "gid://shopify/Product/9" "Red Mug"
             "Product: Red Mug" [] (ProductMeta "red-mug" 1 0 1).

Definition foreign_row : ChunkRow :=
  mkChunkRow "store-2" CtPage "gid://shopify/Page/5" "Terms" "Page: Terms" []
             (PageMeta "terms").

Definition stale_world : World := mkWorld 0 [stale_row; foreign_row] [] [] [].

Definition parse_twelve (_ : string) : option Q := Some (12 # 1)%Q.
Definition print_twelve (_ : Q) : string := "12.00".

Definition demo_reply : Reply :=
  mkReply "The Blue Mug costs USD 12.00." "token-1" "https://wa.example".

Definition send_times_out (_ : nat) (_ _ _ _ : string) : Outcome SendResult :=
  Ret (mkSendResult false (Some "timeout"%string)).

(** A turn the customer ["cust"] sent to another business number. *)
Definition turn_with_other_business : MsgRow :=
  mkMsgRow "wamid.other" "whatsapp" "cust" "biz2" 3%N "text"
           (Some "where is my parcel?"%string) "Customer" "MoMessage"
           true false false None None.

(** A page whose body is 3200 letters long. *)
Fixpoint letters (n : nat) : string :=
  match n with
  | 0 => EmptyString
  | S n' => String "a" (letters n')
  end.

Definition long_page : ShopifyPage := mkPage "gid://shopify/Page/2" "Long" "long" (letters 3200).

(** A lookup that fails once and then throws. *)
Definition throwing_query (t : nat) : Outcome (QueryResult nat) :=
  if Nat.ltb t 1 then Ret (mkQueryResult None (Some bad_gateway))
  else Throw (JsError "fetch failed").

(** A vector store whose second call reports an error. *)
Definition second_call_fails (t : nat) (_ : Vector) (_ : Z) (_ : option string)
    : QueryResult (list Match) :=
  if Nat.eqb t 1 then mkQueryResult None (Some bad_gateway)
  else mkQueryResult (Some []) None.

(** A mapping lookup that always reports an error, one that finds no row
    and one whose row has no credentials. *)
Definition mapping_down (_ : nat) (_ : string) : QueryResult (list MappingRow) :=
  mkQueryResult None (Some bad_gateway).

Definition no_mapping_rows (_ : nat) (_ : string) : QueryResult (list MappingRow) :=
  mkQueryResult (Some []) None.

Definition mapping_without_token (_ : nat) (_ : string) : QueryResult (list MappingRow) :=
  mkQueryResult
    (Some [mkMappingRow None None None (Some "https://wa.example"%string)]) None.

Definition with_data_source (env : Env) (f : nat -> string -> Outcome (option string))
    : Env :=
  mkEnv (getProducts env) (getPages env) (getCollections env) (embedText env)
        (chunk_store_error env) (match_documents env) (shopify_search env)
        f (getShopifyStoreForPhoneNumber env)
        (getFilesForPhoneNumber env) (phone_mapping_query env)
        (message_store_error env) (chat_completion env) (sendWhatsAppMessage env)
        (clock env).

Definition with_files (env : Env) (f : nat -> string -> Outcome (list string)) : Env :=
  mkEnv (getProducts env) (getPages env) (getCollections env) (embedText env)
        (chunk_store_error env) (match_documents env) (shopify_search env)
        (getDataSourceForPhone env) (getShopifyStoreForPhoneNumber env)
        f (phone_mapping_query env)
        (message_store_error env) (chat_completion env) (sendWhatsAppMessage env)
        (clock env).

Definition demo_store : StoreRow := mkStoreRow "store-1" "shop.example" "sf-token" None.

Definition other_store : StoreRow :=
  mkStoreRow "store-2" "other.example" "sf-other" (Some 5%N).

(** The processor of every store talks to the example catalog. *)
Definition demo_sync_env : SyncEnv :=
  mkSyncEnv (fun _ => None) (fun _ _ => demo_env) (fun t => (1700000000000 + N.of_nat t)%N).

(** An embedder that is out of service for every store. *)
Definition embedder_down_sync_env : SyncEnv :=
  mkSyncEnv (fun _ => None)
            (fun _ _ => with_embedText demo_env (fun _ _ => Ret None))
            (fun t => (1700000000000 + N.of_nat t)%N).

Definition sync_world (stores : list StoreRow) : SyncWorld := mkSync stale_world stores.

Definition red_mug : ShopifyProduct :=
  mkProduct "gid://shopify/Product/2" "Red Mug" "red-mug" "" [] [].

(** A product listing of two pages. *)
Definition two_page_products (cursor : option string) : Listing ShopifyProduct :=
  match cursor with
  | None => mkListing [blue_mug] true (Some "c1"%string)
  | Some _ => mkListing [red_mug] false None
  end.

Definition one_page_pages (_ : option string) : Listing ShopifyPage :=
  mkListing [about_page] false None.

Definition no_collections (_ : option string) : Listing ShopifyCollection :=
  mkListing [] false None.

Definition demo_embed (_ : string) : Vector := [1 # 2; 1 # 3]%Q.

Definition two_page_env : Env :=
  mkEnv (fun _ _ cursor => Ret (two_page_products cursor))
        (getPages demo_env) (getCollections demo_env) (embedText demo_env)
        (chunk_store_error demo_env) (match_documents demo_env) (shopify_search demo_env)
        (getDataSourceForPhone demo_env) (getShopifyStoreForPhoneNumber demo_env)
        (getFilesForPhoneNumber demo_env) (phone_mapping_query demo_env)
        (message_store_error demo_env) (chat_completion demo_env)
        (sendWhatsAppMessage demo_env) (clock demo_env).

Definition mug_hit : ShopifyHit :=
  mkShopifyHit "row-1" "Product: Blue Mug" "store-1" CtProduct "Blue Mug"
               (ProductMeta "blue-mug" 1 1 1).

(** The example environment with a Shopify store as data source. *)
Definition shop_env : Env :=
  mkEnv (getProducts demo_env) (getPages demo_env) (getCollections demo_env)
        (embedText demo_env) (chunk_store_error demo_env) (match_documents demo_env)
        (fun _ _ _ _ => mkQueryResult (Some [mug_hit]) None)
        (fun _ _ => Ret (Some "shopify"%string))
        (fun _ _ => Ret (Some "store-1"%string))
        (getFilesForPhoneNumber demo_env) (phone_mapping_query demo_env)
        (message_store_error demo_env) (chat_completion demo_env)
        (sendWhatsAppMessage demo_env) (clock demo_env).

(** A first mapping row with a custom system prompt, followed by a row
    with another prompt and other credentials. *)
Definition prompted_mapping : MappingRow :=
  mkMappingRow (Some "Answer in one sentence."%string) (Some "support"%string)
               (Some "token-1"%string) (Some "https://wa.example"%string).

Definition prompted_mappings (_ : nat) (_ : string) : QueryResult (list MappingRow) :=
  mkQueryResult
    (Some [prompted_mapping;
           mkMappingRow (Some "Be rude."%string) None (Some "token-2"%string)
                        (Some "https://other.example"%string)])
    None.

(** The same lookup without the second row. *)
Definition prompted_mapping_alone (_ : nat) (_ : string) : QueryResult (list MappingRow) :=
  mkQueryResult (Some [prompted_mapping]) None.

(** The example environment with that single row as the lookup's answer. *)
Definition prompted_env : Env := with_phone_mappings demo_env prompted_mapping_alone.

(** A first row without a token, followed by a row with credentials. *)
Definition token_in_second_row (_ : nat) (_ : string) : QueryResult (list MappingRow) :=
  mkQueryResult
    (Some [mkMappingRow None None None (Some "https://wa.example"%string);
           mkMappingRow None None (Some "token-2"%string)
                        (Some "https://other.example"%string)])
    None.

(** * Properties *)

(** ** Worlds reached by collaborator calls *)

Lemma advance_advance w n1 e1 n2 e2 :
  advance (advance w n1 e1) n2 e2 = advance w (n1 + n2) (e1 ++ e2).
Proof.
  unfold advance; simpl. now rewrite Nat.add_assoc, app_assoc.
Qed.

Lemma external_advance {A : Type} ev (answer : nat -> Outcome A) w :
  external ev answer w = (answer (ticks w), advance w 1 [ev]).
Proof.
  unfold external, advance. now rewrite Nat.add_1_r.
Qed.

Lemma emit_advance ev w : emit ev w = (Ret tt, advance w 0 [ev]).
Proof.
  unfold emit, advance. now rewrite Nat.add_0_r.
Qed.

Lemma advance_nothing w : advance w 0 [] = w.
Proof.
  destruct w; unfold advance; simpl. now rewrite Nat.add_0_r, app_nil_r.
Qed.

(** ** The retry wrapper *)

Lemma retry_from_fail_prefix {D : Type} ev (q : nat -> Outcome (QueryResult D))
    maxRetries k :
  forall attempt rest w,
    (forall i, i < k -> fails_at q (ticks w + i)) ->
    retry_from (external ev q) maxRetries attempt (k + rest) w
    = retry_from (external ev q) maxRetries (attempt + k) rest
        (advance w k (failed_attempts ev maxRetries attempt k)).
Proof.
  induction k as [|k IH]; intros attempt rest w Hfail.
  - simpl. now rewrite Nat.add_0_r, advance_nothing.
  - destruct (Hfail 0 ltac:(lia)) as [r [Hq Herr]].
    rewrite Nat.add_0_r in Hq.
    cbn [Nat.add retry_from]. unfold bind at 1.
    rewrite external_advance, Hq, Herr. cbn [negb].
    unfold bind at 1.
    assert (Hrest : forall n evs i,
               n = 1 -> i < k -> fails_at q (ticks (advance w n evs) + i)).
    { intros n evs i -> Hi. cbn [advance ticks].
      replace (ticks w + 1 + i) with (ticks w + S i) by lia.
      apply Hfail. lia. }
    cbn [failed_attempts].
    replace (attempt + S k) with (S attempt + k) by lia.
    destruct (Nat.ltb attempt maxRetries).
    + unfold sleep. rewrite emit_advance, advance_advance.
      rewrite IH by (intros i Hi; now apply Hrest).
      rewrite advance_advance. reflexivity.
    + unfold ret at 1.
      rewrite IH by (intros i Hi; now apply Hrest).
      rewrite advance_advance. reflexivity.
Qed.

Lemma sleeps_of_app e1 e2 : sleeps_of (e1 ++ e2) = sleeps_of e1 ++ sleeps_of e2.
Proof. unfold sleeps_of. apply flat_map_app. Qed.

Lemma queries_of_app e1 e2 : queries_of (e1 ++ e2) = queries_of e1 + queries_of e2.
Proof. unfold queries_of. now rewrite filter_app, length_app. Qed.

Lemma failed_attempts_queries table flt maxRetries k :
  forall attempt, queries_of (failed_attempts (EvQuery table flt) maxRetries attempt k) = k.
Proof.
  induction k as [|k IH]; intros attempt; [reflexivity|].
  cbn [failed_attempts]. rewrite queries_of_app, IH.
  destruct (Nat.ltb attempt maxRetries); reflexivity.
Qed.

Lemma failed_attempts_sleeps table flt maxRetries k :
  forall attempt,
    attempt + k <= S maxRetries ->
    sleeps_of (failed_attempts (EvQuery table flt) maxRetries attempt k)
    = map (fun a => a * 1000) (seq attempt (Nat.min k (maxRetries - attempt))).
Proof.
  induction k as [|k IH]; intros attempt Hle; [reflexivity|].
  cbn [failed_attempts]. rewrite sleeps_of_app, IH by lia.
  destruct (Nat.ltb attempt maxRetries) eqn:Hlt.
  - apply Nat.ltb_lt in Hlt.
    replace (Nat.min (S k) (maxRetries - attempt))
      with (S (Nat.min k (maxRetries - S attempt))) by lia.
    reflexivity.
  - apply Nat.ltb_ge in Hlt.
    replace (Nat.min (S k) (maxRetries - attempt)) with 0 by lia.
    replace (Nat.min k (maxRetries - S attempt)) with 0 by lia.
    reflexivity.
Qed.

(** C3. [retrySupabaseQuery] returns the first successful result at
    once, having waited [1000 * a] ms after each failed attempt [a]
    before it; when all [maxRetries] attempts fail it waits after every
    attempt but the last, calls the query function once more and returns
    that call's outcome as it is: [maxRetries + 1] calls in all. *)
Theorem retrySupabaseQuery_bounded_retry :
  forall (D : Type) (table flt : string) (q : nat -> Outcome (QueryResult D))
         (maxRetries : nat) (w : World),
    let run := retrySupabaseQuery (external (EvQuery table flt) q) maxRetries w in
    (forall k r,
        k < maxRetries ->
        (forall i, i < k -> fails_at q (ticks w + i)) ->
        q (ticks w + k) = Ret r -> has_error r = false ->
        exists evs,
          run = (Ret r, advance w (k + 1) evs)
          /\ queries_of evs = k + 1
          /\ sleeps_of evs = map (fun a => a * 1000) (seq 1 k))
    /\ ((forall i, i < maxRetries -> fails_at q (ticks w + i)) ->
        exists evs,
          run = (q (ticks w + maxRetries), advance w (maxRetries + 1) evs)
          /\ queries_of evs = maxRetries + 1
          /\ sleeps_of evs = map (fun a => a * 1000) (seq 1 (maxRetries - 1))).
Proof.
  intros D table flt q maxRetries w run. subst run. unfold retrySupabaseQuery. split.
  - intros k r Hk Hfail Hq Hok.
    assert (Hsplit : retry_from (external (EvQuery table flt) q) maxRetries 1 maxRetries w
                     = retry_from (external (EvQuery table flt) q) maxRetries 1
                         (k + S (maxRetries - S k)) w) by (f_equal; lia).
    rewrite Hsplit, retry_from_fail_prefix by exact Hfail.
    cbn [retry_from]. unfold bind at 1.
    rewrite external_advance. cbn [advance ticks]. rewrite Hq, Hok. cbn [negb].
    unfold ret.
    exists (failed_attempts (EvQuery table flt) maxRetries 1 k ++ [EvQuery table flt]).
    split; [| split].
    + f_equal. unfold advance; simpl. f_equal; [lia | now rewrite app_assoc].
    + rewrite queries_of_app, failed_attempts_queries. reflexivity.
    + rewrite sleeps_of_app, failed_attempts_sleeps by lia. simpl.
      rewrite app_nil_r. f_equal. f_equal. lia.
  - intros Hfail.
    assert (Hsplit : retry_from (external (EvQuery table flt) q) maxRetries 1 maxRetries w
                     = retry_from (external (EvQuery table flt) q) maxRetries 1
                         (maxRetries + 0) w) by (f_equal; lia).
    rewrite Hsplit, retry_from_fail_prefix by exact Hfail.
    cbn [retry_from]. rewrite external_advance. cbn [advance ticks].
    exists (failed_attempts (EvQuery table flt) maxRetries 1 maxRetries
            ++ [EvQuery table flt]).
    split; [| split].
    + f_equal. unfold advance; simpl. f_equal; [lia | now rewrite app_assoc].
    + rewrite queries_of_app, failed_attempts_queries. reflexivity.
    + rewrite sleeps_of_app, failed_attempts_sleeps by lia. simpl.
      rewrite app_nil_r. f_equal. f_equal. lia.
Qed.

(** ** Stable sorting *)

Section StableSortFacts.

Variable A : Type.
Variable leb : A -> A -> bool.
Variable R : A -> A -> Prop.
Hypothesis leb_true : forall a b, leb a b = true -> R a b.
Hypothesis leb_false : forall a b, leb a b = false -> R b a.
Hypothesis R_trans : forall a b c, R a b -> R b c -> R a c.

Lemma insert_sorted_perm x l : Permutation (x :: l) (insert_sorted leb x l).
Proof.
  induction l as [|y ys IH]; simpl; [reflexivity|].
  destruct (leb x y); [reflexivity|].
  etransitivity; [apply perm_swap|]. now apply perm_skip.
Qed.

Lemma stable_sort_perm l : Permutation l (stable_sort leb l).
Proof.
  induction l as [|x xs IH]; simpl; [constructor|].
  etransitivity; [apply perm_skip, IH | apply insert_sorted_perm].
Qed.

Lemma insert_sorted_sorted x l :
  StronglySorted R l -> StronglySorted R (insert_sorted leb x l).
Proof.
  induction l as [|y ys IH]; intros Hs; simpl.
  - constructor; constructor.
  - inversion Hs as [|? ? Hys Hall]; subst.
    destruct (leb x y) eqn:Hb.
    + constructor; [exact Hs|].
      apply leb_true in Hb. constructor; [exact Hb|].
      eapply Forall_impl; [|exact Hall].
      intros z Hz. eapply R_trans; eassumption.
    + constructor; [now apply IH|].
      apply leb_false in Hb.
      eapply Permutation_Forall; [apply insert_sorted_perm|].
      now constructor.
Qed.

Lemma stable_sort_sorted l : StronglySorted R (stable_sort leb l).
Proof.
  induction l as [|x xs IH]; simpl; [constructor | now apply insert_sorted_sorted].
Qed.

Lemma firstn_sorted n l : StronglySorted R l -> StronglySorted R (firstn n l).
Proof.
  revert l; induction n as [|n IH]; intros [|x xs] Hs; simpl; try constructor.
  - inversion Hs; subst. now apply IH.
  - inversion Hs as [|? ? _ Hall]; subst.
    rewrite Forall_forall in *. intros y Hy. apply Hall.
    rewrite <- (firstn_skipn n xs). apply in_or_app. now left.
Qed.

Lemma skipn_sorted n l : StronglySorted R l -> StronglySorted R (skipn n l).
Proof.
  revert l; induction n as [|n IH]; intros [|x xs] Hs; simpl; try assumption.
  inversion Hs; subst. now apply IH.
Qed.

Lemma filter_sorted f l : StronglySorted R l -> StronglySorted R (filter f l).
Proof.
  induction l as [|x xs IH]; intros Hs; simpl; [constructor|].
  inversion Hs as [|? ? Hxs Hall]; subst.
  destruct (f x); [|now apply IH].
  constructor; [now apply IH|].
  rewrite Forall_forall in *. intros y Hy. apply Hall.
  apply filter_In in Hy. tauto.
Qed.

Lemma firstn_above_rest n l :
  StronglySorted R l ->
  forall x y, In x (firstn n l) -> In y (skipn n l) -> R x y.
Proof.
  revert l; induction n as [|n IH]; intros [|a l] Hs x y Hx Hy; simpl in *;
    try contradiction.
  inversion Hs as [|? ? Hl Hall]; subst.
  destruct Hx as [<-|Hx].
  - rewrite Forall_forall in Hall. apply Hall.
    rewrite <- (firstn_skipn n l). apply in_or_app. now right.
  - now apply (IH l).
Qed.

End StableSortFacts.

(** ** Multi-source retrieval *)

Lemma before_true a b : before a b = true -> desc a b.
Proof. unfold before, desc. apply Qle_bool_iff. Qed.

Lemma before_false a b : before a b = false -> desc b a.
Proof.
  unfold before, desc. intros H.
  apply Qlt_le_weak, Qnot_le_lt. intros Hle.
  apply Qle_bool_iff in Hle. congruence.
Qed.

Lemma desc_trans a b c : desc a b -> desc b c -> desc a c.
Proof. unfold desc. intros H1 H2. eapply Qle_trans; eassumption. Qed.

Lemma sort_desc_perm l : Permutation l (sort_desc l).
Proof. apply stable_sort_perm. Qed.

Lemma sort_desc_sorted l : StronglySorted desc (sort_desc l).
Proof.
  apply stable_sort_sorted.
  - apply before_true.
  - apply before_false.
  - apply desc_trans.
Qed.

Lemma gather_chunks_run env q limit :
  forall fileIds parts acc w,
    answers_from env q limit (ticks w) fileIds parts ->
    gather_chunks env q limit fileIds acc w
    = (Ret (acc ++ tagged fileIds parts),
       advance w (List.length fileIds) (match_calls q limit fileIds)).
Proof.
  induction fileIds as [|f fs IH]; intros [|p ps] acc w H; simpl in H; try contradiction.
  - simpl. unfold ret. now rewrite app_nil_r, advance_nothing.
  - destruct H as [Hf Hrest].
    cbn [gather_chunks]. unfold bind at 1, retrieveRelevantChunks, bind at 1.
    rewrite external_advance, Hf. cbn [error data]. unfold ret at 1.
    rewrite (IH ps) by (cbn [advance ticks]; now rewrite Nat.add_1_r).
    rewrite advance_advance. cbn [tagged]. now rewrite app_assoc.
Qed.

Lemma repeated_source_differs_from_global_top :
  fst (retrieveRelevantChunksFromFiles (with_documents quiet_env two_rows)
         [] ["A"; "A"] 2 empty_world)
  = Ret (Some [mkMatch "a1" "first" (9 # 10) (Some "A");
               mkMatch "a1" "first" (9 # 10) (Some "A")])
  /\ global_top two_rows ["A"; "A"] 2
     = [mkMatch "a1" "first" (9 # 10) (Some "A");
        mkMatch "a2" "second" (8 # 10) (Some "A")].
Proof. split; reflexivity. Qed.

(** With equal scores the result follows the order in which the sources
    are listed. *)
Lemma merge_depends_on_source_order :
  fst (retrieveRelevantChunksFromFiles (with_documents quiet_env tied_rows)
         [] ["A"; "B"]%string 1 empty_world)
  = Ret (Some [mkMatch "a1" "from A" (9 # 10) (Some "A"%string)])
  /\ fst (retrieveRelevantChunksFromFiles (with_documents quiet_env tied_rows)
            [] ["B"; "A"]%string 1 empty_world)
     = Ret (Some [mkMatch "b1" "from B" (9 # 10) (Some "B"%string)]).
Proof. split; reflexivity. Qed.

(** *** Scores of the merge against the scores of a global ranking *)

Lemma count_ge_cons q m l :
  count_ge q (m :: l) = (if Qle_bool q (similarity m) then 1 else 0) + count_ge q l.
Proof.
  unfold count_ge. simpl. now destruct (Qle_bool q (similarity m)).
Qed.

Lemma count_ge_app q l1 l2 : count_ge q (l1 ++ l2) = count_ge q l1 + count_ge q l2.
Proof. unfold count_ge. now rewrite filter_app, length_app. Qed.

Lemma count_ge_perm q l1 l2 : Permutation l1 l2 -> count_ge q l1 = count_ge q l2.
Proof.
  induction 1 as [|x l l' _ IH|x y l|l l' l'' _ IH1 _ IH2].
  - reflexivity.
  - rewrite !count_ge_cons. now rewrite IH.
  - rewrite !count_ge_cons. lia.
  - congruence.
Qed.

Lemma count_ge_tagged q f l : count_ge q (map (with_file_id f) l) = count_ge q l.
Proof.
  induction l as [|m l IH]; [reflexivity|].
  cbn [map]. rewrite !count_ge_cons, IH. reflexivity.
Qed.

Lemma count_ge_below q a l :
  Qle_bool q (similarity a) = false -> Forall (desc a) l -> count_ge q l = 0.
Proof.
  intros Ha Hall. induction l as [|m l IH]; [reflexivity|].
  inversion Hall as [|? ? Hm Hl]; subst.
  rewrite count_ge_cons, IH by exact Hl.
  destruct (Qle_bool q (similarity m)) eqn:Hq; [|reflexivity].
  apply Qle_bool_iff in Hq. unfold desc in Hm.
  assert (Hqa : Qle_bool q (similarity a) = true).
  { apply Qle_bool_iff. eapply Qle_trans; eassumption. }
  congruence.
Qed.

Lemma count_ge_firstn_sorted q l :
  StronglySorted desc l ->
  forall n, count_ge q (firstn n l) = Nat.min n (count_ge q l).
Proof.
  induction 1 as [|a l Hl IH Hall]; intros n.
  - rewrite firstn_nil. unfold count_ge. simpl. lia.
  - destruct n as [|n]; [unfold count_ge at 1; simpl; lia|].
    cbn [firstn]. rewrite !count_ge_cons.
    destruct (Qle_bool q (similarity a)) eqn:Hq.
    + rewrite IH. lia.
    + rewrite (count_ge_below q a l Hq Hall).
      rewrite (count_ge_below q a (firstn n l) Hq).
      * lia.
      * rewrite Forall_forall in *. intros m Hm. apply Hall.
        rewrite <- (firstn_skipn n l). apply in_or_app. now left.
Qed.

Lemma count_ge_top q n l :
  count_ge q (firstn n (sort_desc l)) = Nat.min n (count_ge q l).
Proof.
  rewrite count_ge_firstn_sorted by apply sort_desc_sorted.
  now rewrite <- (count_ge_perm q l (sort_desc l) (sort_desc_perm l)).
Qed.

Lemma count_ge_positive q l :
  0 < count_ge q l -> exists m, In m l /\ (q <= similarity m)%Q.
Proof.
  induction l as [|a l IH]; [unfold count_ge; simpl; lia|].
  rewrite count_ge_cons. destruct (Qle_bool q (similarity a)) eqn:Hq.
  - intros _. exists a. split; [now left | now apply Qle_bool_iff].
  - intros H. destruct (IH H) as [m [Hm Hle]]. exists m. split; [now right | exact Hle].
Qed.

Lemma head_is_best a l m : Forall (desc a) l -> In m (a :: l) -> desc a m.
Proof.
  intros Hall [<-|Hin]; [unfold desc; apply Qle_refl|].
  rewrite Forall_forall in Hall. now apply Hall.
Qed.

Lemma count_ge_head a l : count_ge (similarity a) (a :: l) > 0.
Proof.
  rewrite count_ge_cons.
  assert (H : Qle_bool (similarity a) (similarity a) = true)
    by (apply Qle_bool_iff, Qle_refl).
  rewrite H. lia.
Qed.

(** Two lists sorted descending in which, for every score, equally many
    chunks reach it, carry the same scores position by position. *)
Lemma same_counts_same_scores l1 :
  StronglySorted desc l1 ->
  forall l2, StronglySorted desc l2 ->
    (forall q, count_ge q l1 = count_ge q l2) ->
    Forall2 same_score l1 l2.
Proof.
  induction 1 as [|a l1 Hl1 IH Ha]; intros l2 Hs2 Hcount.
  - destruct l2 as [|b l2]; [constructor|].
    pose proof (count_ge_head b l2) as Hb.
    rewrite <- Hcount in Hb. unfold count_ge in Hb. simpl in Hb. lia.
  - destruct l2 as [|b l2].
    + pose proof (count_ge_head a l1) as Hpos.
      rewrite Hcount in Hpos. unfold count_ge in Hpos. simpl in Hpos. lia.
    + inversion Hs2 as [|? ? Hl2 Hb]; subst.
      assert (Hab : same_score a b).
      { unfold same_score. apply Qle_antisym.
        - pose proof (count_ge_head a l1) as Hpos. rewrite Hcount in Hpos.
          destruct (count_ge_positive _ _ Hpos) as [m [Hm Hle]].
          eapply Qle_trans; [exact Hle | exact (head_is_best b l2 m Hb Hm)].
        - pose proof (count_ge_head b l2) as Hpos. rewrite <- Hcount in Hpos.
          destruct (count_ge_positive _ _ Hpos) as [m [Hm Hle]].
          eapply Qle_trans; [exact Hle | exact (head_is_best a l1 m Ha Hm)]. }
      constructor; [exact Hab|].
      apply IH; [exact Hl2|].
      intros q. specialize (Hcount q). rewrite !count_ge_cons in Hcount.
      assert (Hq : Qle_bool q (similarity a) = Qle_bool q (similarity b)).
      { unfold same_score in Hab.
        destruct (Qle_bool q (similarity a)) eqn:H1, (Qle_bool q (similarity b)) eqn:H2;
          try reflexivity.
        - apply Qle_bool_iff in H1. rewrite Hab in H1.
          apply Qle_bool_iff in H1. congruence.
        - apply Qle_bool_iff in H2. rewrite <- Hab in H2.
          apply Qle_bool_iff in H2. congruence. }
      rewrite Hq in Hcount. lia.
Qed.

Lemma list_sum_cons x l : list_sum (x :: l) = x + list_sum l.
Proof. reflexivity. Qed.

Lemma count_ge_exact_parts q table limit :
  forall fileIds,
    count_ge q (tagged fileIds (exact_parts table fileIds limit))
    = list_sum (map (fun f => Nat.min (Z.to_nat limit)
                                (count_ge q (rows_of_file table (Some f))))
                    fileIds).
Proof.
  induction fileIds as [|f fs IH]; [reflexivity|].
  cbn [exact_parts map tagged]. rewrite list_sum_cons.
  fold (exact_parts table fs limit).
  now rewrite count_ge_app, count_ge_tagged, count_ge_top, IH.
Qed.

Lemma sum_of_one_source (g : string) (c : nat) :
  forall fileIds,
    NoDup fileIds ->
    list_sum (map (fun f => if String.eqb g f then c else 0) fileIds)
    = if existsb (String.eqb g) fileIds then c else 0.
Proof.
  induction fileIds as [|f fs IH]; intros Hnd; [reflexivity|].
  inversion Hnd as [|? ? Hnotin Hnd']; subst.
  cbn [map existsb]. rewrite list_sum_cons, IH by exact Hnd'.
  destruct (String.eqb g f) eqn:Hgf; [|reflexivity].
  apply String.eqb_eq in Hgf. subst f.
  destruct (existsb (String.eqb g) fs) eqn:Hex; [|cbn [orb]; lia].
  apply existsb_exists in Hex. destruct Hex as [f' [Hin Heq]].
  apply String.eqb_eq in Heq. subst f'. contradiction.
Qed.

Lemma list_sum_map_add {A : Type} (f g : A -> nat) l :
  list_sum (map (fun x => f x + g x) l) = list_sum (map f l) + list_sum (map g l).
Proof.
  induction l as [|x l IH]; [reflexivity|]. cbn [map]. rewrite !list_sum_cons, IH. lia.
Qed.

Lemma count_ge_listed_rows q fileIds :
  NoDup fileIds ->
  forall table,
    count_ge q (map (fun fr => with_file_id (fst fr) (snd fr))
                    (filter (fun fr => existsb (String.eqb (fst fr)) fileIds) table))
    = list_sum (map (fun f => count_ge q (rows_of_file table (Some f))) fileIds).
Proof.
  intros Hnd. induction table as [|[g m] table IH].
  - cbn [filter map]. unfold rows_of_file. cbn [filter map].
    induction fileIds as [|f fs IHf]; [reflexivity|].
    inversion Hnd; subst. cbn [map]. rewrite list_sum_cons. now rewrite <- IHf.
  - assert (Hsplit :
      list_sum (map (fun f => count_ge q (rows_of_file ((g, m) :: table) (Some f)))
                    fileIds)
      = list_sum (map (fun f => if String.eqb g f
                                then (if Qle_bool q (similarity m) then 1 else 0)
                                else 0) fileIds)
        + list_sum (map (fun f => count_ge q (rows_of_file table (Some f))) fileIds)).
    { rewrite <- list_sum_map_add. f_equal. apply map_ext. intros f.
      unfold rows_of_file. cbn [filter fst].
      destruct (String.eqb g f); [|reflexivity].
      cbn [map snd]. now rewrite count_ge_cons. }
    rewrite Hsplit, sum_of_one_source by exact Hnd. rewrite <- IH.
    cbn [filter fst]. destruct (existsb (String.eqb g) fileIds); [|reflexivity].
    cbn [map fst snd]. rewrite count_ge_cons. reflexivity.
Qed.

Lemma min_of_capped_sum {A : Type} (k : nat) (c : A -> nat) l :
  Nat.min k (list_sum (map (fun x => Nat.min k (c x)) l))
  = Nat.min k (list_sum (map c l)).
Proof.
  induction l as [|x l IH]; [reflexivity|]. cbn [map]. rewrite !list_sum_cons. lia.
Qed.

Lemma exact_store_answers env table q limit :
  forall fileIds t,
    answers_from (with_documents env table) q limit t fileIds
      (exact_parts table fileIds limit).
Proof.
  induction fileIds as [|f fs IH]; intros t; [exact I|].
  split; [reflexivity | apply IH].
Qed.

(** On a store that answers every call exactly, and with no source listed
    twice, the merged result carries, position by position, the scores of
    the [limit] best chunks of the listed sources: it can differ from
    them only in which of several equally scored chunks it keeps. *)
Lemma merge_scores_equal_global_top env table q fileIds limit w :
  NoDup fileIds -> 2 <= List.length fileIds -> (0 <= limit)%Z ->
  exists result,
    fst (retrieveRelevantChunksFromFiles (with_documents env table) q fileIds limit w)
    = Ret (Some result)
    /\ Forall2 same_score result (global_top table fileIds limit).
Proof.
  intros Hnd Hlen Hlimit.
  exists (firstn (Z.to_nat limit)
            (sort_desc (tagged fileIds (exact_parts table fileIds limit)))).
  split.
  - destruct fileIds as [|f1 [|f2 fs]]; simpl in Hlen; try lia.
    unfold retrieveRelevantChunksFromFiles, bind.
    rewrite (gather_chunks_run _ q limit _ (exact_parts table (f1 :: f2 :: fs) limit))
      by apply exact_store_answers.
    unfold ret. cbn [fst]. unfold Js.slice0.
    destruct (limit <? 0)%Z eqn:Hneg; [apply Z.ltb_lt in Hneg; lia | reflexivity].
  - unfold global_top.
    apply same_counts_same_scores;
      try (apply firstn_sorted, sort_desc_sorted).
    intros s. rewrite !count_ge_top, count_ge_exact_parts, count_ge_listed_rows
      by exact Hnd.
    apply min_of_capped_sum.
Qed.

Lemma slice0_length {A : Type} (l : list A) (e : Z) :
  (0 <= e)%Z -> Js.slice0 l e = firstn (Z.to_nat e) l.
Proof.
  intros He. unfold Js.slice0.
  destruct (e <? 0)%Z eqn:Hneg; [apply Z.ltb_lt in Hneg; lia | reflexivity].
Qed.

(** C1. With two or more sources, [retrieveRelevantChunksFromFiles] asks
    the store for each source's own [limit] best chunks, one call after
    the other, and returns the first [limit] elements of their
    concatenation sorted descending by similarity: the result is sorted
    descending, has at most [limit] elements, and no chunk left out of it
    scores higher than one kept.  It need not be the [limit] best chunks
    of the listed sources: on a store that answers every call exactly
    there is a source list for which the two differ. *)
Theorem retrieveRelevantChunksFromFiles_merge_then_truncate :
  (forall (env : Env) (q : Vector) (fileIds : list string) (limit : Z)
          (parts : list (list Match)) (w : World),
      2 <= List.length fileIds ->
      (0 <= limit)%Z ->
      answers_from env q limit (ticks w) fileIds parts ->
      exists result,
        retrieveRelevantChunksFromFiles env q fileIds limit w
        = (Ret (Some result),
           advance w (List.length fileIds) (match_calls q limit fileIds))
        /\ result = firstn (Z.to_nat limit) (sort_desc (tagged fileIds parts))
        /\ StronglySorted desc result
        /\ (Z.of_nat (List.length result) <= limit)%Z
        /\ exists rest,
             Permutation (result ++ rest) (tagged fileIds parts)
             /\ forall x y, In x result -> In y rest -> desc x y)
  /\ (exists table q fileIds limit result,
        2 <= List.length fileIds /\ (0 <= limit)%Z
        /\ fst (retrieveRelevantChunksFromFiles (with_documents quiet_env table)
                  q fileIds limit empty_world) = Ret (Some result)
        /\ result <> global_top table fileIds limit).
Proof.
  split.
  - intros env q fileIds limit parts w Hlen Hlimit Hparts.
    exists (firstn (Z.to_nat limit) (sort_desc (tagged fileIds parts))).
    split; [| split; [reflexivity | split; [| split]]].
    + destruct fileIds as [|f1 [|f2 fs]]; simpl in Hlen; try lia.
      unfold retrieveRelevantChunksFromFiles, bind.
      rewrite (gather_chunks_run env q limit _ parts) by exact Hparts.
      unfold ret. now rewrite slice0_length.
    + apply firstn_sorted, sort_desc_sorted.
    + rewrite length_firstn. lia.
    + exists (skipn (Z.to_nat limit) (sort_desc (tagged fileIds parts))).
      split.
      * rewrite firstn_skipn. symmetry. apply sort_desc_perm.
      * apply firstn_above_rest, sort_desc_sorted.
  - exists two_rows, [], ["A"; "A"], 2%Z.
    eexists. split; [simpl; lia | split; [lia | split; [reflexivity |]]].
    discriminate.
Qed.

(** ** Relating the world before and after a computation *)

Section Always.

Variable R : World -> World -> Prop.
Hypothesis R_refl : forall w, R w w.
Hypothesis R_trans : forall w1 w2 w3, R w1 w2 -> R w2 w3 -> R w1 w3.

Lemma always_ret {A : Type} (a : A) : always R (ret a).
Proof. intros w. apply R_refl. Qed.

Lemma always_throw {A : Type} (e : Exn) : always R (@throw A e).
Proof. intros w. apply R_refl. Qed.

Lemma always_bind {A B : Type} (m : M A) (k : A -> M B) :
  always R m -> (forall a, always R (k a)) -> always R (bind m k).
Proof.
  intros Hm Hk w. unfold bind. specialize (Hm w).
  destruct (m w) as [[a|e] w1]; simpl in *; [|exact Hm].
  eapply R_trans; [exact Hm | apply Hk].
Qed.

Lemma always_try_catch {A : Type} (body : M A) (handler : Exn -> M A) :
  always R body -> (forall e, always R (handler e)) -> always R (try_catch body handler).
Proof.
  intros Hb Hh w. unfold try_catch. specialize (Hb w).
  destruct (body w) as [[a|e] w1]; simpl in *; [exact Hb|].
  eapply R_trans; [exact Hb | apply Hh].
Qed.

Lemma always_for_each {A : Type} (body : A -> M unit) (xs : list A) :
  (forall x, In x xs -> always R (body x)) -> always R (for_each body xs).
Proof.
  induction xs as [|x rest IH]; intros Hbody; simpl.
  - apply always_ret.
  - apply always_bind; [apply Hbody; now left|].
    intros _. apply IH. intros y Hy. apply Hbody. now right.
Qed.

Lemma always_paginate {A : Type} (fetch : option string -> M (Listing A))
    (process : A -> M unit) :
  (forall cursor, always R (fetch cursor)) ->
  (forall x, always R (process x)) ->
  forall fuel cursor total, always R (paginate fetch process fuel cursor total).
Proof.
  intros Hf Hp. induction fuel as [|fuel IH]; intros cursor total; simpl.
  - apply always_ret.
  - apply always_bind; [apply Hf|]. intros page.
    apply always_bind; [apply always_for_each; intros; apply Hp|]. intros _.
    destruct (hasNextPage page); [apply IH | apply always_ret].
Qed.

Lemma always_retry_from {D : Type} (queryFn : M (QueryResult D)) maxRetries :
  always R queryFn -> (forall ms, always R (sleep ms)) ->
  forall remaining attempt, always R (retry_from queryFn maxRetries attempt remaining).
Proof.
  intros Hq Hs. induction remaining as [|remaining IH]; intros attempt; simpl.
  - exact Hq.
  - apply always_bind; [exact Hq|]. intros result.
    destruct (negb (has_error result)); [apply always_ret|].
    apply always_bind; [|intros _; apply IH].
    destruct (Nat.ltb attempt maxRetries); [apply Hs | apply always_ret].
Qed.

End Always.

(** ** The orchestrator never throws *)

(** A [catch] block that only builds a result turns every body into a
    computation that returns. *)
Lemma catch_all_returns (body : M AutoResponseResult) (w : World) :
  exists result w',
    try_catch body (fun e => ret (failure (error_text e))) w = (Ret result, w').
Proof.
  unfold try_catch. destruct (body w) as [[r|e] w1].
  - now exists r, w1.
  - now exists (failure (error_text e)), w1.
Qed.

(** C8. [generateAutoResponse] returns a result for every input and every
    behaviour of its collaborators: what its body returns is returned
    unchanged, and whatever is thrown inside it, by any collaborator or
    by the code itself, comes back as a result with [success = false]
    and the error's message (or "Unknown error") in [error]. *)
Theorem generateAutoResponse_never_throws :
  forall (env : Env) (fromNumber toNumber messageText messageId : string) (w : World),
  exists result w',
    generateAutoResponse env fromNumber toNumber messageText messageId w = (Ret result, w')
    /\ match generateAutoResponse_body env fromNumber toNumber messageText messageId w with
       | (Ret r, w1) => result = r /\ w' = w1
       | (Throw e, w1) =>
           w' = w1 /\ success result = false
           /\ result_error result = Some (error_text e)
           /\ response result = None /\ noDocuments result = None /\ sent result = None
       end.
Proof.
  intros env fromNumber toNumber messageText messageId w.
  unfold generateAutoResponse, try_catch.
  destruct (generateAutoResponse_body env fromNumber toNumber messageText messageId w)
    as [[r|e] w1].
  - exists r, w1. repeat split.
  - exists (failure (error_text e)), w1. unfold ret. repeat split.
Qed.

(** Thrown by the embedder, reported by the vector store and re-thrown by
    the retrieval layer, thrown by the language model, thrown by the
    sender: each comes back as a failed result. *)
Lemma thrown_errors_examples :
  fst (generateAutoResponse
         (with_embedText demo_env (fun _ _ => Throw (JsError "quota exceeded")))
         "cust" "biz" "hello" "wamid.7" (world_with_messages [inbound_turn 7]))
  = Ret (failure "quota exceeded")
  /\ fst (generateAutoResponse
            (with_match_documents demo_env
               (fun _ _ _ _ => mkQueryResult None (Some bad_gateway)))
            "cust" "biz" "hello" "wamid.7" (world_with_messages [inbound_turn 7]))
     = Ret (failure "Unknown error")
  /\ fst (generateAutoResponse
            (with_chat_completion demo_env (fun _ _ => Throw (JsError "model overloaded")))
            "cust" "biz" "hello" "wamid.7" (world_with_messages [inbound_turn 7]))
     = Ret (failure "model overloaded")
  /\ fst (generateAutoResponse
            (with_send demo_env (fun _ _ _ _ _ => Throw (JsError "socket hang up")))
            "cust" "biz" "hello" "wamid.7" (world_with_messages [inbound_turn 7]))
     = Ret (failure "socket hang up").
Proof. repeat split; vm_compute; reflexivity. Qed.

(** ** Steps 1 to 5 only read *)

Lemma only_reads_refl w : only_reads w w.
Proof. split; [reflexivity|]. exists []. now rewrite app_nil_r. Qed.

Lemma only_reads_trans w1 w2 w3 : only_reads w1 w2 -> only_reads w2 w3 -> only_reads w1 w3.
Proof.
  intros [Hm1 [e1 [Ht1 Hf1]]] [Hm2 [e2 [Ht2 Hf2]]]. split; [congruence|].
  exists (e1 ++ e2). split.
  - now rewrite Ht2, Ht1, app_assoc.
  - apply Forall_app. now split.
Qed.

Lemma only_reads_external {A : Type} ev (answer : nat -> Outcome A) :
  is_message_write ev = false -> always only_reads (external ev answer).
Proof.
  intros Hev w. split; [reflexivity|]. exists [ev]. split; [reflexivity|].
  now constructor.
Qed.

Lemma only_reads_sleep ms : always only_reads (sleep ms).
Proof.
  intros w. split; [reflexivity|]. exists [EvSleep ms]. split; [reflexivity|].
  now constructor.
Qed.

Lemma only_reads_get_messages : always only_reads get_messages.
Proof. intros w. apply only_reads_refl. Qed.

Ltac only_reads_walk :=
  repeat first
    [ apply (always_ret _ only_reads_refl)
    | apply (always_throw _ only_reads_refl)
    | apply (always_bind _ only_reads_trans); [| intros ?]
    | apply only_reads_external; reflexivity
    | apply only_reads_get_messages
    | apply only_reads_sleep
    | match goal with
      | |- always _ (match ?x with _ => _ end) => destruct x
      end ].

Lemma only_reads_retrieval env q fileIds limit :
  always only_reads (retrieveRelevantChunksFromFiles env q fileIds limit).
Proof.
  assert (Hone : forall f, always only_reads (retrieveRelevantChunks env q f limit)).
  { intros f. unfold retrieveRelevantChunks. only_reads_walk. }
  assert (Hall : forall ids acc, always only_reads (gather_chunks env q limit ids acc)).
  { induction ids as [|f fs IH]; intros acc; simpl.
    - only_reads_walk.
    - apply (always_bind _ only_reads_trans); [apply Hone|].
      intros [cs|]; [apply IH | only_reads_walk]. }
  unfold retrieveRelevantChunksFromFiles.
  destruct fileIds as [|f1 [|f2 fs]].
  - only_reads_walk.
  - apply Hone.
  - apply (always_bind _ only_reads_trans); [apply Hall|]. intros ?. only_reads_walk.
Qed.

Lemma only_reads_prepare_reply env fromNumber toNumber messageText :
  always only_reads (prepare_reply env fromNumber toNumber messageText).
Proof.
  unfold prepare_reply.
  apply (always_bind _ only_reads_trans); [only_reads_walk|]. intros dataSource.
  destruct (Js.truthy_opt dataSource); [|only_reads_walk].
  apply (always_bind _ only_reads_trans).
  { unfold fetch_phone_mappings, retrySupabaseQuery.
    apply (always_retry_from _ only_reads_refl only_reads_trans).
    - only_reads_walk.
    - apply only_reads_sleep. }
  intros mappings.
  destruct (error mappings); [only_reads_walk|].
  destruct (data mappings) as [[|first rest]|]; try solve [only_reads_walk].
  unfold answer_with_mapping.
  destruct (Js.truthy_opt (auth_token first) && Js.truthy_opt (origin first));
    [|only_reads_walk].
  apply (always_bind _ only_reads_trans); [only_reads_walk|]. intros [q|];
    [|only_reads_walk].
  apply (always_bind _ only_reads_trans).
  { unfold retrieve_context, retrieveRelevantShopifyChunks.
    destruct (is_shopify _).
    - only_reads_walk.
    - apply (always_bind _ only_reads_trans); [only_reads_walk|]. intros [|f fs];
        [only_reads_walk|].
      apply (always_bind _ only_reads_trans); [apply only_reads_retrieval|].
      intros ?. only_reads_walk. }
  intros [early|chunks]; [only_reads_walk|].
  unfold read_history. only_reads_walk.
Qed.

(** ** Delivery failure *)

(** C7. When steps 1 to 5 have produced a reply and the send call reports
    failure, [generateAutoResponse] returns [success = false] and
    [sent = false] together with the generated text, and issues exactly
    one write to [whatsapp_messages]: the update of the rows with the
    inbound message id to [auto_respond_sent = false] and a response
    timestamp.  No row is inserted and no update with
    [auto_respond_sent = true] is made. *)
Theorem send_failure_keeps_reply_and_marks_unsent :
  forall (env : Env) (fromNumber toNumber messageText messageId : string)
         (w w1 : World) (reply : Reply) (err : option string),
    prepare_reply env fromNumber toNumber messageText w = (Ret (inr reply), w1) ->
    sendWhatsAppMessage env (ticks w1) fromNumber (reply_text reply)
      (reply_auth_token reply) (reply_origin reply) = Ret (mkSendResult false err) ->
    let at_time := clock env (ticks w1 + 1) in
    let applied :=
      match message_store_error env (ticks w1 + 2) with
      | None => true
      | Some _ => false
      end in
    exists w',
      generateAutoResponse env fromNumber toNumber messageText messageId w
      = (Ret (mkResult false (Some (reply_text reply))
                (Some ("Generated response but failed to send: "
                       ++ undefined_or err)%string)
                None (Some false)),
         w')
      /\ whatsapp_messages w'
         = (if applied then map (mark_row messageId false at_time) (whatsapp_messages w)
            else whatsapp_messages w)
      /\ (applied = true ->
          forall m, In m (whatsapp_messages w') -> message_id m = messageId ->
                    auto_respond_sent m = Some false /\ response_sent_at m = Some at_time)
      /\ List.length (whatsapp_messages w') = List.length (whatsapp_messages w)
      /\ exists reads,
           trace w'
           = trace w ++ reads
             ++ [EvSend fromNumber (reply_text reply) (reply_auth_token reply)
                        (reply_origin reply);
                 EvClock;
                 EvMsgUpdate messageId false at_time]
           /\ Forall (fun e => is_message_write e = false) reads.
Proof.
  intros env fromNumber toNumber messageText messageId w w1 reply err Hprep Hsend
         at_time applied.
  destruct (only_reads_prepare_reply env fromNumber toNumber messageText w)
    as [Hmsgs [reads [Htrace Hreads]]].
  rewrite Hprep in Hmsgs, Htrace. cbn [snd] in Hmsgs, Htrace.
  unfold generateAutoResponse, try_catch, generateAutoResponse_body, bind at 1.
  rewrite Hprep. unfold deliver_reply, bind at 1.
  rewrite external_advance, Hsend. cbn [send_success negb send_error].
  unfold bind at 1, update_message, bind at 1, now.
  rewrite external_advance. cbn [advance ticks]. unfold bind at 1.
  rewrite external_advance. cbn [advance ticks shopify_chunks whatsapp_messages console trace].
  replace (ticks w1 + 1 + 1) with (ticks w1 + 2) by lia.
  fold at_time. subst applied.
  destruct (message_store_error env (ticks w1 + 2)) as [pg|].
  - unfold ret. eexists. split; [reflexivity|].
    cbn [advance whatsapp_messages trace].
    split; [exact Hmsgs|]. split; [discriminate|]. split; [now rewrite Hmsgs|].
    exists reads. split; [|exact Hreads].
    rewrite Htrace. now rewrite <- !app_assoc.
  - unfold set_messages, ret. eexists. split; [reflexivity|].
    cbn [advance whatsapp_messages trace]. rewrite Hmsgs.
    split; [reflexivity|]. split; [|split].
    + intros _ m Hin Hid. apply in_map_iff in Hin. destruct Hin as [m0 [<- _]].
      unfold mark_row in *. destruct (String.eqb (message_id m0) messageId) eqn:He.
      * now split.
      * apply String.eqb_neq in He. contradiction.
    + apply length_map.
    + exists reads. split; [|exact Hreads].
      rewrite Htrace. now rewrite <- !app_assoc.
Qed.

(** ** Conversation history *)

Lemma history_window_sorted fromNumber table :
  StronglySorted earlier_or_same (history_window fromNumber table).
Proof.
  unfold history_window. apply firstn_sorted.
  apply stable_sort_sorted; unfold not_later, earlier_or_same.
  - intros a b H. now apply N.leb_le.
  - intros a b H. apply N.leb_gt in H. lia.
  - intros a b c. lia.
Qed.

(** The prompt holds at most ten history turns; they are the last ten
    qualifying rows of the fetched window, in order of receipt. *)
Lemma prompt_history_bounded_and_ordered fromNumber table :
  List.length (prompt_history fromNumber table) <= 10
  /\ exists rows,
       prompt_history fromNumber table = map to_turn rows
       /\ rows = Js.slice_last 10 (filter qualifies (history_window fromNumber table))
       /\ StronglySorted earlier_or_same rows.
Proof.
  unfold prompt_history, build_history, Js.slice_last. split.
  - rewrite length_skipn. lia.
  - eexists. split; [|split; [reflexivity|]].
    + rewrite length_map. apply skipn_map.
    + apply skipn_sorted, filter_sorted, history_window_sorted.
Qed.

(** C2, on a conversation of 21 inbound turns received at times 1 to 21.
    The window read from the store is ordered ascending and cut at 20
    rows, so it holds the 20 oldest turns; the ten history turns in the
    prompt are turns 11 to 20, whereas the ten most recent qualifying
    turns are turns 12 to 21: turn 21, the most recent one, is in the
    table, qualifies, involves the customer, and is not in the window. *)
Theorem history_window_misses_most_recent_turn :
  let run := generateAutoResponse demo_env "cust" "biz" "turn 22" "wamid.22"
               (world_with_messages (conversation 21)) in
  map (fun messages => map content (history_part messages)) (prompts_of (trace (snd run)))
  = [["turn 11"; "turn 12"; "turn 13"; "turn 14"; "turn 15";
      "turn 16"; "turn 17"; "turn 18"; "turn 19"; "turn 20"]%string]
  /\ map content (most_recent_qualifying "cust" (conversation 21))
     = ["turn 12"; "turn 13"; "turn 14"; "turn 15"; "turn 16";
        "turn 17"; "turn 18"; "turn 19"; "turn 20"; "turn 21"]%string
  /\ In (inbound_turn 21) (conversation 21)
  /\ qualifies (inbound_turn 21) = true
  /\ involves "cust" (inbound_turn 21) = true
  /\ ~ In (inbound_turn 21) (history_window "cust" (conversation 21)).
Proof.
  split; [vm_compute; reflexivity|].
  split; [vm_compute; reflexivity|].
  split; [vm_compute; tauto|].
  split; [reflexivity|]. split; [reflexivity|].
  vm_compute. intros H.
  repeat (destruct H as [H|H]; [discriminate H|]). exact H.
Qed.

(** ** Redelivery of an inbound message *)

Lemma show_N_injective n1 n2 : Js.show_N n1 = Js.show_N n2 -> n1 = n2.
Proof.
  unfold Js.show_N. intros H.
  assert (Hd : Some (N.to_uint n1) = Some (N.to_uint n2)).
  { rewrite <- (NilEmpty.usu (N.to_uint n1)), <- (NilEmpty.usu (N.to_uint n2)).
    now rewrite H. }
  injection Hd as Hd.
  rewrite <- (DecimalN.Unsigned.of_to n1), <- (DecimalN.Unsigned.of_to n2).
  now rewrite Hd.
Qed.

Lemma append_cancel_l (p s1 s2 : string) : (p ++ s1 = p ++ s2)%string -> s1 = s2.
Proof.
  induction p as [|c p IH]; simpl; intros H; [exact H|].
  injection H as H. now apply IH.
Qed.

Lemma responseMessageId_same_iff messageId t1 t2 :
  responseMessageId messageId t1 = responseMessageId messageId t2 <-> t1 = t2.
Proof.
  split; [|now intros ->].
  unfold responseMessageId. intros H.
  apply append_cancel_l, append_cancel_l, append_cancel_l in H.
  now apply show_N_injective.
Qed.

Lemma mark_row_again messageId flag t1 t2 m :
  mark_row messageId flag t2 (mark_row messageId flag t1 m) = mark_row messageId flag t2 m.
Proof.
  unfold mark_row. destruct (String.eqb (message_id m) messageId) eqn:He.
  - cbn [message_id]. rewrite He. reflexivity.
  - now rewrite He.
Qed.

Lemma now_run env w : now env w = (Ret (clock env (ticks w)), advance w 1 [EvClock]).
Proof. unfold now. now rewrite external_advance. Qed.

Lemma update_message_run env messageId flag w :
  update_message env messageId flag w
  = (Ret tt,
     mkWorld (ticks w + 2) (shopify_chunks w)
       (written (message_store_error env (ticks w + 1))
          (map (mark_row messageId flag (clock env (ticks w)))) (whatsapp_messages w))
       (console w)
       (trace w ++ [EvClock; EvMsgUpdate messageId flag (clock env (ticks w))])).
Proof.
  unfold update_message, bind. rewrite now_run, external_advance.
  cbn [advance ticks shopify_chunks whatsapp_messages console trace].
  unfold written, ret, set_messages.
  destruct (message_store_error env (ticks w + 1));
    unfold advance; cbn [ticks shopify_chunks whatsapp_messages console trace];
    rewrite <- !Nat.add_assoc, <- !app_assoc; reflexivity.
Qed.

Lemma insert_message_run env row w :
  insert_message env row w
  = (Ret tt,
     mkWorld (ticks w + 1) (shopify_chunks w)
       (written (message_store_error env (ticks w)) (fun table => table ++ [row])
          (whatsapp_messages w))
       (console w) (trace w ++ [EvMsgInsert row])).
Proof.
  unfold insert_message, bind. rewrite external_advance.
  unfold written, ret, set_messages, advance.
  destruct (message_store_error env (ticks w)); reflexivity.
Qed.

(** C9, refuted as stated: on the example environment two handlings of
    the inbound message ["wamid.7"] leave two outbound turns, whose ids
    differ, and the id is not a function of the inbound id alone. *)
Lemma redelivery_appends_second_outbound_turn :
  ~ redelivery_is_idempotent demo_env "cust" "biz" "how much is the mug?" "wamid.7"
      (world_with_messages [inbound_turn 7])
  /\ (let w1 := snd (generateAutoResponse demo_env "cust" "biz" "how much is the mug?"
                       "wamid.7" (world_with_messages [inbound_turn 7])) in
      let w2 := snd (generateAutoResponse demo_env "cust" "biz" "how much is the mug?"
                       "wamid.7" w1) in
      map message_id (outbound_turns w2)
      = ["auto_wamid.7_1700000000009"; "auto_wamid.7_1700000000023"]%string)
  /\ ~ (forall t1 t2, responseMessageId "wamid.7" t1 = responseMessageId "wamid.7" t2).
Proof.
  split; [|split].
  - unfold redelivery_is_idempotent. vm_compute. discriminate.
  - vm_compute. reflexivity.
  - intros H. specialize (H 1%N 2%N). vm_compute in H. discriminate.
Qed.

(** C9, as the code has it.  After a successful send, steps 6.5 and 7
    insert one outbound turn whose id is [auto_<inbound id>_<Date.now()>]
    and mark the rows with the inbound id as responded.  The id is the
    same for two handlings of one inbound id exactly when their clock
    readings are the same; marking twice leaves what the later mark
    alone would leave. *)
Theorem outbound_id_depends_on_clock_reading :
  forall (env : Env) (fromNumber toNumber messageId : string) (reply : Reply)
         (w : World) (err : option string),
    sendWhatsAppMessage env (ticks w) fromNumber (reply_text reply)
      (reply_auth_token reply) (reply_origin reply) = Ret (mkSendResult true err) ->
    let date_now := clock env (ticks w + 1) in
    let row := outbound_row (responseMessageId messageId date_now) fromNumber toNumber
                 (reply_text reply) (clock env (ticks w + 2)) in
    (exists w',
        deliver_reply env fromNumber toNumber messageId reply w
        = (Ret (mkResult true (Some (reply_text reply)) None None (Some true)), w')
        /\ whatsapp_messages w'
           = written (message_store_error env (ticks w + 5))
               (map (mark_row messageId true (clock env (ticks w + 4))))
               (written (message_store_error env (ticks w + 3))
                  (fun table => table ++ [row]) (whatsapp_messages w)))
    /\ message_id row = ("auto_" ++ messageId ++ "_" ++ Js.show_N date_now)%string
    /\ (forall t1 t2,
           responseMessageId messageId t1 = responseMessageId messageId t2 <-> t1 = t2)
    /\ (forall t1 t2 m,
           mark_row messageId true t2 (mark_row messageId true t1 m)
           = mark_row messageId true t2 m).
Proof.
  intros env fromNumber toNumber messageId reply w err Hsend date_now row.
  split; [|split; [reflexivity | split]].
  - unfold deliver_reply, bind.
    rewrite external_advance, Hsend. cbn [send_success negb].
    rewrite !now_run, insert_message_run, update_message_run.
    unfold advance, ret. cbn [ticks shopify_chunks whatsapp_messages console trace].
    rewrite <- !Nat.add_assoc. cbn [Nat.add].
    eexists. split; reflexivity.
  - apply responseMessageId_same_iff.
  - intros t1 t2 m. apply mark_row_again.
Qed.

(** ** Only the first mapping row is used *)

Lemma retry_from_same_first_row ev (q1 q2 : nat -> QueryResult (list MappingRow))
    maxRetries :
  (forall t, same_first_row (q1 t) (q2 t)) ->
  forall remaining attempt w,
  exists r1 r2 w',
    retry_from (external ev (fun t => Ret (q1 t))) maxRetries attempt remaining w
    = (Ret r1, w')
    /\ retry_from (external ev (fun t => Ret (q2 t))) maxRetries attempt remaining w
       = (Ret r2, w')
    /\ same_first_row r1 r2.
Proof.
  intros Hsame. induction remaining as [|remaining IH]; intros attempt w.
  - exists (q1 (ticks w)), (q2 (ticks w)), (advance w 1 [ev]).
    cbn [retry_from]. rewrite !external_advance. repeat split; apply Hsame.
  - cbn [retry_from]. unfold bind at 1 3. rewrite !external_advance.
    destruct (Hsame (ticks w)) as [Herr Hfirst].
    unfold has_error. rewrite <- Herr.
    destruct (error (q1 (ticks w))) eqn:He; cbn [negb].
    + unfold bind.
      destruct (Nat.ltb attempt maxRetries).
      * unfold sleep. rewrite emit_advance. apply IH.
      * unfold ret. apply IH.
    + unfold ret. exists (q1 (ticks w)), (q2 (ticks w)), (advance w 1 [ev]).
      repeat split; [congruence | exact Hfirst].
Qed.

Lemma bind_ext {A B : Type} (m1 m2 : M A) (k1 k2 : A -> M B) w :
  m1 w = m2 w -> (forall a w', k1 a w' = k2 a w') -> bind m1 k1 w = bind m2 k2 w.
Proof.
  intros Hm Hk. unfold bind. rewrite Hm.
  destruct (m2 w) as [[a|e] w']; [apply Hk | reflexivity].
Qed.

Lemma gather_chunks_with_phone_mappings env q2 q limit :
  forall fileIds acc w,
    gather_chunks (with_phone_mappings env q2) q limit fileIds acc w
    = gather_chunks env q limit fileIds acc w.
Proof.
  induction fileIds as [|f fs IH]; intros acc w; [reflexivity|].
  cbn [gather_chunks]. apply bind_ext; [reflexivity|].
  intros [cs|] w'; [apply IH | reflexivity].
Qed.

Lemma retrieve_context_with_phone_mappings env q2 dataSource toNumber q w :
  retrieve_context (with_phone_mappings env q2) dataSource toNumber q w
  = retrieve_context env dataSource toNumber q w.
Proof.
  unfold retrieve_context. destruct (is_shopify dataSource); [reflexivity|].
  apply bind_ext; [reflexivity|].
  intros [|f1 [|f2 fs]] w1; try reflexivity.
  apply bind_ext; [|reflexivity].
  unfold retrieveRelevantChunksFromFiles.
  apply bind_ext; [apply gather_chunks_with_phone_mappings | reflexivity].
Qed.

Lemma answer_with_mapping_with_phone_mappings env q2 ds fromNumber toNumber text first w :
  answer_with_mapping (with_phone_mappings env q2) ds fromNumber toNumber text first w
  = answer_with_mapping env ds fromNumber toNumber text first w.
Proof.
  unfold answer_with_mapping.
  destruct (Js.truthy_opt (auth_token first) && Js.truthy_opt (origin first));
    [|reflexivity].
  apply bind_ext; [reflexivity|].
  intros [q|] w1; [|reflexivity].
  apply bind_ext; [apply retrieve_context_with_phone_mappings | reflexivity].
Qed.

(** The result of [generateAutoResponse], and the world it leaves,
    depend on the mapping lookup only through the reported error and the
    first row returned: replacing every later row by anything else
    changes nothing. *)
Lemma later_mapping_rows_have_no_effect :
  forall (env : Env) (q2 : nat -> string -> QueryResult (list MappingRow))
         (fromNumber toNumber messageText messageId : string) (w : World),
    (forall t phone, same_first_row (phone_mapping_query env t phone) (q2 t phone)) ->
    generateAutoResponse (with_phone_mappings env q2) fromNumber toNumber messageText
      messageId w
    = generateAutoResponse env fromNumber toNumber messageText messageId w.
Proof.
  intros env q2 fromNumber toNumber messageText messageId w Hsame.
  unfold generateAutoResponse, try_catch.
  assert (Hbody :
    generateAutoResponse_body (with_phone_mappings env q2) fromNumber toNumber
      messageText messageId w
    = generateAutoResponse_body env fromNumber toNumber messageText messageId w);
    [|now rewrite Hbody].
  unfold generateAutoResponse_body, bind.
  assert (Hprep :
    prepare_reply (with_phone_mappings env q2) fromNumber toNumber messageText w
    = prepare_reply env fromNumber toNumber messageText w);
    [|rewrite Hprep; reflexivity].
  unfold prepare_reply, bind.
  change (getDataSourceForPhone (with_phone_mappings env q2))
    with (getDataSourceForPhone env).
  destruct (external (EvGetDataSource toNumber)
              (fun t => getDataSourceForPhone env t toNumber) w)
    as [[dataSource|e] w0]; [|reflexivity].
  destruct (Js.truthy_opt dataSource); [|reflexivity].
  unfold fetch_phone_mappings, retrySupabaseQuery.
  change (phone_mapping_query (with_phone_mappings env q2)) with q2.
  destruct (retry_from_same_first_row (EvQuery "phone_document_mapping" toNumber)
              (fun t => phone_mapping_query env t toNumber) (fun t => q2 t toNumber)
              3 (fun t => Hsame t toNumber) 3 1 w0)
    as [r1 [r2 [w1 [H1 [H2 [Herr Hfirst]]]]]].
  rewrite H1, H2, <- Herr.
  destruct (error r1); [reflexivity|].
  unfold first_row in Hfirst.
  destruct (data r1) as [[|a1 l1]|], (data r2) as [[|a2 l2]|];
    try discriminate; try reflexivity.
  injection Hfirst as <-.
  now rewrite answer_with_mapping_with_phone_mappings.
Qed.

(** ** Ingestion: one chunk write *)

Section IngestionFacts.

Variable parseFloat : string -> option Q.
Variable toFixed2 : Q -> string.
Variable env : Env.
Variable storeId : string.

Lemma storeChunk_run chunkData w :
  storeChunk env storeId chunkData w
  = match embedText env (ticks w) (cd_text chunkData) with
    | Throw e => (Throw e, advance w 1 [EvEmbed (cd_text chunkData)])
    | Ret None =>
        (Throw (JsError ("Failed to generate embedding for chunk: "
                         ++ cd_title chunkData)%string),
         advance w 1 [EvEmbed (cd_text chunkData)])
    | Ret (Some emb) =>
        match chunk_store_error env (ticks w + 1) with
        | None => (Ret tt, after_insert storeId w chunkData emb true [])
        | Some pg =>
            if String.eqb (pg_code pg) "23505" then
              (Ret tt, after_insert storeId w chunkData emb false [duplicate_line chunkData])
            else
              (Throw (JsError ("Failed to store chunk: " ++ pg_message pg)%string),
               after_insert storeId w chunkData emb false [])
        end
    end.
Proof.
  unfold storeChunk, bind at 1. rewrite external_advance.
  destruct (embedText env (ticks w) (cd_text chunkData)) as [[emb|]|e];
    try reflexivity.
  unfold bind. rewrite external_advance. cbn [advance ticks].
  unfold after_insert, advance, set_chunks, console_log, throw.
  cbn [ticks shopify_chunks whatsapp_messages console trace].
  destruct (chunk_store_error env (ticks w + 1)) as [pg|].
  - destruct (String.eqb (pg_code pg) "23505");
      rewrite <- !Nat.add_assoc, <- !app_assoc; cbn [Nat.add app];
      rewrite ?app_nil_r; reflexivity.
  - rewrite <- !Nat.add_assoc, <- !app_assoc, app_nil_r. reflexivity.
Qed.

(** C5. When the insert of a chunk is refused with the unique-violation
    code 23505, [storeChunk] returns normally after printing a
    "Skipping duplicate chunk" line, nothing is stored, and the loop
    over the record's chunks goes on with the chunks that remain.  When
    it is refused with any other code, [storeChunk] throws
    "Failed to store chunk: " followed by the store's message, and the
    loop stops without touching the remaining chunks. *)
Theorem storeChunk_skips_duplicates_and_aborts_on_other_errors :
  forall (chunkData : ShopifyChunkData) (rest : list ShopifyChunkData)
         (w : World) (emb : Vector) (pg : PgError),
    embedText env (ticks w) (cd_text chunkData) = Ret (Some emb) ->
    chunk_store_error env (ticks w + 1) = Some pg ->
    (pg_code pg = "23505"%string ->
     let w' := after_insert storeId w chunkData emb false [duplicate_line chunkData] in
     storeChunk env storeId chunkData w = (Ret tt, w')
     /\ for_each (storeChunk env storeId) (chunkData :: rest) w
        = for_each (storeChunk env storeId) rest w')
    /\ (pg_code pg <> "23505"%string ->
        let failed :=
          (Throw (JsError ("Failed to store chunk: " ++ pg_message pg)%string),
           after_insert storeId w chunkData emb false []) in
        storeChunk env storeId chunkData w = failed
        /\ for_each (storeChunk env storeId) (chunkData :: rest) w = failed).
Proof.
  intros chunkData rest w emb pg Hemb Herr. split; intros Hcode.
  - assert (Hrun : storeChunk env storeId chunkData w
                   = (Ret tt, after_insert storeId w chunkData emb false
                                [duplicate_line chunkData])).
    { rewrite storeChunk_run, Hemb, Herr, Hcode. reflexivity. }
    split; [exact Hrun|].
    cbn [for_each]. unfold bind. now rewrite Hrun.
  - apply String.eqb_neq in Hcode.
    assert (Hrun : storeChunk env storeId chunkData w
                   = (Throw (JsError ("Failed to store chunk: " ++ pg_message pg)%string),
                      after_insert storeId w chunkData emb false [])).
    { rewrite storeChunk_run, Hemb, Herr, Hcode. reflexivity. }
    split; [exact Hrun|].
    cbn [for_each]. unfold bind. now rewrite Hrun.
Qed.

End IngestionFacts.

(** ** Ingestion: what is stored *)

Lemma take_length n : forall s, String.length (take n s) <= n.
Proof.
  induction n as [|n IH]; intros [|c r]; simpl; try lia.
  specialize (IH r). lia.
Qed.

Lemma chunk_segments_bounded size :
  forall fuel text, Forall (fun c => String.length c <= size) (chunk_segments fuel text size).
Proof.
  induction fuel as [|fuel IH]; intros text; simpl; [constructor|].
  destruct text as [|c r]; [constructor|].
  constructor; [apply take_length | apply IH].
Qed.

Lemma blank_trim_start s : blank s = true -> Js.trim_start s = EmptyString.
Proof.
  induction s as [|c r IH]; simpl; [reflexivity|].
  intros H. apply andb_true_iff in H. destruct H as [Hc Hr].
  rewrite Hc. now apply IH.
Qed.

Lemma blank_trim s : blank s = true -> Js.trim s = EmptyString.
Proof.
  intros H. unfold Js.trim. now rewrite blank_trim_start.
Qed.

Lemma kept_chunks_ok text c : In c (kept_chunks text) -> stored_text_ok c.
Proof.
  unfold kept_chunks, chunkText. intros H. apply filter_In in H.
  destruct H as [Hin Hkeep]. split.
  - pose proof (chunk_segments_bounded 1500 (String.length text) text) as Hall.
    rewrite Forall_forall in Hall. now apply Hall.
  - destruct (blank c) eqn:Hb; [|reflexivity].
    rewrite (blank_trim c Hb) in Hkeep. discriminate.
Qed.

Lemma writes_ok_refl w : writes_ok w w.
Proof.
  split; [exists []; now rewrite app_nil_r | intros row H; now left].
Qed.

Lemma writes_ok_trans w1 w2 w3 : writes_ok w1 w2 -> writes_ok w2 w3 -> writes_ok w1 w3.
Proof.
  intros [[e1 [Ht1 Hf1]] Hr1] [[e2 [Ht2 Hf2]] Hr2]. split.
  - exists (e1 ++ e2). split; [now rewrite Ht2, Ht1, app_assoc | now apply Forall_app].
  - intros row H. destruct (Hr2 row H) as [H2|H2]; [now apply Hr1 | now right].
Qed.

Lemma writes_ok_external {A : Type} ev (answer : nat -> Outcome A) :
  insert_ok ev -> always writes_ok (external ev answer).
Proof.
  intros Hev w. split.
  - exists [ev]. split; [reflexivity | now constructor].
  - intros row H. now left.
Qed.

Lemma writes_ok_console_log line : always writes_ok (console_log line).
Proof.
  intros w. split.
  - exists []. cbn [console_log snd trace]. now rewrite app_nil_r.
  - intros row H. now left.
Qed.

Lemma writes_ok_storeChunk env storeId chunkData :
  stored_text_ok (cd_text chunkData) -> always writes_ok (storeChunk env storeId chunkData).
Proof.
  intros Hok w. rewrite storeChunk_run.
  assert (Hquiet : writes_ok w (advance w 1 [EvEmbed (cd_text chunkData)])).
  { split; [exists [EvEmbed (cd_text chunkData)]; split;
             [reflexivity | constructor; [exact I | constructor]]
           | intros row H; now left]. }
  assert (Hins : forall emb stored logged,
             writes_ok w (after_insert storeId w chunkData emb stored logged)).
  { intros emb stored logged. split.
    - exists [EvEmbed (cd_text chunkData);
              EvChunksInsert (row_of storeId chunkData emb)].
      split; [reflexivity|].
      constructor; [exact I | constructor; [exact Hok | constructor]].
    - cbn [after_insert shopify_chunks]. intros row H.
      destruct stored; [|now left].
      apply in_app_or in H. destruct H as [H|[<-|[]]]; [now left | now right]. }
  destruct (embedText env (ticks w) (cd_text chunkData)) as [[emb|]|e];
    cbn [snd]; try exact Hquiet.
  destruct (chunk_store_error env (ticks w + 1)) as [pg|]; [|apply Hins].
  destruct (String.eqb (pg_code pg) "23505"); apply Hins.
Qed.

Ltac writes_ok_walk :=
  repeat first
    [ apply (always_ret _ writes_ok_refl)
    | apply (always_throw _ writes_ok_refl)
    | apply (always_bind _ writes_ok_trans); [| intros ?]
    | apply writes_ok_external; exact I
    | apply writes_ok_console_log
    | match goal with
      | |- always _ (match ?x with _ => _ end) => destruct x
      end ].

Lemma writes_ok_store_all env storeId (make : string -> ShopifyChunkData) text :
  (forall c, cd_text (make c) = c) ->
  always writes_ok (for_each (storeChunk env storeId) (map make (kept_chunks text))).
Proof.
  intros Hmake. apply (always_for_each _ writes_ok_refl writes_ok_trans).
  intros chunkData Hin. apply in_map_iff in Hin. destruct Hin as [c [<- Hc]].
  apply writes_ok_storeChunk. rewrite Hmake. now apply kept_chunks_ok in Hc.
Qed.

Lemma writes_ok_clearExistingChunks env storeId :
  always writes_ok (clearExistingChunks env storeId).
Proof.
  unfold clearExistingChunks.
  apply (always_bind _ writes_ok_trans); [writes_ok_walk|]. intros [pg|];
    [writes_ok_walk|].
  apply (always_bind _ writes_ok_trans); [|intros ?; writes_ok_walk].
  intros w. split; [exists []; now rewrite app_nil_r|].
  cbn [set_chunks snd shopify_chunks]. intros row H.
  apply filter_In in H. now left.
Qed.

(** C6. Whatever the record and however long its formatted text, every
    insert that [processProduct], [processPage], [processCollection] and
    the whole of [processAllData] attempt carries a chunk text of at most
    1500 characters that is neither empty nor white space only, and so
    does every row they add to [shopify_chunks]. *)
Theorem stored_chunks_are_bounded_and_not_blank :
  forall (parseFloat : string -> option Q) (toFixed2 : Q -> string)
         (env : Env) (storeId : string),
    (forall product,
        always writes_ok (processProduct parseFloat toFixed2 env storeId product))
    /\ (forall page, always writes_ok (processPage env storeId page))
    /\ (forall collection, always writes_ok (processCollection env storeId collection))
    /\ (forall fuel,
           always writes_ok (processAllData parseFloat toFixed2 env storeId fuel)).
Proof.
  intros parseFloat toFixed2 env storeId.
  assert (Hproduct : forall product,
             always writes_ok (processProduct parseFloat toFixed2 env storeId product)).
  { intros product. unfold processProduct, product_chunks.
    now apply writes_ok_store_all. }
  assert (Hpage : forall page, always writes_ok (processPage env storeId page)).
  { intros page. unfold processPage, page_chunks. now apply writes_ok_store_all. }
  assert (Hcollection : forall collection,
             always writes_ok (processCollection env storeId collection)).
  { intros collection. unfold processCollection, collection_chunks.
    now apply writes_ok_store_all. }
  split; [exact Hproduct | split; [exact Hpage | split; [exact Hcollection |]]].
  intros fuel. unfold processAllData.
  apply (always_bind _ writes_ok_trans); [writes_ok_walk|]. intros _.
  apply (always_bind _ writes_ok_trans); [apply writes_ok_clearExistingChunks|].
  intros _.
  apply (always_bind _ writes_ok_trans).
  { unfold processProducts.
    apply (always_bind _ writes_ok_trans); [writes_ok_walk|]. intros _.
    apply (always_bind _ writes_ok_trans); [|intros ?; writes_ok_walk].
    apply (always_paginate _ writes_ok_refl writes_ok_trans); [|exact Hproduct].
    intros cursor. writes_ok_walk. }
  intros [_|]; [|writes_ok_walk].
  apply (always_bind _ writes_ok_trans).
  { unfold processPages.
    apply (always_bind _ writes_ok_trans); [writes_ok_walk|]. intros _.
    apply (always_bind _ writes_ok_trans); [|intros ?; writes_ok_walk].
    apply (always_paginate _ writes_ok_refl writes_ok_trans); [|exact Hpage].
    intros cursor. writes_ok_walk. }
  intros [_|]; [|writes_ok_walk].
  apply (always_bind _ writes_ok_trans).
  { unfold processCollections.
    apply (always_bind _ writes_ok_trans); [writes_ok_walk|]. intros _.
    apply (always_bind _ writes_ok_trans); [|intros ?; writes_ok_walk].
    apply (always_paginate _ writes_ok_refl writes_ok_trans); [|exact Hcollection].
    intros cursor. writes_ok_walk. }
  intros [_|]; writes_ok_walk.
Qed.

(** ** Ingestion: full replacement *)

Lemma appends_refl P w : appends P w w.
Proof.
  split; [lia|]. split; [exists []; now rewrite app_nil_r|].
  exists []. split; [now rewrite app_nil_r | constructor].
Qed.

Lemma appends_trans P w1 w2 w3 :
  widens P -> appends P w1 w2 -> appends P w2 w3 -> appends P w1 w3.
Proof.
  intros HP [Ht1 [[e1 He1] [r1 [Hc1 Hf1]]]] [Ht2 [[e2 He2] [r2 [Hc2 Hf2]]]].
  split; [lia|]. split; [exists (e1 ++ e2); now rewrite He2, He1, app_assoc|].
  exists (r1 ++ r2). split; [now rewrite Hc2, Hc1, app_assoc|].
  apply Forall_app. split.
  - eapply Forall_impl; [|exact Hf1]. intros row. apply HP; lia.
  - eapply Forall_impl; [|exact Hf2]. intros row. apply HP; lia.
Qed.

Lemma appends_weaken (P P' : nat -> nat -> ChunkRow -> Prop) w w' :
  (forall row, P (ticks w) (ticks w') row -> P' (ticks w) (ticks w') row) ->
  appends P w w' -> appends P' w w'.
Proof.
  intros HPP [Ht [He [rows [Hc Hf]]]]. split; [exact Ht|]. split; [exact He|].
  exists rows. split; [exact Hc|]. eapply Forall_impl; [|exact Hf]. exact HPP.
Qed.

Lemma appends_advance P w n evs : appends P w (advance w n evs).
Proof.
  split; [cbn [advance ticks]; lia|]. split; [exists evs; reflexivity|].
  exists []. split; [cbn [advance shopify_chunks]; now rewrite app_nil_r | constructor].
Qed.

Lemma appends_external {A : Type} P ev (answer : nat -> Outcome A) :
  always (appends P) (external ev answer).
Proof. intros w. rewrite external_advance. apply appends_advance. Qed.

Lemma appends_console_log P line : always (appends P) (console_log line).
Proof.
  intros w. cbn [console_log snd]. split; [cbn [ticks]; lia|].
  split; [exists []; cbn [trace]; now rewrite app_nil_r|].
  exists []. split; [cbn [shopify_chunks]; now rewrite app_nil_r | constructor].
Qed.

Lemma widens_row_for storeId P : widens (row_for storeId P).
Proof. intros lo hi lo' hi' row _ _ H. exact H. Qed.

Lemma appends_storeChunk env storeId (P : ShopifyChunkData -> Prop) chunkData :
  P chunkData -> always (appends (row_for storeId P)) (storeChunk env storeId chunkData).
Proof.
  intros HP w. rewrite storeChunk_run.
  assert (Hquiet : appends (row_for storeId P) w
                     (advance w 1 [EvEmbed (cd_text chunkData)])).
  { apply appends_advance. }
  assert (Hins : forall emb stored logged,
             appends (row_for storeId P) w
               (after_insert storeId w chunkData emb stored logged)).
  { intros emb stored logged. split; [cbn [after_insert ticks]; lia|].
    split; [eexists; reflexivity|].
    cbn [after_insert shopify_chunks]. destruct stored.
    - exists [row_of storeId chunkData emb]. split; [reflexivity|].
      constructor; [|constructor]. now exists chunkData, emb.
    - exists []. split; [now rewrite app_nil_r | constructor]. }
  destruct (embedText env (ticks w) (cd_text chunkData)) as [[emb|]|e];
    cbn [snd]; try exact Hquiet.
  destruct (chunk_store_error env (ticks w + 1)) as [pg|]; [|apply Hins].
  destruct (String.eqb (pg_code pg) "23505"); apply Hins.
Qed.

Section Listing.

Variable A : Type.
Variable env : Env.
Variable storeId : string.
Variable answer : nat -> option string -> Outcome (Listing A).
Variable call : option string -> Event.
Variable chunks_of : A -> list ShopifyChunkData.
Variable process : A -> M unit.
Hypothesis process_stores :
  forall x, process x = for_each (storeChunk env storeId) (chunks_of x).

Lemma appends_process_all xs :
  always (appends (row_for storeId (cut_from chunks_of xs))) (for_each process xs).
Proof.
  apply always_for_each.
  - apply appends_refl.
  - intros w1 w2 w3. apply appends_trans, widens_row_for.
  - intros x Hx. rewrite process_stores. apply always_for_each.
    + apply appends_refl.
    + intros w1 w2 w3. apply appends_trans, widens_row_for.
    + intros chunkData Hcd. apply appends_storeChunk. now exists x.
Qed.

Lemma widens_listed : widens (listed storeId answer chunks_of).
Proof.
  intros lo hi lo' hi' row Hlo Hhi [cd [emb [Hrow [t [cur [page [x [Ht H]]]]]]]].
  exists cd, emb. split; [exact Hrow|]. exists t, cur, page, x. split; [lia | exact H].
Qed.

Lemma appends_fetched_page w cursor page w2 :
  answer (ticks w) cursor = Ret page ->
  appends (row_for storeId (cut_from chunks_of (items page))) (advance w 1 [call cursor]) w2 ->
  appends (listed storeId answer chunks_of) w w2.
Proof.
  intros Hpage [Ht [[evs He] [rows [Hc Hf]]]]. cbn [advance ticks trace shopify_chunks] in *.
  split; [lia|]. split; [exists ([call cursor] ++ evs); now rewrite He, app_assoc|].
  exists rows. split; [exact Hc|].
  eapply Forall_impl; [|exact Hf].
  intros row [cd [emb [[x [Hx Hcd]] Hrow]]].
  exists cd, emb. split; [exact Hrow|].
  exists (ticks w), cursor, page, x.
  split; [lia|]. split; [exact Hpage | split; assumption].
Qed.

Lemma appends_paginate :
  forall fuel cursor total,
    always (appends (listed storeId answer chunks_of))
      (paginate (fun c => external (call c) (fun t => answer t c)) process fuel
         cursor total).
Proof.
  induction fuel as [|fuel IH]; intros cursor total w.
  - apply appends_refl.
  - cbn [paginate]. unfold bind at 1. rewrite external_advance.
    destruct (answer (ticks w) cursor) as [page|e] eqn:Hpage;
      [|apply appends_advance].
    unfold bind at 1.
    pose proof (appends_process_all (items page) (advance w 1 [call cursor])) as Hitems.
    destruct (for_each process (items page) (advance w 1 [call cursor]))
      as [[[]|e] w2]; cbn [snd] in Hitems;
      apply (appends_fetched_page w cursor page w2 Hpage) in Hitems;
      [|exact Hitems].
    destruct (hasNextPage page); [|exact Hitems].
    eapply appends_trans; [apply widens_listed | exact Hitems | apply IH].
Qed.

End Listing.

Section FullReplace.

Variable parseFloat : string -> option Q.
Variable toFixed2 : Q -> string.
Variable env : Env.
Variable storeId : string.

Local Abbreviation fresh := (from_current_source parseFloat toFixed2 env storeId).

Lemma widens_fresh : widens fresh.
Proof.
  intros lo hi lo' hi' row Hlo Hhi [cd [emb [Hrow Hsrc]]].
  exists cd, emb. split; [exact Hrow|].
  assert (Hw : forall A answer (chunks_of : A -> list ShopifyChunkData),
             sourced answer chunks_of lo hi cd -> sourced answer chunks_of lo' hi' cd).
  { intros A answer chunks_of [t [cur [page [x [Ht H]]]]].
    exists t, cur, page, x. split; [lia | exact H]. }
  destruct Hsrc as [H|[H|H]]; [left | right; left | right; right]; now apply Hw.
Qed.

Lemma appends_fresh_trans w1 w2 w3 :
  appends fresh w1 w2 -> appends fresh w2 w3 -> appends fresh w1 w3.
Proof. apply appends_trans, widens_fresh. Qed.

Ltac fresh_walk :=
  repeat first
    [ apply (always_ret _ (appends_refl fresh))
    | apply (always_bind _ appends_fresh_trans); [| intros ?]
    | apply appends_console_log
    | match goal with
      | |- always _ (match ?x with _ => _ end) => destruct x
      end ].

Lemma appends_processProducts fuel :
  always (appends fresh) (processProducts parseFloat toFixed2 env storeId fuel).
Proof.
  unfold processProducts.
  apply (always_bind _ appends_fresh_trans); [apply appends_console_log|]. intros _.
  apply (always_bind _ appends_fresh_trans); [|intros ?; fresh_walk].
  intros w. eapply appends_weaken;
    [|apply (appends_paginate _ env storeId (fun t => getProducts env t 250)
               (EvGetProducts 250) (product_chunks parseFloat toFixed2)
               (processProduct parseFloat toFixed2 env storeId)
               (fun x => eq_refl))].
  intros row [cd [emb [Hrow Hsrc]]]. exists cd, emb. split; [exact Hrow | now left].
Qed.

Lemma appends_processPages fuel :
  always (appends fresh) (processPages env storeId fuel).
Proof.
  unfold processPages.
  apply (always_bind _ appends_fresh_trans); [apply appends_console_log|]. intros _.
  apply (always_bind _ appends_fresh_trans); [|intros ?; fresh_walk].
  intros w. eapply appends_weaken;
    [|apply (appends_paginate _ env storeId (fun t => getPages env t 100)
               (EvGetPages 100) page_chunks (processPage env storeId)
               (fun x => eq_refl))].
  intros row [cd [emb [Hrow Hsrc]]]. exists cd, emb.
  split; [exact Hrow | right; now left].
Qed.

Lemma appends_processCollections fuel :
  always (appends fresh) (processCollections env storeId fuel).
Proof.
  unfold processCollections.
  apply (always_bind _ appends_fresh_trans); [apply appends_console_log|]. intros _.
  apply (always_bind _ appends_fresh_trans); [|intros ?; fresh_walk].
  intros w. eapply appends_weaken;
    [|apply (appends_paginate _ env storeId (fun t => getCollections env t 100)
               (EvGetCollections 100) collection_chunks (processCollection env storeId)
               (fun x => eq_refl))].
  intros row [cd [emb [Hrow Hsrc]]]. exists cd, emb.
  split; [exact Hrow | right; now right].
Qed.

Lemma appends_repopulate fuel :
  always (appends fresh) (repopulate parseFloat toFixed2 env storeId fuel).
Proof.
  unfold repopulate.
  apply (always_bind _ appends_fresh_trans); [apply appends_processProducts|].
  intros [_|]; [|fresh_walk].
  apply (always_bind _ appends_fresh_trans); [apply appends_processPages|].
  intros [_|]; [|fresh_walk].
  apply (always_bind _ appends_fresh_trans); [apply appends_processCollections|].
  intros [_|]; fresh_walk.
Qed.

Lemma processAllData_run fuel w :
  processAllData parseFloat toFixed2 env storeId fuel w
  = match chunk_store_error env (ticks w) with
    | Some pg =>
        (Throw (JsError ("Failed to clear existing chunks: " ++ pg_message pg)%string),
         clear_failed storeId w)
    | None => repopulate parseFloat toFixed2 env storeId fuel (cleared storeId w)
    end.
Proof.
  unfold processAllData, bind at 1. cbn [console_log].
  unfold bind at 1, clearExistingChunks, bind at 1. rewrite external_advance.
  cbn [advance ticks shopify_chunks whatsapp_messages console trace].
  destruct (chunk_store_error env (ticks w)) as [pg|].
  - reflexivity.
  - unfold bind at 1. cbn [set_chunks console_log]. unfold advance.
    cbn [ticks shopify_chunks whatsapp_messages console trace].
    unfold cleared, other_owners, repopulate. rewrite <- app_assoc. reflexivity.
Qed.

(** C4. [processAllData] issues the delete of the owner's chunks before
    any other call.  When the delete fails the run throws
    "Failed to clear existing chunks: " followed by the store's message,
    having made no other call and changed no row.  Once the delete has
    succeeded, and so whenever the run completes, the table holds the
    rows of the other owners, in their order, followed by rows built
    during this run from records the catalog returned during this run; a
    row the owner had before is still there only if the current catalog
    produced it again. *)
Theorem processAllData_replaces_owner_chunks :
  forall (fuel : nat) (w : World),
    let run := processAllData parseFloat toFixed2 env storeId fuel w in
    (exists evs, trace (snd run) = trace w ++ EvChunksDelete storeId :: evs)
    /\ (forall pg,
           chunk_store_error env (ticks w) = Some pg ->
           fst run
           = Throw (JsError ("Failed to clear existing chunks: " ++ pg_message pg)%string)
           /\ shopify_chunks (snd run) = shopify_chunks w
           /\ trace (snd run) = trace w ++ [EvChunksDelete storeId])
    /\ (fst run = Ret (Some tt) -> chunk_store_error env (ticks w) = None)
    /\ (chunk_store_error env (ticks w) = None ->
        (exists rows,
            shopify_chunks (snd run) = other_owners storeId (shopify_chunks w) ++ rows
            /\ Forall (fresh (ticks w) (ticks (snd run))) rows)
        /\ forall row,
             In row (shopify_chunks w) -> store_id row = storeId ->
             In row (shopify_chunks (snd run)) ->
             fresh (ticks w) (ticks (snd run)) row).
Proof.
  intros fuel w run. subst run. rewrite processAllData_run.
  pose proof (appends_repopulate fuel (cleared storeId w)) as Hrest.
  destruct (chunk_store_error env (ticks w)) as [pg|] eqn:Herr.
  - split; [exists []; reflexivity|].
    split; [|split; discriminate].
    intros pg' Hpg. injection Hpg as <-. repeat split.
  - destruct Hrest as [Ht [[evs He] [rows [Hc Hf]]]].
    cbn [cleared ticks trace shopify_chunks] in Ht, He, Hc, Hf.
    assert (Hrows : Forall (fresh (ticks w)
                              (ticks (snd (repopulate parseFloat toFixed2 env storeId
                                             fuel (cleared storeId w))))) rows).
    { eapply Forall_impl; [|exact Hf]. intros row. apply widens_fresh; lia. }
    split; [exists evs; rewrite He, <- app_assoc; reflexivity|].
    split; [discriminate|].
    split; [reflexivity|].
    intros _. split; [exists rows; split; assumption|].
    intros row _ Hid Hin. rewrite Hc in Hin. apply in_app_or in Hin.
    destruct Hin as [Hin|Hin].
    + apply filter_In in Hin. destruct Hin as [_ Hne].
      rewrite Hid, String.eqb_refl in Hne. discriminate.
    + rewrite Forall_forall in Hrows. now apply Hrows.
Qed.

End FullReplace.

(** ** Worked examples *)

Lemma retry_examples :
  (exists evs,
      retrySupabaseQuery (external (EvQuery "phone_document_mapping" "biz") flaky_query)
        3 empty_world
      = (Ret (mkQueryResult (Some 7) None), advance empty_world 3 evs)
      /\ queries_of evs = 3 /\ sleeps_of evs = [1000; 2000])
  /\ (exists evs,
         retrySupabaseQuery
           (external (EvQuery "phone_document_mapping" "biz") failing_query)
           3 empty_world
         = (Ret (mkQueryResult None (Some bad_gateway)), advance empty_world 4 evs)
         /\ queries_of evs = 4 /\ sleeps_of evs = [1000; 2000]).
Proof.
  split.
  - apply (proj1 (retrySupabaseQuery_bounded_retry nat "phone_document_mapping" "biz"
                    flaky_query 3 empty_world) 2 (mkQueryResult (Some 7) None)).
    + lia.
    + intros i Hi. exists (mkQueryResult None (Some bad_gateway)).
      destruct i as [|[|i]]; [split; reflexivity | split; reflexivity | lia].
    + reflexivity.
    + reflexivity.
  - apply (proj2 (retrySupabaseQuery_bounded_retry nat "phone_document_mapping" "biz"
                    failing_query 3 empty_world)).
    intros i Hi. exists (mkQueryResult None (Some bad_gateway)). split; reflexivity.
Defined.

Lemma merge_example :
  exists result,
    fst (retrieveRelevantChunksFromFiles (with_documents quiet_env demo_documents)
           [] ["f1"; "f2"]%string 5 empty_world) = Ret (Some result)
    /\ map m_id result = ["c1"; "c2"]%string
    /\ StronglySorted desc result.
Proof.
  destruct (proj1 retrieveRelevantChunksFromFiles_merge_then_truncate
              (with_documents quiet_env demo_documents) [] ["f1"; "f2"]%string 5%Z
              [[mkMatch "c1" "Blue Mug costs USD 12.00" (9 # 10) None];
               [mkMatch "c2" "Shipping takes 3 days" (5 # 10) None]]
              empty_world)
    as [result [Hrun [Hresult [Hsorted _]]]].
  - simpl. lia.
  - lia.
  - simpl. repeat split; reflexivity.
  - exists result. rewrite Hrun. split; [reflexivity|].
    split; [rewrite Hresult; reflexivity | exact Hsorted].
Defined.

Lemma send_failure_example :
  exists w',
    generateAutoResponse (with_send demo_env send_times_out) "cust" "biz"
      "how much is the mug?" "wamid.7" (world_with_messages [inbound_turn 7])
    = (Ret (mkResult false (Some "The Blue Mug costs USD 12.00."%string)
              (Some "Generated response but failed to send: timeout"%string)
              None (Some false)),
       w')
    /\ map auto_respond_sent (whatsapp_messages w') = [Some false].
Proof.
  destruct (send_failure_keeps_reply_and_marks_unsent
              (with_send demo_env send_times_out) "cust" "biz" "how much is the mug?"
              "wamid.7" (world_with_messages [inbound_turn 7])
              (snd (prepare_reply (with_send demo_env send_times_out) "cust" "biz"
                      "how much is the mug?" (world_with_messages [inbound_turn 7])))
              demo_reply (Some "timeout"%string))
    as [w' [Hrun [Hmsgs _]]].
  - vm_compute. reflexivity.
  - reflexivity.
  - exists w'. split; [exact Hrun|]. rewrite Hmsgs. reflexivity.
Defined.

Lemma redelivery_example :
  exists w',
    deliver_reply demo_env "cust" "biz" "wamid.7" demo_reply
      (world_with_messages [inbound_turn 7])
    = (Ret (mkResult true (Some "The Blue Mug costs USD 12.00."%string) None None
              (Some true)),
       w')
    /\ map message_id (whatsapp_messages w')
       = ["wamid.7"; "auto_wamid.7_1700000000001"]%string.
Proof.
  destruct (outbound_id_depends_on_clock_reading demo_env "cust" "biz" "wamid.7"
              demo_reply (world_with_messages [inbound_turn 7]) None)
    as [[w' [Hrun Hmsgs]] _].
  - reflexivity.
  - exists w'. split; [exact Hrun|]. rewrite Hmsgs. reflexivity.
Defined.

(** A page of 3220 formatted characters is stored as chunks of 1500, 1500
    and 220 characters. *)
Lemma long_page_example :
  map (fun row => String.length (chunk_text row))
      (shopify_chunks (snd (processPage demo_env "store-1" long_page empty_world)))
  = [1500; 1500; 220].
Proof. vm_compute. reflexivity. Qed.

Lemma duplicate_and_refused_insert_examples :
  (storeChunk (with_chunk_store_error demo_env (refuse_at 1 "23505")) "store-1"
     mug_chunk empty_world
   = (Ret tt,
      after_insert "store-1" empty_world mug_chunk [1 # 2; 1 # 3]%Q false
        [duplicate_line mug_chunk])
   /\ for_each (storeChunk (with_chunk_store_error demo_env (refuse_at 1 "23505"))
                  "store-1") [mug_chunk; mug_chunk_2] empty_world
      = for_each (storeChunk (with_chunk_store_error demo_env (refuse_at 1 "23505"))
                    "store-1") [mug_chunk_2]
          (after_insert "store-1" empty_world mug_chunk [1 # 2; 1 # 3]%Q false
             [duplicate_line mug_chunk]))
  /\ for_each (storeChunk (with_chunk_store_error demo_env (refuse_at 1 "53100"))
                 "store-1") [mug_chunk; mug_chunk_2] empty_world
     = (Throw (JsError "Failed to store chunk: refused by the store"),
        after_insert "store-1" empty_world mug_chunk [1 # 2; 1 # 3]%Q false [])
  /\ (let run := processAllData parse_twelve print_twelve
                   (with_chunk_store_error demo_env (refuse_at 3 "23505")) "store-1" 3
                   stale_world in
      fst run = Ret (Some tt)
      /\ map title (shopify_chunks (snd run)) = ["Terms"; "About"]%string)
  /\ (let run := processAllData parse_twelve print_twelve
                   (with_chunk_store_error demo_env (refuse_at 3 "53100")) "store-1" 3
                   stale_world in
      fst run = Throw (JsError "Failed to store chunk: refused by the store")
      /\ map title (shopify_chunks (snd run)) = ["Terms"]%string).
Proof.
  split; [|split; [|split; [vm_compute; split; reflexivity
                           | vm_compute; split; reflexivity]]].
  - apply (proj1 (storeChunk_skips_duplicates_and_aborts_on_other_errors
                    (with_chunk_store_error demo_env (refuse_at 1 "23505")) "store-1"
                    mug_chunk [mug_chunk_2] empty_world [1 # 2; 1 # 3]%Q
                    (mkPgError "23505" "refused by the store") eq_refl eq_refl)).
    reflexivity.
  - apply (proj2 (storeChunk_skips_duplicates_and_aborts_on_other_errors
                    (with_chunk_store_error demo_env (refuse_at 1 "53100")) "store-1"
                    mug_chunk [mug_chunk_2] empty_world [1 # 2; 1 # 3]%Q
                    (mkPgError "53100" "refused by the store") eq_refl eq_refl)).
    discriminate.
Defined.

Lemma full_replace_examples :
  fst (processAllData parse_twelve print_twelve demo_env "store-1" 3 stale_world)
  = Ret (Some tt)
  /\ map title
        (shopify_chunks
           (snd (processAllData parse_twelve print_twelve demo_env "store-1" 3
                   stale_world)))
     = ["Terms"; "Blue Mug"; "About"]%string
  /\ (forall row,
         In row (shopify_chunks stale_world) -> store_id row = "store-1"%string ->
         In row (shopify_chunks
                   (snd (processAllData parse_twelve print_twelve demo_env "store-1" 3
                           stale_world))) ->
         from_current_source parse_twelve print_twelve demo_env "store-1" 0
           (ticks (snd (processAllData parse_twelve print_twelve demo_env "store-1" 3
                          stale_world)))
           row)
  /\ fst (processAllData parse_twelve print_twelve
            (with_chunk_store_error demo_env (refuse_at 0 "57014")) "store-1" 3
            stale_world)
     = Throw (JsError "Failed to clear existing chunks: refused by the store")
  /\ shopify_chunks
       (snd (processAllData parse_twelve print_twelve
               (with_chunk_store_error demo_env (refuse_at 0 "57014")) "store-1" 3
               stale_world))
     = [stale_row; foreign_row].
Proof.
  split; [vm_compute; reflexivity|].
  split; [vm_compute; reflexivity|].
  split.
  - apply (proj2 (proj2 (proj2 (processAllData_replaces_owner_chunks parse_twelve
                                  print_twelve demo_env "store-1" 3 stale_world)))).
    reflexivity.
  - destruct (proj1 (proj2 (processAllData_replaces_owner_chunks parse_twelve
                              print_twelve
                              (with_chunk_store_error demo_env (refuse_at 0 "57014"))
                              "store-1" 3 stale_world))
                (mkPgError "57014" "refused by the store") eq_refl)
      as [Hthrow [Hrows _]].
    split; [exact Hthrow | exact Hrows].
Defined.

(** ** The retry wrapper and thrown exceptions *)

(** X1. [retrySupabaseQuery] does not retry a query function that throws:
    when the calls before it failed with a reported error and call
    number [k + 1] throws, be it one of the [maxRetries] attempts or the
    extra call after them, the exception leaves the wrapper after
    [k + 1] calls and after the waits that follow the failed attempts. *)
Theorem retrySupabaseQuery_does_not_retry_exceptions :
  forall (D : Type) (table flt : string) (q : nat -> Outcome (QueryResult D))
         (maxRetries k : nat) (e : Exn) (w : World),
    k <= maxRetries ->
    (forall i, i < k -> fails_at q (ticks w + i)) ->
    q (ticks w + k) = Throw e ->
    exists evs,
      retrySupabaseQuery (external (EvQuery table flt) q) maxRetries w
      = (Throw e, advance w (k + 1) evs)
      /\ queries_of evs = k + 1
      /\ sleeps_of evs
         = map (fun a => a * 1000) (seq 1 (Nat.min k (maxRetries - 1))).
Proof.
  intros D table flt q maxRetries k e w Hk Hfail Hthrow.
  unfold retrySupabaseQuery.
  assert (Hsplit : retry_from (external (EvQuery table flt) q) maxRetries 1 maxRetries w
                   = retry_from (external (EvQuery table flt) q) maxRetries 1
                       (k + (maxRetries - k)) w) by (f_equal; lia).
  rewrite Hsplit, retry_from_fail_prefix by exact Hfail.
  exists (failed_attempts (EvQuery table flt) maxRetries 1 k ++ [EvQuery table flt]).
  split; [|split].
  - destruct (maxRetries - k) as [|rest];
      [cbn [retry_from] | cbn [retry_from]; unfold bind];
      rewrite external_advance; cbn [advance ticks]; rewrite Hthrow;
      now rewrite advance_advance.
  - rewrite queries_of_app, failed_attempts_queries. reflexivity.
  - rewrite sleeps_of_app, failed_attempts_sleeps by lia. simpl.
    now rewrite app_nil_r.
Qed.

Lemma retry_exception_example :
  exists evs,
    retrySupabaseQuery (external (EvQuery "phone_document_mapping" "biz") throwing_query)
      3 empty_world
    = (Throw (JsError "fetch failed"), advance empty_world 2 evs)
    /\ queries_of evs = 2 /\ sleeps_of evs = [1000].
Proof.
  apply (retrySupabaseQuery_does_not_retry_exceptions nat "phone_document_mapping" "biz"
           throwing_query 3 1 (JsError "fetch failed") empty_world).
  - lia.
  - intros i Hi. exists (mkQueryResult None (Some bad_gateway)).
    destruct i as [|i]; [split; reflexivity | lia].
  - reflexivity.
Defined.

(** ** Retrieval: failures and footprint *)

Lemma retrieveRelevantChunks_run env q f limit w :
  retrieveRelevantChunks env q f limit w
  = (match error (match_documents env (ticks w) q limit f) with
     | Some e => Throw (ThrownValue e)
     | None => Ret (data (match_documents env (ticks w) q limit f))
     end,
     advance w 1 [EvMatchDocuments q limit f]).
Proof.
  unfold retrieveRelevantChunks, bind. rewrite external_advance.
  destruct (error (match_documents env (ticks w) q limit f)); reflexivity.
Qed.

Lemma gather_chunks_first_error env q limit f post e :
  forall pre parts acc w,
    answers_from env q limit (ticks w) pre parts ->
    error (match_documents env (ticks w + List.length pre) q limit (Some f)) = Some e ->
    gather_chunks env q limit (pre ++ f :: post) acc w
    = (Throw (ThrownValue e),
       advance w (List.length pre + 1) (match_calls q limit (pre ++ [f]))).
Proof.
  induction pre as [|p pre IH]; intros [|part parts] acc w Hparts Herr;
    simpl in Hparts; try contradiction.
  - rewrite !app_nil_l. change (List.length (@nil string)) with 0 in *.
    cbn [gather_chunks]. unfold bind.
    rewrite retrieveRelevantChunks_run.
    rewrite Nat.add_0_r in Herr. now rewrite Herr.
  - destruct Hparts as [Hp Hrest].
    rewrite <- !app_comm_cons.
    change (List.length (p :: pre)) with (S (List.length pre)) in *.
    cbn [gather_chunks]. unfold bind.
    rewrite retrieveRelevantChunks_run, Hp. cbn [error data].
    rewrite (IH parts).
    + rewrite advance_advance. reflexivity.
    + cbn [advance ticks]. now rewrite Nat.add_1_r.
    + cbn [advance ticks].
      replace (ticks w + 1 + List.length pre) with (ticks w + S (List.length pre)) by lia.
      exact Herr.
Qed.

(** X2. When the store reports an error for one of the sources, and has
    answered for the sources listed before it, retrieval over the list
    throws that error object as it is, right after the failing call:
    the sources listed after it are not queried and no partial result
    is returned. *)
Theorem retrieveRelevantChunksFromFiles_stops_at_first_error :
  forall (env : Env) (q : Vector) (pre post : list string) (f : string) (limit : Z)
         (parts : list (list Match)) (e : PgError) (w : World),
    answers_from env q limit (ticks w) pre parts ->
    error (match_documents env (ticks w + List.length pre) q limit (Some f)) = Some e ->
    retrieveRelevantChunksFromFiles env q (pre ++ f :: post) limit w
    = (Throw (ThrownValue e),
       advance w (List.length pre + 1) (match_calls q limit (pre ++ [f]))).
Proof.
  intros env q pre post f limit parts e w Hparts Herr.
  pose proof (gather_chunks_first_error env q limit f post e pre parts [] w Hparts Herr)
    as Hgather.
  unfold retrieveRelevantChunksFromFiles.
  destruct pre as [|p1 [|p2 pre]].
  - rewrite !app_nil_l in *. change (List.length (@nil string)) with 0 in *.
    destruct post as [|p post].
    + rewrite retrieveRelevantChunks_run.
      rewrite Nat.add_0_r in Herr. now rewrite Herr.
    + unfold bind. now rewrite Hgather.
  - rewrite <- !app_comm_cons, !app_nil_l in *. unfold bind. now rewrite Hgather.
  - rewrite <- !app_comm_cons in *. unfold bind. now rewrite Hgather.
Qed.

Lemma retrieval_error_example :
  retrieveRelevantChunksFromFiles (with_match_documents demo_env second_call_fails)
    [] ["f1"; "f2"; "f3"]%string 5 empty_world
  = (Throw (ThrownValue bad_gateway),
     advance empty_world 2
       [EvMatchDocuments [] 5 (Some "f1"%string);
        EvMatchDocuments [] 5 (Some "f2"%string)]).
Proof.
  apply (retrieveRelevantChunksFromFiles_stops_at_first_error
           (with_match_documents demo_env second_call_fails) [] ["f1"%string]
           ["f3"%string] "f2" 5 [[]] bad_gateway empty_world).
  - simpl. split; reflexivity.
  - reflexivity.
Defined.

Lemma gather_chunks_footprint env q limit :
  forall fileIds acc w,
  exists n,
    n <= List.length fileIds
    /\ snd (gather_chunks env q limit fileIds acc w)
       = advance w n (firstn n (match_calls q limit fileIds))
    /\ (forall all, fst (gather_chunks env q limit fileIds acc w) = Ret all ->
                    n = List.length fileIds).
Proof.
  induction fileIds as [|f fs IH]; intros acc w.
  - exists 0. split; [lia|]. cbn [gather_chunks ret snd firstn].
    split; [now rewrite advance_nothing | reflexivity].
  - cbn [gather_chunks]. unfold bind. rewrite retrieveRelevantChunks_run.
    destruct (error (match_documents env (ticks w) q limit (Some f))).
    + exists 1. split; [simpl; lia|]. split; [reflexivity | discriminate].
    + destruct (data (match_documents env (ticks w) q limit (Some f))) as [cs|].
      * destruct (IH (acc ++ map (with_file_id f) cs)
                     (advance w 1 [EvMatchDocuments q limit (Some f)]))
          as [n [Hn [Hsnd Hall]]].
        exists (S n). split; [simpl; lia|]. split.
        -- rewrite Hsnd, advance_advance. reflexivity.
        -- intros all Hret. cbn [List.length]. f_equal. now apply (Hall all).
      * exists 1. split; [simpl; lia|]. split; [reflexivity | discriminate].
Qed.

(** X3. The retrieval layer only reads the vector store.  Whatever the
    store answers, the multi-file retrieval leaves [shopify_chunks] and
    [whatsapp_messages] as they were and makes no call but its searches:
    one [match_documents] call per entry of the list, in the order
    listed, with the embedding and the limit it was given (an id that is
    listed several times is searched that many times).  The searches
    made are an initial part of the list, and whenever it returns a
    result every entry of the list has been searched.  The single-source
    and the Shopify retrieval make exactly one call, and change no table
    either. *)
Theorem retrieval_makes_only_its_searches :
  forall (env : Env) (q : Vector) (limit : Z) (w : World),
    (forall fileIds,
        let run := retrieveRelevantChunksFromFiles env q fileIds limit w in
        shopify_chunks (snd run) = shopify_chunks w
        /\ whatsapp_messages (snd run) = whatsapp_messages w
        /\ exists n,
             n <= List.length fileIds
             /\ trace (snd run) = trace w ++ firstn n (match_calls q limit fileIds)
             /\ (forall r, fst run = Ret r -> n = List.length fileIds))
    /\ (forall fileId,
           let run := retrieveRelevantChunks env q fileId limit w in
           shopify_chunks (snd run) = shopify_chunks w
           /\ whatsapp_messages (snd run) = whatsapp_messages w
           /\ trace (snd run) = trace w ++ [EvMatchDocuments q limit fileId])
    /\ (forall storeId,
           let run := retrieveRelevantShopifyChunks env q storeId limit w in
           shopify_chunks (snd run) = shopify_chunks w
           /\ whatsapp_messages (snd run) = whatsapp_messages w
           /\ trace (snd run) = trace w ++ [EvShopifySearch q storeId limit]).
Proof.
  intros env q limit w. split; [|split].
  - intros fileIds run.
    assert (Hrun : exists n,
               n <= List.length fileIds
               /\ snd run = advance w n (firstn n (match_calls q limit fileIds))
               /\ (forall r, fst run = Ret r -> n = List.length fileIds)).
    { subst run. unfold retrieveRelevantChunksFromFiles.
      destruct fileIds as [|f1 [|f2 fs]].
      - exists 0. split; [lia|]. cbn [ret snd firstn].
        split; [now rewrite advance_nothing | reflexivity].
      - exists 1. split; [simpl; lia|]. rewrite retrieveRelevantChunks_run.
        split; reflexivity.
      - destruct (gather_chunks_footprint env q limit (f1 :: f2 :: fs) [] w)
          as [n [Hn [Hsnd Hall]]].
        exists n. split; [exact Hn|]. unfold bind.
        destruct (gather_chunks env q limit (f1 :: f2 :: fs) [] w) as [[all|e] w'].
        + split; [exact Hsnd|]. intros r _. now apply (Hall all).
        + split; [exact Hsnd | discriminate]. }
    destruct Hrun as [n [Hn [Hsnd Hall]]]. rewrite Hsnd.
    split; [reflexivity|]. split; [reflexivity|].
    exists n. split; [exact Hn|]. split; [reflexivity | exact Hall].
  - intros fileId run. subst run. rewrite retrieveRelevantChunks_run.
    repeat split.
  - intros storeId run. subst run. unfold retrieveRelevantShopifyChunks, bind.
    rewrite external_advance.
    destruct (error (shopify_search env (ticks w) q storeId limit)); repeat split.
Qed.

(** ** The orchestrator's configuration failures *)

Lemma generateAutoResponse_early env fromNumber toNumber messageText messageId w early w1 :
  prepare_reply env fromNumber toNumber messageText w = (Ret (inl early), w1) ->
  generateAutoResponse env fromNumber toNumber messageText messageId w = (Ret early, w1).
Proof.
  intros H. unfold generateAutoResponse, try_catch, generateAutoResponse_body, bind.
  now rewrite H.
Qed.

(** X4. When the data-source lookup finds nothing for the business
    number ([null] or an empty string), [generateAutoResponse] returns
    the "No data source mapped" failure with the [noDocuments] flag
    after that single call: no mapping lookup, embedding, retrieval,
    model or send call is made and nothing is written. *)
Theorem no_data_source_stops_at_once :
  forall (env : Env) (fromNumber toNumber messageText messageId : string)
         (w : World) (dataSource : option string),
    getDataSourceForPhone env (ticks w) toNumber = Ret dataSource ->
    Js.truthy_opt dataSource = false ->
    generateAutoResponse env fromNumber toNumber messageText messageId w
    = (Ret (mkResult false None
              (Some "No data source mapped to this business number"%string)
              (Some true) None),
       advance w 1 [EvGetDataSource toNumber]).
Proof.
  intros env fromNumber toNumber messageText messageId w dataSource Hds Hfalsy.
  apply generateAutoResponse_early.
  unfold prepare_reply, bind. rewrite external_advance, Hds, Hfalsy. reflexivity.
Qed.

Lemma no_data_source_example :
  generateAutoResponse (with_data_source demo_env (fun _ _ => Ret (Some ""%string)))
    "cust" "biz" "hello" "wamid.7" (world_with_messages [inbound_turn 7])
  = (Ret (mkResult false None
            (Some "No data source mapped to this business number"%string)
            (Some true) None),
     advance (world_with_messages [inbound_turn 7]) 1 [EvGetDataSource "biz"]).
Proof.
  apply (no_data_source_stops_at_once
           (with_data_source demo_env (fun _ _ => Ret (Some ""%string)))
           "cust" "biz" "hello" "wamid.7" (world_with_messages [inbound_turn 7])
           (Some ""%string)); reflexivity.
Defined.

Lemma prepare_reply_after_data_source env fromNumber toNumber messageText w ds :
  getDataSourceForPhone env (ticks w) toNumber = Ret (Some ds) ->
  Js.truthy ds = true ->
  prepare_reply env fromNumber toNumber messageText w
  = bind (fetch_phone_mappings env toNumber)
      (fun mappings =>
         match error mappings, data mappings with
         | None, Some (first :: _) =>
             answer_with_mapping env ds fromNumber toNumber messageText first
         | _, _ => ret (inl (failure "Failed to fetch phone mapping details"))
         end)
      (advance w 1 [EvGetDataSource toNumber]).
Proof.
  intros Hds Htruthy. unfold prepare_reply, bind at 1.
  rewrite external_advance, Hds. cbn [Js.truthy_opt]. rewrite Htruthy. reflexivity.
Qed.

Lemma fetch_phone_mappings_first_try env toNumber w :
  has_error (phone_mapping_query env (ticks w) toNumber) = false ->
  fetch_phone_mappings env toNumber w
  = (Ret (phone_mapping_query env (ticks w) toNumber),
     advance w 1 [EvQuery "phone_document_mapping" toNumber]).
Proof.
  intros Hok. unfold fetch_phone_mappings, retrySupabaseQuery.
  cbn [retry_from]. unfold bind. rewrite external_advance, Hok. reflexivity.
Qed.

Lemma fetch_phone_mappings_exhausted env toNumber w :
  (forall i, i < 3 -> has_error (phone_mapping_query env (ticks w + i) toNumber) = true) ->
  fetch_phone_mappings env toNumber w
  = (Ret (phone_mapping_query env (ticks w + 3) toNumber),
     advance w 4 (exhausted_lookup toNumber)).
Proof.
  intros Hfail. unfold fetch_phone_mappings, retrySupabaseQuery.
  set (ev := EvQuery "phone_document_mapping" toNumber).
  set (q := fun t => Ret (phone_mapping_query env t toNumber)).
  assert (Hsplit : retry_from (external ev q) 3 1 3 w
                   = retry_from (external ev q) 3 1 (3 + 0) w) by reflexivity.
  rewrite Hsplit, retry_from_fail_prefix.
  - cbn [retry_from]. rewrite external_advance, advance_advance. reflexivity.
  - intros i Hi. eexists. split; [reflexivity | now apply Hfail].
Qed.

(** X5. When the mapping lookup reports an error on each of its four
    calls (three attempts and the extra one), [generateAutoResponse]
    returns "Failed to fetch phone mapping details" after waits of 1000
    and 2000 ms; when the first answer carries no error but no row (or
    [null]), it returns the same failure without a second lookup.  In
    both cases nothing is embedded, retrieved, generated, sent or
    written.  When the three attempts fail and the extra call succeeds,
    the rows of that fourth call are used. *)
Theorem mapping_lookup_failure_stops_before_embedding :
  forall (env : Env) (fromNumber toNumber messageText messageId ds : string)
         (w : World),
    getDataSourceForPhone env (ticks w) toNumber = Ret (Some ds) ->
    Js.truthy ds = true ->
    let failed :=
      Ret (mkResult false None (Some "Failed to fetch phone mapping details"%string)
             None None) in
    ((forall i, i < 4 ->
                has_error (phone_mapping_query env (ticks w + 1 + i) toNumber) = true) ->
     generateAutoResponse env fromNumber toNumber messageText messageId w
     = (failed, advance w 5 (EvGetDataSource toNumber :: exhausted_lookup toNumber)))
    /\ (error (phone_mapping_query env (ticks w + 1) toNumber) = None ->
        first_row (phone_mapping_query env (ticks w + 1) toNumber) = None ->
        generateAutoResponse env fromNumber toNumber messageText messageId w
        = (failed,
           advance w 2 [EvGetDataSource toNumber;
                        EvQuery "phone_document_mapping" toNumber]))
    /\ (forall first rest,
           (forall i, i < 3 ->
                      has_error (phone_mapping_query env (ticks w + 1 + i) toNumber)
                      = true) ->
           phone_mapping_query env (ticks w + 4) toNumber
           = mkQueryResult (Some (first :: rest)) None ->
           prepare_reply env fromNumber toNumber messageText w
           = answer_with_mapping env ds fromNumber toNumber messageText first
               (advance w 5 (EvGetDataSource toNumber :: exhausted_lookup toNumber))).
Proof.
  intros env fromNumber toNumber messageText messageId ds w Hds Htruthy failed.
  pose proof (prepare_reply_after_data_source env fromNumber toNumber messageText w ds
                Hds Htruthy) as Hprep.
  split; [|split].
  - intros Hfail. apply generateAutoResponse_early. rewrite Hprep. unfold bind.
    rewrite fetch_phone_mappings_exhausted.
    + cbn [advance ticks]. rewrite advance_advance.
      specialize (Hfail 3 ltac:(lia)). unfold has_error in Hfail.
      replace (ticks w + 1 + 3) with (ticks w + 1 + 3) by reflexivity.
      destruct (error (phone_mapping_query env (ticks w + 1 + 3) toNumber));
        [reflexivity | discriminate].
    + intros i Hi. cbn [advance ticks]. apply Hfail. lia.
  - intros Herr Hnone. apply generateAutoResponse_early. rewrite Hprep. unfold bind.
    rewrite fetch_phone_mappings_first_try
      by (cbn [advance ticks]; unfold has_error; now rewrite Herr).
    cbn [advance ticks]. rewrite Herr, advance_advance.
    unfold first_row in Hnone.
    destruct (data (phone_mapping_query env (ticks w + 1) toNumber)) as [[|a l]|];
      [reflexivity | discriminate | reflexivity].
  - intros first rest Hfail Hfourth. rewrite Hprep. unfold bind.
    rewrite fetch_phone_mappings_exhausted
      by (intros i Hi; cbn [advance ticks]; now apply Hfail).
    cbn [advance ticks].
    replace (ticks w + 1 + 3) with (ticks w + 4) by lia.
    rewrite Hfourth, advance_advance. reflexivity.
Qed.

Lemma mapping_lookup_failure_examples :
  generateAutoResponse (with_phone_mappings demo_env mapping_down) "cust" "biz" "hello"
    "wamid.7" (world_with_messages [inbound_turn 7])
  = (Ret (failure "Failed to fetch phone mapping details"),
     advance (world_with_messages [inbound_turn 7]) 5
       (EvGetDataSource "biz" :: exhausted_lookup "biz"))
  /\ generateAutoResponse (with_phone_mappings demo_env no_mapping_rows) "cust" "biz"
       "hello" "wamid.7" (world_with_messages [inbound_turn 7])
     = (Ret (failure "Failed to fetch phone mapping details"),
        advance (world_with_messages [inbound_turn 7]) 2
          [EvGetDataSource "biz"; EvQuery "phone_document_mapping" "biz"]).
Proof.
  split.
  - apply (proj1 (mapping_lookup_failure_stops_before_embedding
                    (with_phone_mappings demo_env mapping_down) "cust" "biz" "hello"
                    "wamid.7" "file" (world_with_messages [inbound_turn 7])
                    eq_refl eq_refl)).
    intros i Hi. reflexivity.
  - apply (proj1 (proj2 (mapping_lookup_failure_stops_before_embedding
                           (with_phone_mappings demo_env no_mapping_rows) "cust" "biz"
                           "hello" "wamid.7" "file"
                           (world_with_messages [inbound_turn 7]) eq_refl eq_refl)));
      reflexivity.
Defined.

(** X6. When the first mapping row lacks the auth token or the origin
    ([null] or empty), [generateAutoResponse] returns the "No WhatsApp
    API credentials" failure right after the lookup: the message is not
    embedded, nothing is retrieved or generated, and nothing is sent or
    written. *)
Theorem missing_credentials_stop_before_embedding :
  forall (env : Env) (fromNumber toNumber messageText messageId ds : string)
         (w : World) (first : MappingRow) (rest : list MappingRow),
    getDataSourceForPhone env (ticks w) toNumber = Ret (Some ds) ->
    Js.truthy ds = true ->
    phone_mapping_query env (ticks w + 1) toNumber
    = mkQueryResult (Some (first :: rest)) None ->
    Js.truthy_opt (auth_token first) = false \/ Js.truthy_opt (origin first) = false ->
    generateAutoResponse env fromNumber toNumber messageText messageId w
    = (Ret (mkResult false None
              (Some "No WhatsApp API credentials found. Please set credentials in the Configuration tab."%string)
              None None),
       advance w 2 [EvGetDataSource toNumber;
                    EvQuery "phone_document_mapping" toNumber]).
Proof.
  intros env fromNumber toNumber messageText messageId ds w first rest Hds Htruthy
         Hrows Hmissing.
  apply generateAutoResponse_early.
  rewrite (prepare_reply_after_data_source env fromNumber toNumber messageText w ds
             Hds Htruthy).
  unfold bind.
  rewrite fetch_phone_mappings_first_try
    by (cbn [advance ticks]; now rewrite Hrows).
  cbn [advance ticks]. rewrite Hrows, advance_advance. cbn [error data].
  unfold answer_with_mapping.
  assert (Hboth : Js.truthy_opt (auth_token first) && Js.truthy_opt (origin first) = false).
  { destruct Hmissing as [H|H]; rewrite H; [reflexivity | apply andb_false_r]. }
  rewrite Hboth. reflexivity.
Qed.

Lemma missing_credentials_example :
  generateAutoResponse (with_phone_mappings demo_env mapping_without_token) "cust" "biz"
    "hello" "wamid.7" (world_with_messages [inbound_turn 7])
  = (Ret (failure "No WhatsApp API credentials found. Please set credentials in the Configuration tab."),
     advance (world_with_messages [inbound_turn 7]) 2
       [EvGetDataSource "biz"; EvQuery "phone_document_mapping" "biz"]).
Proof.
  apply (missing_credentials_stop_before_embedding
           (with_phone_mappings demo_env mapping_without_token) "cust" "biz" "hello"
           "wamid.7" "file" (world_with_messages [inbound_turn 7])
           (mkMappingRow None None None (Some "https://wa.example"%string)) []
           eq_refl eq_refl eq_refl).
  left. reflexivity.
Defined.

(** ** What steps 1 to 5 call *)

Lemma calls_only_refl P w : calls_only P w w.
Proof.
  repeat split. exists []. split; [now rewrite app_nil_r | constructor].
Qed.

Lemma calls_only_trans P w1 w2 w3 :
  calls_only P w1 w2 -> calls_only P w2 w3 -> calls_only P w1 w3.
Proof.
  intros [Hc1 [Hm1 [Ho1 [e1 [Ht1 Hf1]]]]] [Hc2 [Hm2 [Ho2 [e2 [Ht2 Hf2]]]]].
  split; [congruence|]. split; [congruence|]. split; [congruence|].
  exists (e1 ++ e2). split; [now rewrite Ht2, Ht1, app_assoc | now apply Forall_app].
Qed.

Lemma calls_only_advance (P : Event -> Prop) w n evs :
  Forall P evs -> calls_only P w (advance w n evs).
Proof. intros H. repeat split. now exists evs. Qed.

Lemma calls_only_external {A : Type} (P : Event -> Prop) ev (answer : nat -> Outcome A) :
  P ev -> always (calls_only P) (external ev answer).
Proof.
  intros Hev w. rewrite external_advance. apply calls_only_advance.
  constructor; [exact Hev | constructor].
Qed.

Lemma calls_only_sleep (P : Event -> Prop) ms :
  P (EvSleep ms) -> always (calls_only P) (sleep ms).
Proof.
  intros Hev w. unfold sleep. rewrite emit_advance. apply calls_only_advance.
  constructor; [exact Hev | constructor].
Qed.

Lemma Forall_skipn {A : Type} (P : A -> Prop) n :
  forall l, Forall P l -> Forall P (skipn n l).
Proof.
  induction n as [|n IH]; intros [|x l] H; simpl; try assumption.
  inversion H; subst. now apply IH.
Qed.

Lemma build_history_turns historyRows : Forall turn_ok (build_history historyRows).
Proof.
  unfold build_history. apply Forall_forall. intros turn Hin.
  apply in_map_iff in Hin. destruct Hin as [m [<- Hm]].
  apply filter_In in Hm. destruct Hm as [_ Hq].
  unfold qualifies in Hq. apply andb_true_iff in Hq. destruct Hq as [Htext Hkind].
  unfold turn_ok, to_turn. cbn [role content]. split.
  - destruct (String.eqb (event_type m) "MoMessage"); discriminate.
  - destruct (content_text m) as [[|c s]|]; cbn in Htext; try discriminate.
Qed.

Lemma In_firstn {A : Type} (x : A) n : forall l, In x (firstn n l) -> In x l.
Proof.
  induction n as [|n IH]; intros [|y l] H; simpl in *; try contradiction.
  destruct H as [H|H]; [now left | right; now apply IH].
Qed.

Lemma history_window_rows fromNumber table row :
  In row (history_window fromNumber table) ->
  In row table /\ involves fromNumber row = true.
Proof.
  unfold history_window, order_by_received_at. intros H.
  apply In_firstn in H.
  apply (Permutation_in _ (Permutation_sym (stable_sort_perm _ not_later _))) in H.
  now apply filter_In in H.
Qed.

(** What the history read hands to the prompt. *)
Lemma build_history_rows fromNumber table historyRows :
  historyRows = None \/ historyRows = Some (history_window fromNumber table) ->
  Forall (conversation_turn fromNumber table) (build_history historyRows).
Proof.
  intros Hrows. unfold build_history. apply Forall_forall. intros turn Hin.
  apply in_map_iff in Hin. destruct Hin as [row [<- Hrow]].
  apply filter_In in Hrow. destruct Hrow as [Hin Hq].
  destruct Hrows as [-> | ->]; [contradiction|].
  apply history_window_rows in Hin. destruct Hin as [Hin Hinv].
  now exists row.
Qed.

Lemma append_assoc (a b c : string) : ((a ++ b) ++ c = a ++ b ++ c)%string.
Proof. induction a as [|x a IH]; cbn; [reflexivity | now rewrite IH]. Qed.

Lemma system_message_ok customSystemPrompt dataSource contextText :
  system_ok (compose_system_prompt customSystemPrompt dataSource ++ nl ++ nl ++ "CONTEXT:"
             ++ nl ++ (if Js.truthy contextText then contextText
                       else "No relevant context found in the documents."))%string.
Proof.
  assert (Hcontext : (if Js.truthy contextText then contextText
                      else "No relevant context found in the documents."%string)
                     <> EmptyString).
  { destruct contextText; cbn; discriminate. }
  assert (Hrules : baseRules dataSource = shopify_rules
                   \/ baseRules dataSource = document_rules).
  { unfold baseRules. destruct (is_shopify dataSource); auto. }
  assert (Hdefault : exists opening,
             opening <> EmptyString
             /\ ("You are a helpful "
                 ++ (if is_shopify dataSource then "Shopify store" else "WhatsApp")
                 ++ " assistant." ++ nl ++ nl ++ baseRules dataSource)%string
                = (opening ++ nl ++ nl ++ baseRules dataSource)%string).
  { destruct (is_shopify dataSource).
    - exists "You are a helpful Shopify store assistant."%string.
      split; [discriminate | reflexivity].
    - exists "You are a helpful WhatsApp assistant."%string.
      split; [discriminate | reflexivity]. }
  assert (Hopening : exists opening,
             opening <> EmptyString
             /\ compose_system_prompt customSystemPrompt dataSource
                = (opening ++ nl ++ nl ++ baseRules dataSource)%string).
  { unfold compose_system_prompt. destruct customSystemPrompt as [custom|]; [|exact Hdefault].
    destruct custom as [|c custom]; [exact Hdefault|].
    exists (String c custom). split; [discriminate | reflexivity]. }
  destruct Hopening as [opening [Hne ->]].
  exists opening, (baseRules dataSource). eexists.
  split; [|split; [exact Hne | split; [exact Hrules | exact Hcontext]]].
  now rewrite !append_assoc.
Qed.

Lemma compose_messages_ok fromNumber table customSystemPrompt dataSource contextText
    historyRows messageText :
  historyRows = None \/ historyRows = Some (history_window fromNumber table) ->
  prompt_ok fromNumber messageText table
    (compose_messages (compose_system_prompt customSystemPrompt dataSource) contextText
       (build_history historyRows) messageText).
Proof.
  intros Hrows. unfold compose_messages, Js.slice_last.
  eexists. eexists. split; [reflexivity|]. split; [reflexivity|].
  split; [apply system_message_ok|]. split; [|split; [|split]].
  - destruct Hrows as [-> | ->]; [now left | now right].
  - rewrite length_skipn. lia.
  - apply Forall_skipn, build_history_turns.
  - apply Forall_skipn. now apply build_history_rows.
Qed.

Lemma prepares_refl fromNumber toNumber messageText w :
  prepares fromNumber toNumber messageText w w.
Proof. apply calls_only_refl. Qed.

Lemma prepares_trans fromNumber toNumber messageText w1 w2 w3 :
  prepares fromNumber toNumber messageText w1 w2 ->
  prepares fromNumber toNumber messageText w2 w3 ->
  prepares fromNumber toNumber messageText w1 w3.
Proof.
  unfold prepares. intros H12 H23.
  assert (Hm : whatsapp_messages w2 = whatsapp_messages w1) by apply H12.
  rewrite Hm in H23. eapply calls_only_trans; eassumption.
Qed.

Lemma prepares_external {A : Type} fromNumber toNumber messageText ev
    (answer : nat -> Outcome A) :
  (forall table, prepare_event fromNumber toNumber messageText table ev) ->
  always (prepares fromNumber toNumber messageText) (external ev answer).
Proof. intros Hev w. apply calls_only_external, Hev. Qed.

Ltac prepare_walk :=
  repeat first
    [ apply (always_ret _ (prepares_refl _ _ _))
    | apply (always_throw _ (prepares_refl _ _ _))
    | apply (always_bind _ (prepares_trans _ _ _)); [| intros ?]
    | apply prepares_external; intros ?; cbn [prepare_event];
      first [ reflexivity | split; [reflexivity | discriminate]
            | split; reflexivity | exact I ]
    | match goal with
      | |- always _ (match ?x with _ => _ end) => destruct x
      end ].

Lemma prepare_calls_retrieval fromNumber toNumber messageText env q fileIds :
  always (prepares fromNumber toNumber messageText)
    (retrieveRelevantChunksFromFiles env q fileIds 5).
Proof.
  assert (Hall : forall ids acc,
             always (prepares fromNumber toNumber messageText)
               (gather_chunks env q 5 ids acc)).
  { induction ids as [|f fs IH]; intros acc; cbn [gather_chunks].
    - prepare_walk.
    - apply (always_bind _ (prepares_trans _ _ _));
        [unfold retrieveRelevantChunks; prepare_walk|].
      intros [cs|]; [apply IH | prepare_walk]. }
  unfold retrieveRelevantChunksFromFiles.
  destruct fileIds as [|f1 [|f2 fs]].
  - prepare_walk.
  - unfold retrieveRelevantChunks. prepare_walk.
  - apply (always_bind _ (prepares_trans _ _ _)); [apply Hall|]. intros ?. prepare_walk.
Qed.

Lemma read_history_run env fromNumber w :
  read_history env fromNumber w
  = (Ret (match message_store_error env (ticks w) with
          | Some _ => None
          | None => Some (history_window fromNumber (whatsapp_messages w))
          end),
     advance w 1 [EvHistoryRead fromNumber]).
Proof.
  unfold read_history, bind. rewrite external_advance.
  now destruct (message_store_error env (ticks w)).
Qed.

(** Steps 4 and 5: the history read and the completion call. *)
Lemma prepare_calls_completion {A : Type} env fromNumber toNumber messageText
    customSystemPrompt dataSource contextText (k : Completion -> M A) :
  let systemPrompt := compose_system_prompt customSystemPrompt dataSource in
  (forall completion, always (prepares fromNumber toNumber messageText) (k completion)) ->
  always (prepares fromNumber toNumber messageText)
    (historyRows <- read_history env fromNumber ;;
     completion <- external
                     (EvCompletion (compose_messages systemPrompt contextText
                                      (build_history historyRows) messageText))
                     (fun t => chat_completion env t
                                 (compose_messages systemPrompt contextText
                                    (build_history historyRows) messageText)) ;;
     k completion).
Proof.
  intros systemPrompt Hk w. unfold bind at 1. rewrite read_history_run.
  set (historyRows := match message_store_error env (ticks w) with
                      | Some _ => None
                      | None => Some (history_window fromNumber (whatsapp_messages w))
                      end).
  assert (Hrows : historyRows = None
                  \/ historyRows = Some (history_window fromNumber (whatsapp_messages w))).
  { subst historyRows. destruct (message_store_error env (ticks w)); auto. }
  set (messages := compose_messages systemPrompt contextText
                     (build_history historyRows) messageText).
  assert (Hcalls : prepares fromNumber toNumber messageText w
                     (advance w 2 [EvHistoryRead fromNumber; EvCompletion messages])).
  { apply calls_only_advance. constructor; [reflexivity|].
    constructor; [|constructor]. cbn [prepare_event]. subst messages systemPrompt.
    now apply compose_messages_ok. }
  unfold bind. rewrite external_advance, advance_advance. cbn [Nat.add app].
  destruct (chat_completion env (ticks (advance w 1 [EvHistoryRead fromNumber])) messages)
    as [completion|e].
  - eapply prepares_trans; [exact Hcalls | apply Hk].
  - exact Hcalls.
Qed.

Lemma prepare_reply_calls env fromNumber toNumber messageText :
  always (prepares fromNumber toNumber messageText)
    (prepare_reply env fromNumber toNumber messageText).
Proof.
  unfold prepare_reply.
  apply (always_bind _ (prepares_trans _ _ _)); [prepare_walk|]. intros dataSource.
  destruct (Js.truthy_opt dataSource); [|prepare_walk].
  apply (always_bind _ (prepares_trans _ _ _)).
  { unfold fetch_phone_mappings, retrySupabaseQuery.
    apply (always_retry_from _ (prepares_refl _ _ _) (prepares_trans _ _ _)).
    - prepare_walk.
    - intros ms w. now apply calls_only_sleep. }
  intros mappings.
  destruct (error mappings); [prepare_walk|].
  destruct (data mappings) as [[|first rest]|]; try solve [prepare_walk].
  unfold answer_with_mapping.
  destruct (Js.truthy_opt (auth_token first) && Js.truthy_opt (origin first));
    [|prepare_walk].
  apply (always_bind _ (prepares_trans _ _ _)); [prepare_walk|]. intros [q|];
    [|prepare_walk].
  apply (always_bind _ (prepares_trans _ _ _)).
  { unfold retrieve_context, retrieveRelevantShopifyChunks.
    destruct (is_shopify _).
    - prepare_walk.
    - apply (always_bind _ (prepares_trans _ _ _)); [prepare_walk|]. intros [|f fs];
        [prepare_walk|].
      apply (always_bind _ (prepares_trans _ _ _)); [apply prepare_calls_retrieval|].
      intros ?. prepare_walk. }
  intros [early|chunks]; [prepare_walk|].
  apply prepare_calls_completion. intros completion. prepare_walk.
Qed.

(** ** What steps 1 to 5 return *)

Lemma returns_ret {A : Type} (P : A -> Prop) (a : A) : P a -> returns P (ret a).
Proof. intros H w. exact H. Qed.

Lemma returns_throw {A : Type} (P : A -> Prop) (e : Exn) : returns P (@throw A e).
Proof. intros w. exact I. Qed.

Lemma returns_bind {A B : Type} (Q : A -> Prop) (P : B -> Prop) (m : M A) (k : A -> M B) :
  returns Q m -> (forall a, Q a -> returns P (k a)) -> returns P (bind m k).
Proof.
  intros Hm Hk w. unfold bind. specialize (Hm w).
  destruct (m w) as [[a|e] w1]; cbn [fst] in *; [apply Hk, Hm | exact I].
Qed.

Lemma returns_anything {A : Type} (m : M A) : returns (fun _ => True) m.
Proof. intros w. now destruct (fst (m w)). Qed.

Lemma failure_shape msg : prepared_shape (inl (failure msg)).
Proof. split; [apply shape_failed | reflexivity]. Qed.

Lemma failure_no_documents_shape msg : prepared_shape (inl (failure_no_documents msg)).
Proof. split; [apply shape_not_configured | reflexivity]. Qed.

Lemma truthy_opt_text (o : option string) :
  Js.truthy_opt o = true -> match o with Some s => s | None => EmptyString end <> EmptyString.
Proof. destruct o as [[|c s]|]; cbn; intros H; discriminate. Qed.

Lemma retrieve_context_returns env dataSource toNumber q :
  returns (fun ctx => match ctx with
                      | inl early => prepared_shape (inl early)
                      | inr _ => True
                      end)
          (retrieve_context env dataSource toNumber q).
Proof.
  unfold retrieve_context. destruct (is_shopify dataSource).
  - apply (returns_bind _ _ _ _ (returns_anything _)). intros shopifyStoreId _.
    destruct (Js.truthy_opt shopifyStoreId).
    + apply (returns_bind _ _ _ _ (returns_anything _)). intros ? _.
      now apply returns_ret.
    + apply returns_ret, failure_no_documents_shape.
  - apply (returns_bind _ _ _ _ (returns_anything _)). intros [|f fs] _.
    + apply returns_ret, failure_no_documents_shape.
    + apply (returns_bind _ _ _ _ (returns_anything _)). intros [ms|] _.
      * now apply returns_ret.
      * apply returns_throw.
Qed.

Lemma prepare_reply_returns env fromNumber toNumber messageText :
  returns prepared_shape (prepare_reply env fromNumber toNumber messageText).
Proof.
  unfold prepare_reply.
  apply (returns_bind _ _ _ _ (returns_anything _)). intros dataSource _.
  destruct (Js.truthy_opt dataSource); [|apply returns_ret, failure_no_documents_shape].
  apply (returns_bind _ _ _ _ (returns_anything _)). intros mappings _.
  destruct (error mappings); [apply returns_ret, failure_shape|].
  destruct (data mappings) as [[|first rest]|]; try apply returns_ret, failure_shape.
  unfold answer_with_mapping.
  destruct (Js.truthy_opt (auth_token first) && Js.truthy_opt (origin first)) eqn:Hcred;
    [|apply returns_ret, failure_shape].
  apply andb_true_iff in Hcred. destruct Hcred as [Htok Horg].
  apply (returns_bind _ _ _ _ (returns_anything _)). intros [q|] _;
    [|apply returns_ret, failure_shape].
  apply (returns_bind _ _ _ _ (retrieve_context_returns _ _ _ _)).
  intros [early|chunks] Hctx; [now apply returns_ret|].
  apply (returns_bind _ _ _ _ (returns_anything _)). intros historyRows _.
  apply (returns_bind _ _ _ _ (returns_anything _)). intros completion _.
  destruct (choices completion) as [|reply rest']; [apply returns_throw|].
  destruct (Js.truthy_opt reply) eqn:Hreply; [|apply returns_ret, failure_shape].
  apply returns_ret. cbn [prepared_shape reply_text reply_auth_token reply_origin].
  auto using truthy_opt_text.
Qed.

(** ** One handling of an inbound message, case by case *)

Lemma deliver_reply_cases env fromNumber toNumber messageId reply w :
  let text := reply_text reply in
  let send := EvSend fromNumber text (reply_auth_token reply) (reply_origin reply) in
  exists outcome w',
    deliver_reply env fromNumber toNumber messageId reply w = (outcome, w')
    /\ shopify_chunks w' = shopify_chunks w
    /\ console w' = console w
    /\ ((exists e,
           outcome = Throw e
           /\ whatsapp_messages w' = whatsapp_messages w
           /\ trace w' = trace w ++ [send])
        \/ (exists msg err at_time,
              outcome = Ret (mkResult false (Some text) (Some msg) None (Some false))
              /\ whatsapp_messages w'
                 = written err (map (mark_row messageId false at_time))
                     (whatsapp_messages w)
              /\ trace w'
                 = trace w ++ [send; EvClock; EvMsgUpdate messageId false at_time])
        \/ (exists err1 err2 responseId at1 at2,
              let row := outbound_row responseId fromNumber toNumber text at1 in
              outcome = Ret (mkResult true (Some text) None None (Some true))
              /\ whatsapp_messages w'
                 = written err2 (map (mark_row messageId true at2))
                     (written err1 (fun table => table ++ [row]) (whatsapp_messages w))
              /\ trace w'
                 = trace w ++ [send; EvClock; EvClock; EvMsgInsert row; EvClock;
                               EvMsgUpdate messageId true at2])).
Proof.
  intros text send. unfold deliver_reply, bind. rewrite external_advance.
  fold text. fold send.
  destruct (sendWhatsAppMessage env (ticks w) fromNumber text (reply_auth_token reply)
              (reply_origin reply)) as [[ok err]|e].
  - destruct ok; cbn [send_success negb send_error].
    + rewrite !now_run, insert_message_run, update_message_run.
      unfold advance, ret. cbn [ticks shopify_chunks whatsapp_messages console trace].
      eexists. eexists. split; [reflexivity|].
      cbn [shopify_chunks whatsapp_messages console trace].
      split; [reflexivity|]. split; [reflexivity|]. right. right.
      do 5 eexists. cbv zeta. split; [reflexivity|]. split; [reflexivity|].
      rewrite <- !app_assoc. reflexivity.
    + rewrite update_message_run.
      unfold advance, ret. cbn [ticks shopify_chunks whatsapp_messages console trace].
      eexists. eexists. split; [reflexivity|].
      cbn [shopify_chunks whatsapp_messages console trace].
      split; [reflexivity|]. split; [reflexivity|]. right. left.
      do 3 eexists. split; [reflexivity|]. split; [reflexivity|].
      rewrite <- !app_assoc. reflexivity.
  - eexists. eexists. split; [reflexivity|].
    unfold advance. cbn [shopify_chunks whatsapp_messages console trace].
    split; [reflexivity|]. split; [reflexivity|]. left.
    eexists. repeat split.
Qed.

Lemma generateAutoResponse_cases env fromNumber toNumber messageText messageId w :
  exists result w' pre post,
    generateAutoResponse env fromNumber toNumber messageText messageId w = (Ret result, w')
    /\ shopify_chunks w' = shopify_chunks w
    /\ console w' = console w
    /\ trace w' = trace w ++ pre ++ post
    /\ Forall (prepare_event fromNumber toNumber messageText (whatsapp_messages w)) pre
    /\ ((result_shape result /\ response result = None
         /\ whatsapp_messages w' = whatsapp_messages w /\ post = [])
        \/ exists text token org,
             text <> EmptyString /\ token <> EmptyString /\ org <> EmptyString
             /\ let send := EvSend fromNumber text token org in
                ((exists msg,
                    result = failure msg
                    /\ whatsapp_messages w' = whatsapp_messages w
                    /\ post = [send])
                 \/ (exists msg err at_time,
                       result = mkResult false (Some text) (Some msg) None (Some false)
                       /\ whatsapp_messages w'
                          = written err (map (mark_row messageId false at_time))
                              (whatsapp_messages w)
                       /\ post = [send; EvClock; EvMsgUpdate messageId false at_time])
                 \/ (exists err1 err2 responseId at1 at2,
                       let row := outbound_row responseId fromNumber toNumber text at1 in
                       result = mkResult true (Some text) None None (Some true)
                       /\ whatsapp_messages w'
                          = written err2 (map (mark_row messageId true at2))
                              (written err1 (fun table => table ++ [row])
                                 (whatsapp_messages w))
                       /\ post = [send; EvClock; EvClock; EvMsgInsert row; EvClock;
                                  EvMsgUpdate messageId true at2]))).
Proof.
  pose proof (prepare_reply_calls env fromNumber toNumber messageText w)
    as [Hchunks [Hmsgs [Hconsole [pre [Htrace Hpre]]]]].
  pose proof (prepare_reply_returns env fromNumber toNumber messageText w) as Hshape.
  unfold generateAutoResponse, try_catch, generateAutoResponse_body, bind.
  destruct (prepare_reply env fromNumber toNumber messageText w)
    as [[[early|reply]|e] w1]; cbn [fst snd] in *.
  - unfold ret. exists early, w1, pre, []. rewrite app_nil_r.
    repeat (split; [first [reflexivity | assumption]|]).
    left. destruct Hshape as [Hs Hr]. repeat split; assumption.
  - destruct Hshape as [Htext [Htok Horg]].
    destruct (deliver_reply_cases env fromNumber toNumber messageId reply w1)
      as [outcome [w' [Hrun [Hc' [Ho' Hcases]]]]].
    rewrite Hrun.
    destruct Hcases
      as [[e [-> [Hm' Ht']]]
         |[[msg [err [at_time [-> [Hm' Ht']]]]]
          |[err1 [err2 [responseId [at1 [at2 [-> [Hm' Ht']]]]]]]]].
    + unfold ret. eexists. exists w', pre. eexists.
      split; [reflexivity|]. split; [congruence|]. split; [congruence|].
      split; [rewrite Ht', Htrace, <- app_assoc; reflexivity|]. split; [exact Hpre|].
      right. exists (reply_text reply), (reply_auth_token reply), (reply_origin reply).
      repeat (split; [assumption|]). left. exists (error_text e).
      repeat split. congruence.
    + eexists. exists w', pre. eexists.
      split; [reflexivity|]. split; [congruence|]. split; [congruence|].
      split; [rewrite Ht', Htrace, <- app_assoc; reflexivity|]. split; [exact Hpre|].
      right. exists (reply_text reply), (reply_auth_token reply), (reply_origin reply).
      repeat (split; [assumption|]). right. left. exists msg, err, at_time.
      split; [reflexivity|]. split; [congruence | reflexivity].
    + eexists. exists w', pre. eexists.
      split; [reflexivity|]. split; [congruence|]. split; [congruence|].
      split; [rewrite Ht', Htrace, <- app_assoc; reflexivity|]. split; [exact Hpre|].
      right. exists (reply_text reply), (reply_auth_token reply), (reply_origin reply).
      repeat (split; [assumption|]). right. right.
      exists err1, err2, responseId, at1, at2.
      split; [reflexivity|]. split; [congruence | reflexivity].
  - unfold ret. exists (failure (error_text e)), w1, pre, []. rewrite app_nil_r.
    repeat (split; [first [reflexivity | assumption]|]).
    left. repeat split; try assumption. apply shape_failed.
Qed.


(** ** Invariants of one handling of an inbound message *)

Lemma result_shape_facts result :
  result_shape result ->
  (success result = true <-> sent result = Some true)
  /\ (success result = true <-> result_error result = None)
  /\ (response result = None <-> sent result = None)
  /\ (noDocuments result = Some true -> response result = None).
Proof.
  intros [msg|msg|text msg Htext|text Htext]; cbn;
    repeat split; intros; congruence.
Qed.

(** X7. [generateAutoResponse] always returns one of four results: a
    configuration failure (no text, an error, [noDocuments] set), a plain
    failure (no text, an error), an unsent reply (non-empty text, an
    error, [sent = false]) or a sent reply (non-empty text, no error,
    [sent = true]).  So [success] holds exactly when [sent] is true and
    exactly when there is no error; [sent] is present exactly when a text
    is; and [noDocuments] is only set on results without text. *)
Theorem generateAutoResponse_result_shape :
  forall (env : Env) (fromNumber toNumber messageText messageId : string) (w : World),
  exists result w',
    generateAutoResponse env fromNumber toNumber messageText messageId w = (Ret result, w')
    /\ result_shape result
    /\ (success result = true <-> sent result = Some true)
    /\ (success result = true <-> result_error result = None)
    /\ (response result = None <-> sent result = None)
    /\ (noDocuments result = Some true -> response result = None).
Proof.
  intros env fromNumber toNumber messageText messageId w.
  destruct (generateAutoResponse_cases env fromNumber toNumber messageText messageId w)
    as [result [w' [pre [post [Hrun [_ [_ [_ [_ Hcases]]]]]]]]].
  exists result, w'. split; [exact Hrun|].
  assert (Hshape : result_shape result).
  { destruct Hcases as [[Hs _]|[text [token [org [Htext [_ [_ Hsend]]]]]]]; [exact Hs|].
    cbv zeta in Hsend.
    destruct Hsend as [[msg [-> _]]|[[msg [err [t [-> _]]]]|[e1 [e2 [rid [t1 [t2 [-> _]]]]]]]].
    - apply shape_failed.
    - now apply shape_unsent.
    - now apply shape_sent. }
  split; [exact Hshape | now apply result_shape_facts].
Qed.

Lemma prepare_event_reads fromNumber toNumber messageText table evs :
  Forall (prepare_event fromNumber toNumber messageText table) evs ->
  Forall (fun e => is_message_write e = false) evs /\ sends_of evs = [].
Proof.
  induction 1 as [|ev evs Hev _ [IHw IHs]]; [split; [constructor | reflexivity]|].
  destruct ev; cbn in Hev; try contradiction;
    (split; [constructor; [reflexivity | exact IHw] | exact IHs]).
Qed.

(** X8. A result without a response text means nothing was stored: both
    tables are as before the call and no update or insert of
    [whatsapp_messages] was issued. *)
Theorem no_reply_means_nothing_written :
  forall (env : Env) (fromNumber toNumber messageText messageId : string)
         (w w' : World) (result : AutoResponseResult),
    generateAutoResponse env fromNumber toNumber messageText messageId w = (Ret result, w') ->
    response result = None ->
    whatsapp_messages w' = whatsapp_messages w
    /\ shopify_chunks w' = shopify_chunks w
    /\ exists evs,
         trace w' = trace w ++ evs
         /\ Forall (fun e => is_message_write e = false) evs.
Proof.
  intros env fromNumber toNumber messageText messageId w w' result Hrun Hnone.
  destruct (generateAutoResponse_cases env fromNumber toNumber messageText messageId w)
    as [result0 [w0 [pre [post [Hrun0 [Hchunks [_ [Htrace [Hpre Hcases]]]]]]]]].
  rewrite Hrun in Hrun0. injection Hrun0 as <- <-.
  apply prepare_event_reads in Hpre. destruct Hpre as [Hpre _].
  destruct Hcases as [[_ [_ [Hmsgs ->]]]|[text [token [org [_ [_ [_ Hsend]]]]]]].
  - split; [exact Hmsgs|]. split; [exact Hchunks|].
    exists pre. rewrite app_nil_r in Htrace. now split.
  - cbv zeta in Hsend.
    destruct Hsend
      as [[msg [_ [Hmsgs ->]]]|[[msg [err [t [-> _]]]]|[e1 [e2 [rid [t1 [t2 [-> _]]]]]]]];
      try discriminate Hnone.
    split; [exact Hmsgs|]. split; [exact Hchunks|].
    eexists. split; [exact Htrace|].
    apply Forall_app. split; [exact Hpre|]. constructor; [reflexivity | constructor].
Qed.

(** X9. One handling sends at most one WhatsApp message; any message sent
    goes to the number the inbound message came from, with a non-empty
    text and non-empty credentials; and a result that carries a response
    text means exactly one send call was made, with that text. *)
Theorem at_most_one_send_to_the_sender :
  forall (env : Env) (fromNumber toNumber messageText messageId : string) (w : World),
  exists result w' evs,
    generateAutoResponse env fromNumber toNumber messageText messageId w = (Ret result, w')
    /\ trace w' = trace w ++ evs
    /\ List.length (sends_of evs) <= 1
    /\ (forall recipient text token org,
           In (EvSend recipient text token org) evs ->
           recipient = fromNumber /\ text <> EmptyString
           /\ token <> EmptyString /\ org <> EmptyString)
    /\ (forall text,
           response result = Some text ->
           exists token org, sends_of evs = [EvSend fromNumber text token org]).
Proof.
  intros env fromNumber toNumber messageText messageId w.
  destruct (generateAutoResponse_cases env fromNumber toNumber messageText messageId w)
    as [result [w' [pre [post [Hrun [_ [_ [Htrace [Hpre Hcases]]]]]]]]].
  exists result, w', (pre ++ post). split; [exact Hrun|]. split; [exact Htrace|].
  assert (Hin : forall recipient text token org,
             ~ In (EvSend recipient text token org) pre).
  { intros recipient text token org Hin.
    rewrite Forall_forall in Hpre. exact (Hpre _ Hin). }
  apply prepare_event_reads in Hpre. destruct Hpre as [_ Hnone].
  unfold sends_of in *. rewrite filter_app, Hnone, app_nil_l.
  destruct Hcases as [[_ [Hresp [_ ->]]]|[text [token [org [Htext [Htok [Horg Hsend]]]]]]].
  - cbn [filter List.length]. split; [lia|]. split.
    + intros recipient text token org H. rewrite app_nil_r in H.
      now apply Hin in H.
    + intros text H. congruence.
  - cbv zeta in Hsend.
    assert (Hpost : filter (fun e => match e with
                                     | EvSend _ _ _ _ => true
                                     | _ => false
                                     end) post
                    = [EvSend fromNumber text token org]
                    /\ (forall ev, In ev post ->
                          match ev with
                          | EvSend _ _ _ _ => ev = EvSend fromNumber text token org
                          | _ => True
                          end)
                    /\ (forall body, response result = Some body -> body = text)).
    { destruct Hsend
        as [[msg [-> [_ ->]]]|[[msg [err [t [-> [_ ->]]]]]
                              |[e1 [e2 [rid [t1 [t2 [-> [_ ->]]]]]]]]];
        (split; [reflexivity|]);
        (split; [intros ev Hev; cbn [In] in Hev;
                 repeat (destruct Hev as [<-|Hev]; [first [reflexivity | exact I]|]);
                 contradiction
                |intros body Hbody; cbn in Hbody; congruence]). }
    destruct Hpost as [Hfilter [Hposts Hbody]]. rewrite Hfilter.
    split; [cbn; lia|]. split.
    + intros recipient body tok o H. apply in_app_or in H. destruct H as [H|H].
      * now apply Hin in H.
      * apply Hposts in H. injection H as -> -> -> ->. auto.
    + intros body H. apply Hbody in H. subst body. now exists token, org.
Qed.

Lemma touched_same messageId l : Forall2 (touched messageId) l l.
Proof. induction l; constructor; [now left | assumption]. Qed.

Lemma touched_marked messageId flag at_time l :
  Forall2 (touched messageId) l (map (mark_row messageId flag at_time) l).
Proof.
  induction l as [|m l IH]; cbn [map]; constructor; [|exact IH].
  destruct (String.eqb (message_id m) messageId) eqn:He.
  - right. split; [now apply String.eqb_eq|]. now exists flag, at_time.
  - left. unfold mark_row. now rewrite He.
Qed.

Lemma touched_written messageId err flag at_time l :
  Forall2 (touched messageId) l
    (written err (map (mark_row messageId flag at_time)) l).
Proof.
  unfold written. destruct err; [apply touched_same | apply touched_marked].
Qed.

(** X10. One handling leaves [shopify_chunks] and the console untouched,
    appends at most one row to [whatsapp_messages], and changes no stored
    row except by the update of the rows with the inbound message id.  An
    appended row is an outbound turn: from the business number to the
    customer, of type [MtMessage], flagged as an automatic response, with
    a non-empty text.  Nothing is appended unless the result is a
    success. *)
Theorem writes_are_confined_to_the_conversation :
  forall (env : Env) (fromNumber toNumber messageText messageId : string) (w : World),
  exists result w' added,
    generateAutoResponse env fromNumber toNumber messageText messageId w = (Ret result, w')
    /\ shopify_chunks w' = shopify_chunks w
    /\ console w' = console w
    /\ List.length added <= 1
    /\ Forall (outbound fromNumber toNumber) added
    /\ Forall2 (touched messageId) (whatsapp_messages w ++ added) (whatsapp_messages w')
    /\ (success result = false -> added = []).
Proof.
  intros env fromNumber toNumber messageText messageId w.
  destruct (generateAutoResponse_cases env fromNumber toNumber messageText messageId w)
    as [result [w' [pre [post [Hrun [Hchunks [Hconsole [_ [_ Hcases]]]]]]]]].
  exists result, w'.
  destruct Hcases as [[_ [_ [Hmsgs _]]]|[text [token [org [Htext [_ [_ Hsend]]]]]]].
  - exists []. rewrite app_nil_r, Hmsgs.
    repeat (split; [first [assumption | cbn; lia | solve [constructor] | apply touched_same]|]). reflexivity.
  - cbv zeta in Hsend.
    destruct Hsend
      as [[msg [-> [Hmsgs _]]]|[[msg [err [t [-> [Hmsgs _]]]]]
                               |[e1 [e2 [rid [t1 [t2 [-> [Hmsgs _]]]]]]]]].
    + exists []. rewrite app_nil_r, Hmsgs.
      repeat (split; [first [assumption | cbn; lia | solve [constructor] | apply touched_same]|]). reflexivity.
    + exists []. rewrite app_nil_r, Hmsgs.
      repeat (split; [first [assumption | cbn; lia | solve [constructor] | apply touched_written]|]).
      reflexivity.
    + destruct e1 as [pg|]; cbn [written] in Hmsgs.
      * exists []. rewrite app_nil_r, Hmsgs.
        repeat (split; [first [assumption | cbn; lia | solve [constructor] | apply touched_written]|]).
        discriminate.
      * exists [outbound_row rid fromNumber toNumber text t1]. rewrite Hmsgs.
        split; [exact Hrun|]. split; [exact Hchunks|]. split; [exact Hconsole|].
        split; [cbn; lia|]. split.
        { constructor; [|constructor]. unfold outbound, outbound_row.
          cbn [from_number to_number event_type is_auto_response content_text].
          repeat split. now exists text. }
        split; [apply touched_written | discriminate].
Qed.

Lemma prepare_event_allowed fromNumber toNumber messageText messageId table ev :
  prepare_event fromNumber toNumber messageText table ev ->
  orchestrator_event fromNumber toNumber messageText messageId ev.
Proof. destruct ev; cbn; try contradiction; auto. Qed.

(** X11. Every call one handling makes is tied to the inbound message:
    the data-source, store, file and mapping lookups are keyed by the
    business number, the history read by the customer's number, the
    embedding is taken of the inbound text, searches ask for five
    matches, the send goes to the customer, the update addresses the
    inbound message id and the insert is an outbound turn of this
    conversation.  No product, page or collection listing and no chunk
    delete or insert is ever requested. *)
Theorem calls_are_tied_to_the_inbound_message :
  forall (env : Env) (fromNumber toNumber messageText messageId : string) (w : World),
  exists result w' evs,
    generateAutoResponse env fromNumber toNumber messageText messageId w = (Ret result, w')
    /\ trace w' = trace w ++ evs
    /\ Forall (orchestrator_event fromNumber toNumber messageText messageId) evs.
Proof.
  intros env fromNumber toNumber messageText messageId w.
  destruct (generateAutoResponse_cases env fromNumber toNumber messageText messageId w)
    as [result [w' [pre [post [Hrun [_ [_ [Htrace [Hpre Hcases]]]]]]]]].
  exists result, w', (pre ++ post). split; [exact Hrun|]. split; [exact Htrace|].
  apply Forall_app. split.
  - eapply Forall_impl; [|exact Hpre]. intros ev. apply prepare_event_allowed.
  - destruct Hcases as [[_ [_ [_ ->]]]|[text [token [org [Htext [_ [_ Hsend]]]]]]];
      [constructor|].
    cbv zeta in Hsend.
    destruct Hsend
      as [[msg [_ [_ ->]]]|[[msg [err [t [_ [_ ->]]]]]
                           |[e1 [e2 [rid [t1 [t2 [_ [_ ->]]]]]]]]];
      repeat (constructor; cbn [orchestrator_event]; try reflexivity; try exact I).
    unfold outbound, outbound_row.
    cbn [from_number to_number event_type is_auto_response content_text].
    repeat split. now exists text.
Qed.

Lemma no_reply_example :
  let env := with_chat_completion demo_env
               (fun _ _ => Ret (mkCompletion [Some EmptyString])) in
  let run := generateAutoResponse env "cust" "biz" "hello" "wamid.7"
               (world_with_messages [inbound_turn 7]) in
  fst run = Ret (failure "No response generated from LLM")
  /\ whatsapp_messages (snd run) = [inbound_turn 7].
Proof.
  intros env run. split; [vm_compute; reflexivity|].
  apply (no_reply_means_nothing_written env "cust" "biz" "hello" "wamid.7"
           (world_with_messages [inbound_turn 7]) (snd run)
           (failure "No response generated from LLM")).
  - vm_compute. reflexivity.
  - reflexivity.
Defined.




(** A turn the customer exchanged with another business number is part
    of the history of the prompt. *)
Lemma other_business_turn_example :
  map (fun messages => map content (history_part messages))
      (prompts_of
         (trace (snd (generateAutoResponse demo_env "cust" "biz" "hello" "wamid.9"
                        (world_with_messages [turn_with_other_business; inbound_turn 7])))))
  = [["where is my parcel?"; "turn 7"]%string].
Proof. vm_compute. reflexivity. Qed.


(** ** Nothing to search *)

Lemma prepare_reply_with_mapping env fromNumber toNumber messageText w ds first rest :
  getDataSourceForPhone env (ticks w) toNumber = Ret (Some ds) ->
  Js.truthy ds = true ->
  phone_mapping_query env (ticks w + 1) toNumber
  = mkQueryResult (Some (first :: rest)) None ->
  prepare_reply env fromNumber toNumber messageText w
  = answer_with_mapping env ds fromNumber toNumber messageText first
      (advance w 2 [EvGetDataSource toNumber; EvQuery "phone_document_mapping" toNumber]).
Proof.
  intros Hds Htruthy Hrows.
  rewrite (prepare_reply_after_data_source env fromNumber toNumber messageText w ds
             Hds Htruthy).
  unfold bind.
  rewrite fetch_phone_mappings_first_try
    by (cbn [advance ticks]; now rewrite Hrows).
  cbn [advance ticks]. rewrite Hrows, advance_advance. reflexivity.
Qed.

(** X13. With a data source, a mapping row and credentials in place:
    when the embedder returns [null] for the inbound text the result is
    the "Failed to generate embedding" failure; when the data source is
    ["shopify"] and no store is mapped to the business number, or the
    data source is anything else and no file is mapped, the result is
    the corresponding failure with [noDocuments] set.  In each case no
    search is run, the language model is not called, nothing is sent and
    nothing is written. *)
Theorem nothing_to_search_stops_before_the_model :
  forall (env : Env) (fromNumber toNumber messageText messageId ds : string)
         (w : World) (first : MappingRow) (rest : list MappingRow),
    getDataSourceForPhone env (ticks w) toNumber = Ret (Some ds) ->
    Js.truthy ds = true ->
    phone_mapping_query env (ticks w + 1) toNumber
    = mkQueryResult (Some (first :: rest)) None ->
    Js.truthy_opt (auth_token first) = true ->
    Js.truthy_opt (origin first) = true ->
    let lookups := [EvGetDataSource toNumber; EvQuery "phone_document_mapping" toNumber;
                    EvEmbed messageText] in
    (embedText env (ticks w + 2) messageText = Ret None ->
     generateAutoResponse env fromNumber toNumber messageText messageId w
     = (Ret (mkResult false None (Some "Failed to generate embedding for message"%string)
               None None),
        advance w 3 lookups))
    /\ (forall q store,
           embedText env (ticks w + 2) messageText = Ret (Some q) ->
           ds = "shopify"%string ->
           getShopifyStoreForPhoneNumber env (ticks w + 3) toNumber = Ret store ->
           Js.truthy_opt store = false ->
           generateAutoResponse env fromNumber toNumber messageText messageId w
           = (Ret (mkResult false None
                     (Some "No Shopify store mapped to this business number"%string)
                     (Some true) None),
              advance w 4 (lookups ++ [EvGetShopifyStore toNumber])))
    /\ (forall q,
           embedText env (ticks w + 2) messageText = Ret (Some q) ->
           ds <> "shopify"%string ->
           getFilesForPhoneNumber env (ticks w + 3) toNumber = Ret [] ->
           generateAutoResponse env fromNumber toNumber messageText messageId w
           = (Ret (mkResult false None
                     (Some "No documents mapped to this business number"%string)
                     (Some true) None),
              advance w 4 (lookups ++ [EvGetFiles toNumber]))).
Proof.
  intros env fromNumber toNumber messageText messageId ds w first rest Hds Htruthy
         Hrows Htok Horg lookups.
  pose proof (prepare_reply_with_mapping env fromNumber toNumber messageText w ds
                first rest Hds Htruthy Hrows) as Hprep.
  unfold answer_with_mapping in Hprep. rewrite Htok, Horg in Hprep.
  cbn [andb] in Hprep. unfold bind at 1 in Hprep.
  rewrite external_advance, advance_advance in Hprep.
  cbn [advance ticks Nat.add app] in Hprep.
  split; [|split].
  - intros Hembed. apply generateAutoResponse_early.
    rewrite Hprep, Hembed. reflexivity.
  - intros q store Hembed -> Hstore Hfalsy. apply generateAutoResponse_early.
    rewrite Hprep, Hembed. unfold bind at 1, retrieve_context.
    cbn [is_shopify String.eqb Ascii.eqb Bool.eqb]. unfold bind at 1.
    rewrite external_advance, advance_advance.
    cbn [advance ticks Nat.add app]. rewrite Hstore, Hfalsy. reflexivity.
  - intros q Hembed Hother Hfiles. apply generateAutoResponse_early.
    rewrite Hprep, Hembed. unfold bind at 1, retrieve_context.
    apply String.eqb_neq in Hother. unfold is_shopify. rewrite Hother.
    unfold bind at 1. rewrite external_advance, advance_advance.
    cbn [advance ticks Nat.add app]. rewrite Hfiles. reflexivity.
Qed.

Lemma nothing_to_search_examples :
  fst (generateAutoResponse (with_embedText demo_env (fun _ _ => Ret None))
         "cust" "biz" "hello" "wamid.7" (world_with_messages [inbound_turn 7]))
  = Ret (failure "Failed to generate embedding for message")
  /\ fst (generateAutoResponse
            (with_data_source demo_env (fun _ _ => Ret (Some "shopify"%string)))
            "cust" "biz" "hello" "wamid.7" (world_with_messages [inbound_turn 7]))
     = Ret (failure_no_documents "No Shopify store mapped to this business number")
  /\ fst (generateAutoResponse (with_files demo_env (fun _ _ => Ret []))
            "cust" "biz" "hello" "wamid.7" (world_with_messages [inbound_turn 7]))
     = Ret (failure_no_documents "No documents mapped to this business number").
Proof.
  split; [|split].
  - rewrite (proj1 (nothing_to_search_stops_before_the_model
                      (with_embedText demo_env (fun _ _ => Ret None))
                      "cust" "biz" "hello" "wamid.7" "file"
                      (world_with_messages [inbound_turn 7]) demo_mapping []
                      eq_refl eq_refl eq_refl eq_refl eq_refl) eq_refl).
    reflexivity.
  - rewrite (proj1 (proj2 (nothing_to_search_stops_before_the_model
                             (with_data_source demo_env
                                (fun _ _ => Ret (Some "shopify"%string)))
                             "cust" "biz" "hello" "wamid.7" "shopify"
                             (world_with_messages [inbound_turn 7]) demo_mapping []
                             eq_refl eq_refl eq_refl eq_refl eq_refl))
               [1 # 2; 1 # 3]%Q None eq_refl eq_refl eq_refl eq_refl).
    reflexivity.
  - rewrite (proj2 (proj2 (nothing_to_search_stops_before_the_model
                             (with_files demo_env (fun _ _ => Ret []))
                             "cust" "biz" "hello" "wamid.7" "file"
                             (world_with_messages [inbound_turn 7]) demo_mapping []
                             eq_refl eq_refl eq_refl eq_refl eq_refl))
               [1 # 2; 1 # 3]%Q eq_refl ltac:(discriminate) eq_refl).
    reflexivity.
Defined.


(** ** Removing tags *)

Lemma after_tag_end_shorter s : forall r, after_tag_end s = Some r ->
  String.length r < String.length s.
Proof.
  induction s as [|c s IH]; intros r H; cbn in *; [discriminate|].
  destruct (Ascii.eqb c ">").
  - injection H as <-. lia.
  - apply IH in H. lia.
Qed.

Lemma after_tag_end_none s : after_tag_end s = None <-> has_char ">" s = false.
Proof.
  induction s as [|c s IH]; cbn; [tauto|].
  destruct (Ascii.eqb c ">"); cbn; [split; discriminate | exact IH].
Qed.

Lemma strip_tags_fuel_enough n : forall m s,
  String.length s <= n -> String.length s <= m ->
  strip_tags_fuel n s = strip_tags_fuel m s.
Proof.
  induction n as [|n IH]; intros m [|c r] Hn Hm; cbn in Hn, Hm.
  - now destruct m.
  - lia.
  - now destruct m.
  - destruct m as [|m]; [lia|]. cbn [strip_tags_fuel].
    destruct (Ascii.eqb c "<").
    + destruct (after_tag_end r) as [r'|] eqn:Hr; [|reflexivity].
      apply after_tag_end_shorter in Hr. apply IH; lia.
    + f_equal. apply IH; lia.
Qed.

(** The unfolding of [strip_tags] at a character. *)
Lemma strip_tags_cons c r :
  strip_tags (String c r)
  = if Ascii.eqb c "<" then
      match after_tag_end r with
      | Some r' => strip_tags r'
      | None => String c r
      end
    else String c (strip_tags r).
Proof.
  unfold strip_tags. cbn [String.length strip_tags_fuel].
  destruct (Ascii.eqb c "<").
  - destruct (after_tag_end r) as [r'|] eqn:Hr; [|reflexivity].
    apply after_tag_end_shorter in Hr. apply strip_tags_fuel_enough; lia.
  - reflexivity.
Qed.

Lemma no_closing_tag_free s : has_char ">" s = false -> tag_free s = true.
Proof.
  induction s as [|c s IH]; cbn; [reflexivity|]. intros H.
  apply orb_false_iff in H. destruct H as [_ H].
  rewrite H, andb_false_r. cbn. now apply IH.
Qed.

Lemma strip_tags_by_length n : forall s,
  String.length s <= n ->
  tag_free (strip_tags s) = true /\ String.length (strip_tags s) <= String.length s.
Proof.
  induction n as [|n IH]; intros [|c r] Hlen; cbn in Hlen;
    try (split; [reflexivity | cbn; lia]); [lia|].
  rewrite strip_tags_cons. destruct (Ascii.eqb c "<") eqn:Hc.
  - destruct (after_tag_end r) as [r'|] eqn:Hr.
    + pose proof (after_tag_end_shorter _ _ Hr) as Hshort.
      destruct (IH r' ltac:(lia)) as [Hfree Hle]. split; [exact Hfree|].
      cbn [String.length]. lia.
    + apply after_tag_end_none in Hr. split; [|lia].
      cbn [tag_free]. rewrite Hr, andb_false_r. cbn. now apply no_closing_tag_free.
  - destruct (IH r ltac:(lia)) as [Hfree Hle]. split.
    + cbn [tag_free]. rewrite Hc. cbn. exact Hfree.
    + cbn [String.length]. lia.
Qed.

Lemma strip_tags_fixes_tag_free s : tag_free s = true -> strip_tags s = s.
Proof.
  induction s as [|c r IH]; [reflexivity|]. cbn [tag_free]. intros H.
  apply andb_true_iff in H. destruct H as [Hhead Hrest].
  rewrite strip_tags_cons. destruct (Ascii.eqb c "<").
  - cbn in Hhead. apply negb_true_iff in Hhead.
    apply after_tag_end_none in Hhead. now rewrite Hhead.
  - f_equal. now apply IH.
Qed.

Lemma after_tag_end_append t b :
  has_char ">" t = false -> after_tag_end (t ++ String ">" b)%string = Some b.
Proof.
  induction t as [|c t IH]; cbn; [reflexivity|]. intros H.
  apply orb_false_iff in H. destruct H as [Hc Ht]. rewrite Hc. now apply IH.
Qed.

Lemma strip_tags_first_tag a t b :
  has_char "<" a = false -> has_char ">" t = false ->
  strip_tags (a ++ String "<" (t ++ String ">" b))%string = (a ++ strip_tags b)%string.
Proof.
  intros Ha Ht. induction a as [|c a IH]; cbn [String.append].
  - rewrite strip_tags_cons. cbn [Ascii.eqb Bool.eqb].
    now rewrite after_tag_end_append.
  - cbn [has_char] in Ha. apply orb_false_iff in Ha. destruct Ha as [Hc Ha].
    rewrite strip_tags_cons, Hc. f_equal. now apply IH.
Qed.

(** X14. The tag removal [replace(/<[^>]*>/g, '')] used by the three
    formatters: a text without [<] before a tag is kept up to the tag,
    the tag (from [<] to the next [>]) is dropped and removal goes on
    after it; the result holds no [<] that is closed by a later [>], is
    never longer than the input, and removing tags again changes
    nothing.  A text in which no [<] is closed, in particular one with an
    unclosed [<], is left as it is. *)
Theorem strip_tags_removes_every_tag :
  forall s : string,
    tag_free (strip_tags s) = true
    /\ String.length (strip_tags s) <= String.length s
    /\ strip_tags (strip_tags s) = strip_tags s
    /\ (tag_free s = true -> strip_tags s = s)
    /\ (forall a t b : string,
           s = (a ++ String "<" (t ++ String ">" b))%string ->
           has_char "<" a = false -> has_char ">" t = false ->
           strip_tags s = (a ++ strip_tags b)%string).
Proof.
  intros s.
  destruct (strip_tags_by_length (String.length s) s (le_n _)) as [Hfree Hlen].
  split; [exact Hfree|]. split; [exact Hlen|].
  split; [now apply strip_tags_fixes_tag_free|].
  split; [apply strip_tags_fixes_tag_free|].
  intros a t b -> Ha Ht. now apply strip_tags_first_tag.
Qed.


(** ** The texts of products, pages and collections *)

Lemma trim_end_keeps c r :
  Js.is_space c = false -> Js.trim_end (String c r) = String c (Js.trim_end r).
Proof.
  intros Hc. cbn [Js.trim_end]. rewrite Hc. now destruct (Js.trim_end r).
Qed.

Lemma trim_end_again s : Js.trim_end (Js.trim_end s) = Js.trim_end s.
Proof.
  induction s as [|c r IH]; [reflexivity|]. cbn [Js.trim_end].
  destruct (Js.trim_end r) as [|d r'] eqn:Hr.
  - destruct (Js.is_space c) eqn:Hc; [reflexivity|].
    cbn [Js.trim_end]. now rewrite Hc.
  - cbn [Js.trim_end] in IH |- *. now rewrite IH.
Qed.

Lemma trim_start_head s :
  Js.trim_start s = EmptyString
  \/ exists c r, Js.trim_start s = String c r /\ Js.is_space c = false.
Proof.
  induction s as [|c r IH]; [now left|]. cbn [Js.trim_start].
  destruct (Js.is_space c) eqn:Hc; [exact IH|]. right. now exists c, r.
Qed.

Lemma trim_again s : Js.trim (Js.trim s) = Js.trim s.
Proof.
  unfold Js.trim. destruct (trim_start_head s) as [-> | [c [r [-> Hc]]]]; [reflexivity|].
  rewrite (trim_end_keeps c r Hc). cbn [Js.trim_start]. rewrite Hc.
  rewrite <- (trim_end_keeps c r Hc). apply trim_end_again.
Qed.

Lemma prefix_append label rest : String.prefix label (label ++ rest)%string = true.
Proof.
  induction label as [|c label IH]; cbn; [now destruct rest|].
  now destruct (ascii_dec c c).
Qed.

Lemma trim_keeps_label label rest :
  no_space label = true -> label <> EmptyString ->
  exists rest', Js.trim (label ++ rest)%string = (label ++ rest')%string.
Proof.
  intros Hlabel Hne. destruct label as [|c label]; [contradiction|].
  cbn [no_space] in Hlabel. apply andb_true_iff in Hlabel.
  destruct Hlabel as [Hc Hlabel]. apply negb_true_iff in Hc.
  unfold Js.trim. cbn [String.append Js.trim_start]. rewrite Hc.
  assert (Hend : forall l, no_space l = true ->
            exists rest', Js.trim_end (l ++ rest)%string = (l ++ rest')%string).
  { induction l as [|d l IH]; intros Hl.
    - now exists (Js.trim_end rest).
    - cbn [no_space] in Hl. apply andb_true_iff in Hl. destruct Hl as [Hd Hl].
      apply negb_true_iff in Hd. destruct (IH Hl) as [rest' Hrest'].
      exists rest'. cbn [String.append]. now rewrite (trim_end_keeps d _ Hd), Hrest'. }
  destruct (Hend label Hlabel) as [rest' Hrest'].
  exists rest'. now rewrite (trim_end_keeps c _ Hc), Hrest'.
Qed.

Lemma trimmed_text_is_labelled label rest :
  no_space label = true -> label <> EmptyString ->
  labelled label (Js.trim (label ++ rest)%string).
Proof.
  intros Hlabel Hne. destruct (trim_keeps_label label rest Hlabel Hne) as [rest' Heq].
  split; [|split].
  - rewrite Heq. apply prefix_append.
  - apply trim_again.
  - rewrite Heq. destruct label as [|c label]; [contradiction|].
    cbn [no_space] in Hlabel. apply andb_true_iff in Hlabel.
    destruct Hlabel as [Hc _]. apply negb_true_iff in Hc.
    cbn [String.append blank]. now rewrite Hc.
Qed.

(** X15. Whatever the title, the description or body, the variants and
    the images of a record are (empty and blank ones included), the text
    built for a product begins with [Product:], for a page with [Page:]
    and for a collection with [Collection:]; it has no white space at
    either end and is never blank. *)
Theorem record_texts_are_labelled_and_trimmed :
  forall (parseFloat : string -> option Q) (toFixed2 : Q -> string)
         (product : ShopifyProduct) (page : ShopifyPage) (collection : ShopifyCollection),
    labelled "Product:" (productToText parseFloat toFixed2 product)
    /\ labelled "Page:" (pageToText page)
    /\ labelled "Collection:" (collectionToText collection).
Proof.
  intros parseFloat toFixed2 product page collection.
  split; [|split].
  - unfold productToText.
    change ("Product: " ++ ?x)%string with ("Product:" ++ (" " ++ x))%string.
    apply trimmed_text_is_labelled; [reflexivity | discriminate].
  - unfold pageToText.
    change ("Page: " ++ ?x)%string with ("Page:" ++ (" " ++ x))%string.
    apply trimmed_text_is_labelled; [reflexivity | discriminate].
  - unfold collectionToText.
    change ("Collection: " ++ ?x)%string with ("Collection:" ++ (" " ++ x))%string.
    apply trimmed_text_is_labelled; [reflexivity | discriminate].
Qed.


(** ** The price line of a product *)

Lemma q_min_spec a b :
  (q_min a b = a \/ q_min a b = b) /\ (q_min a b <= a)%Q /\ (q_min a b <= b)%Q.
Proof.
  unfold q_min. destruct (Qle_bool a b) eqn:H.
  - apply Qle_bool_iff in H. repeat split; [now left | apply Qle_refl | exact H].
  - assert (Hlt : (b < a)%Q).
    { apply Qnot_le_lt. intros Hle. apply Qle_bool_iff in Hle. congruence. }
    repeat split; [now right | now apply Qlt_le_weak | apply Qle_refl].
Qed.

Lemma q_max_spec a b :
  (q_max a b = a \/ q_max a b = b) /\ (a <= q_max a b)%Q /\ (b <= q_max a b)%Q.
Proof.
  unfold q_max. destruct (Qle_bool a b) eqn:H.
  - apply Qle_bool_iff in H. repeat split; [now right | exact H | apply Qle_refl].
  - assert (Hlt : (b < a)%Q).
    { apply Qnot_le_lt. intros Hle. apply Qle_bool_iff in Hle. congruence. }
    repeat split; [now left | apply Qle_refl | now apply Qlt_le_weak].
Qed.

Lemma fold_q_min ps : forall p,
  In (fold_left q_min ps p) (p :: ps)
  /\ forall x, In x (p :: ps) -> (fold_left q_min ps p <= x)%Q.
Proof.
  induction ps as [|a ps IH]; intros p; cbn [fold_left].
  - split; [now left|]. intros x [<-|[]]. apply Qle_refl.
  - destruct (IH (q_min p a)) as [Hin Hle].
    destruct (q_min_spec p a) as [Hor [Hp Ha]]. split.
    + destruct Hin as [Hin|Hin]; [|now right; right].
      rewrite <- Hin. destruct Hor as [-> | ->]; [now left | now right; left].
    + intros x [<-|[<-|Hx]].
      * eapply Qle_trans; [apply Hle; now left | exact Hp].
      * eapply Qle_trans; [apply Hle; now left | exact Ha].
      * apply Hle. now right.
Qed.

Lemma fold_q_max ps : forall p,
  In (fold_left q_max ps p) (p :: ps)
  /\ forall x, In x (p :: ps) -> (x <= fold_left q_max ps p)%Q.
Proof.
  induction ps as [|a ps IH]; intros p; cbn [fold_left].
  - split; [now left|]. intros x [<-|[]]. apply Qle_refl.
  - destruct (IH (q_max p a)) as [Hin Hle].
    destruct (q_max_spec p a) as [Hor [Hp Ha]]. split.
    + destruct Hin as [Hin|Hin]; [|now right; right].
      rewrite <- Hin. destruct Hor as [-> | ->]; [now left | now right; left].
    + intros x [<-|[<-|Hx]].
      * eapply Qle_trans; [exact Hp | apply Hle; now left].
      * eapply Qle_trans; [exact Ha | apply Hle; now left].
      * apply Hle. now right.
Qed.

(** X16. The price line of a product.  Without a variant whose price
    parses there is no price line.  Otherwise the line names the lowest
    and the highest of the parsed prices, with the currency code of the
    first variant (whether or not that variant's own price parsed): as
    [Price: <currency> <price>] when all parsed prices are equal, as
    [Price Range: <currency> <lowest> - <currency> <highest>] when they
    are not. *)
Theorem price_line_names_lowest_and_highest :
  forall (parseFloat : string -> option Q) (toFixed2 : Q -> string)
         (variants : list Variant),
    let prices := parsed_prices parseFloat variants in
    (prices = [] -> price_line parseFloat toFixed2 variants = EmptyString)
    /\ (prices <> [] ->
        exists v rest lowest highest,
          variants = v :: rest
          /\ In lowest prices /\ In highest prices
          /\ (forall x, In x prices -> (lowest <= x <= highest)%Q)
          /\ (single_price prices ->
              price_line parseFloat toFixed2 variants
              = ("Price: " ++ price_currencyCode v ++ " " ++ toFixed2 lowest ++ nl)%string)
          /\ (~ single_price prices ->
              price_line parseFloat toFixed2 variants
              = ("Price Range: " ++ price_currencyCode v ++ " " ++ toFixed2 lowest
                 ++ " - " ++ price_currencyCode v ++ " " ++ toFixed2 highest
                 ++ nl)%string)).
Proof.
  intros parseFloat toFixed2 variants prices. subst prices. split.
  - intros H. unfold price_line. now rewrite H.
  - intros Hne. destruct variants as [|v rest]; [now elim Hne|].
    unfold price_line.
    destruct (parsed_prices parseFloat (v :: rest)) as [|p ps]; [now elim Hne|].
    destruct (fold_q_min ps p) as [Hlo_in Hlo].
    destruct (fold_q_max ps p) as [Hhi_in Hhi].
    exists v, rest, (fold_left q_min ps p), (fold_left q_max ps p).
    split; [reflexivity|]. split; [exact Hlo_in|]. split; [exact Hhi_in|].
    split; [intros x Hx; split; [now apply Hlo | now apply Hhi]|].
    split.
    + intros Hsingle.
      assert (Heq : Qeq_bool (fold_left q_min ps p) (fold_left q_max ps p) = true).
      { apply Qeq_bool_iff. now apply Hsingle. }
      now rewrite Heq.
    + intros Hmany.
      destruct (Qeq_bool (fold_left q_min ps p) (fold_left q_max ps p)) eqn:Heq;
        [|reflexivity].
      apply Qeq_bool_iff in Heq. elim Hmany. intros x y Hx Hy.
      assert (Hxl : (x == fold_left q_min ps p)%Q).
      { apply Qle_antisym; [rewrite Heq; now apply Hhi | now apply Hlo]. }
      assert (Hyl : (y == fold_left q_min ps p)%Q).
      { apply Qle_antisym; [rewrite Heq; now apply Hhi | now apply Hlo]. }
      now rewrite Hxl, Hyl.
Qed.


(** ** Ingestion: a failed embedding *)

(** X17. When the embedder returns [null] for a chunk, [storeChunk]
    throws "Failed to generate embedding for chunk: " followed by the
    chunk's title; when the embedder itself throws, that exception
    passes through.  In both cases no insert is attempted, no row is
    stored, and the loop over the record's chunks stops without touching
    the chunks that remain.  When the embedder answers and the store
    accepts the insert, exactly one row is appended: the chunk with the
    store's id and the embedding. *)
Theorem failed_embedding_aborts_without_insert :
  forall (env : Env) (storeId : string) (chunkData : ShopifyChunkData)
         (rest : list ShopifyChunkData) (w : World),
    let embedded := advance w 1 [EvEmbed (cd_text chunkData)] in
    (embedText env (ticks w) (cd_text chunkData) = Ret None ->
     let failed :=
       (Throw (JsError ("Failed to generate embedding for chunk: "
                        ++ cd_title chunkData)%string),
        embedded) in
     storeChunk env storeId chunkData w = failed
     /\ for_each (storeChunk env storeId) (chunkData :: rest) w = failed)
    /\ (forall e,
           embedText env (ticks w) (cd_text chunkData) = Throw e ->
           storeChunk env storeId chunkData w = (Throw e, embedded)
           /\ for_each (storeChunk env storeId) (chunkData :: rest) w
              = (Throw e, embedded))
    /\ (forall emb,
           embedText env (ticks w) (cd_text chunkData) = Ret (Some emb) ->
           chunk_store_error env (ticks w + 1) = None ->
           exists w',
             storeChunk env storeId chunkData w = (Ret tt, w')
             /\ shopify_chunks w'
                = shopify_chunks w
                  ++ [mkChunkRow storeId (cd_content_type chunkData)
                        (cd_content_id chunkData) (cd_title chunkData)
                        (cd_text chunkData) emb (cd_metadata chunkData)]
             /\ for_each (storeChunk env storeId) (chunkData :: rest) w
                = for_each (storeChunk env storeId) rest w').
Proof.
  intros env storeId chunkData rest w embedded. split; [|split].
  - intros Hemb failed.
    assert (Hrun : storeChunk env storeId chunkData w = failed)
      by (rewrite storeChunk_run, Hemb; reflexivity).
    split; [exact Hrun|]. cbn [for_each]. unfold bind. now rewrite Hrun.
  - intros e Hemb.
    assert (Hrun : storeChunk env storeId chunkData w = (Throw e, embedded))
      by (rewrite storeChunk_run, Hemb; reflexivity).
    split; [exact Hrun|]. cbn [for_each]. unfold bind. now rewrite Hrun.
  - intros emb Hemb Hstore.
    assert (Hrun : storeChunk env storeId chunkData w
                   = (Ret tt, after_insert storeId w chunkData emb true []))
      by (rewrite storeChunk_run, Hemb, Hstore; reflexivity).
    eexists. split; [exact Hrun|]. split; [reflexivity|].
    cbn [for_each]. unfold bind. now rewrite Hrun.
Qed.

Lemma failed_embedding_example :
  for_each (storeChunk (with_embedText demo_env (fun _ _ => Ret None)) "store-1")
    [mug_chunk; mug_chunk_2] stale_world
  = (Throw (JsError "Failed to generate embedding for chunk: Blue Mug"),
     advance stale_world 1 [EvEmbed "Product: Blue Mug"]).
Proof.
  apply (proj1 (failed_embedding_aborts_without_insert
                  (with_embedText demo_env (fun _ _ => Ret None)) "store-1"
                  mug_chunk [mug_chunk_2] stale_world)).
  reflexivity.
Defined.

(** ** Ingestion: the order of the calls *)

Lemma emits_refl P w : emits P w w.
Proof. split; [reflexivity|]. exists []. split; [now rewrite app_nil_r | constructor]. Qed.

Lemma emits_trans P w1 w2 w3 : emits P w1 w2 -> emits P w2 w3 -> emits P w1 w3.
Proof.
  intros [Hm1 [e1 [Ht1 Hf1]]] [Hm2 [e2 [Ht2 Hf2]]]. split; [congruence|].
  exists (e1 ++ e2). split; [now rewrite Ht2, Ht1, app_assoc | now apply Forall_app].
Qed.

Lemma emits_external {A : Type} (P : Event -> Prop) ev (answer : nat -> Outcome A) :
  P ev -> always (emits P) (external ev answer).
Proof.
  intros Hev w. rewrite external_advance. split; [reflexivity|].
  exists [ev]. split; [reflexivity | now constructor].
Qed.

Lemma emits_console_log P line : always (emits P) (console_log line).
Proof.
  intros w. split; [reflexivity|]. exists [].
  split; [cbn; now rewrite app_nil_r | constructor].
Qed.

Lemma emits_set_chunks P f : always (emits P) (set_chunks f).
Proof.
  intros w. split; [reflexivity|]. exists [].
  split; [cbn; now rewrite app_nil_r | constructor].
Qed.

Ltac emits_walk :=
  repeat first
    [ apply (always_ret _ (emits_refl _))
    | apply (always_throw _ (emits_refl _))
    | apply (always_bind _ (emits_trans _)); [| intros ?]
    | apply emits_console_log
    | apply emits_set_chunks
    | apply emits_external; cbn [phase_event]; auto
    | match goal with
      | |- always _ (match ?x with _ => _ end) => destruct x
      | |- always _ (if ?x then _ else _) => destruct x
      end ].

Lemma emits_storeChunk env storeId kind chunkData :
  cd_content_type chunkData = kind ->
  always (emits (phase_event storeId kind)) (storeChunk env storeId chunkData).
Proof. intros Hkind. unfold storeChunk. emits_walk. Qed.

Lemma emits_store_all env storeId kind (make : string -> ShopifyChunkData) texts :
  (forall c, cd_content_type (make c) = kind) ->
  always (emits (phase_event storeId kind))
    (for_each (storeChunk env storeId) (map make texts)).
Proof.
  intros Hmake. apply (always_for_each _ (emits_refl _) (emits_trans _)).
  intros chunkData Hin. apply in_map_iff in Hin. destruct Hin as [c [<- _]].
  now apply emits_storeChunk.
Qed.

Lemma emits_processProducts parseFloat toFixed2 env storeId fuel :
  always (emits (phase_event storeId CtProduct))
    (processProducts parseFloat toFixed2 env storeId fuel).
Proof.
  unfold processProducts.
  apply (always_bind _ (emits_trans _)); [emits_walk|]. intros _.
  apply (always_bind _ (emits_trans _)); [|intros ?; emits_walk].
  apply (always_paginate _ (emits_refl _) (emits_trans _)).
  - intros cursor. emits_walk.
  - intros product. unfold processProduct, product_chunks. now apply emits_store_all.
Qed.

Lemma emits_processPages env storeId fuel :
  always (emits (phase_event storeId CtPage)) (processPages env storeId fuel).
Proof.
  unfold processPages.
  apply (always_bind _ (emits_trans _)); [emits_walk|]. intros _.
  apply (always_bind _ (emits_trans _)); [|intros ?; emits_walk].
  apply (always_paginate _ (emits_refl _) (emits_trans _)).
  - intros cursor. emits_walk.
  - intros page. unfold processPage, page_chunks. now apply emits_store_all.
Qed.

Lemma emits_processCollections env storeId fuel :
  always (emits (phase_event storeId CtCollection)) (processCollections env storeId fuel).
Proof.
  unfold processCollections.
  apply (always_bind _ (emits_trans _)); [emits_walk|]. intros _.
  apply (always_bind _ (emits_trans _)); [|intros ?; emits_walk].
  apply (always_paginate _ (emits_refl _) (emits_trans _)).
  - intros cursor. emits_walk.
  - intros collection. unfold processCollection, collection_chunks.
    now apply emits_store_all.
Qed.

Lemma three_phases (P1 P2 P3 : Event -> Prop) w0 w1 w2 w3 :
  emits P1 w0 w1 -> emits P2 w1 w2 -> emits P3 w2 w3 ->
  whatsapp_messages w3 = whatsapp_messages w0
  /\ exists e1 e2 e3,
       trace w3 = trace w0 ++ e1 ++ e2 ++ e3
       /\ Forall P1 e1 /\ Forall P2 e2 /\ Forall P3 e3.
Proof.
  intros [Hm1 [e1 [Ht1 Hf1]]] [Hm2 [e2 [Ht2 Hf2]]] [Hm3 [e3 [Ht3 Hf3]]].
  split; [congruence|]. exists e1, e2, e3.
  split; [|now repeat split]. rewrite Ht3, Ht2, Ht1, <- !app_assoc. reflexivity.
Qed.

(** X18. The calls of one ingestion run, in order: the delete of the
    store's chunks, then the product phase, then the page phase, then the
    collection phase.  Each phase lists records of its kind only, with
    page size 250 for products and 100 for pages and collections, and
    every insert it attempts is a row of that kind for the store being
    ingested; so no page is listed or stored before the products are
    done, and no product after.  The run never reads or writes
    [whatsapp_messages] and makes no model, send or search call. *)
Theorem ingestion_runs_in_three_phases :
  forall (parseFloat : string -> option Q) (toFixed2 : Q -> string)
         (env : Env) (storeId : string) (fuel : nat) (w : World),
    let run := processAllData parseFloat toFixed2 env storeId fuel w in
    whatsapp_messages (snd run) = whatsapp_messages w
    /\ exists products pages collections,
         trace (snd run)
         = trace w ++ EvChunksDelete storeId :: products ++ pages ++ collections
         /\ Forall (phase_event storeId CtProduct) products
         /\ Forall (phase_event storeId CtPage) pages
         /\ Forall (phase_event storeId CtCollection) collections.
Proof.
  intros parseFloat toFixed2 env storeId fuel w run. subst run.
  rewrite processAllData_run.
  destruct (chunk_store_error env (ticks w)) as [pg|].
  - cbn [snd clear_failed whatsapp_messages trace]. split; [reflexivity|].
    exists [], [], []. repeat split; constructor.
  - assert (Hphases :
      exists w1 w2 w3,
        emits (phase_event storeId CtProduct) (cleared storeId w) w1
        /\ emits (phase_event storeId CtPage) w1 w2
        /\ emits (phase_event storeId CtCollection) w2 w3
        /\ whatsapp_messages
             (snd (repopulate parseFloat toFixed2 env storeId fuel (cleared storeId w)))
           = whatsapp_messages w3
        /\ trace (snd (repopulate parseFloat toFixed2 env storeId fuel
                         (cleared storeId w)))
           = trace w3).
    { pose proof (emits_processProducts parseFloat toFixed2 env storeId fuel
                    (cleared storeId w)) as H1.
      unfold repopulate, bind.
      destruct (processProducts parseFloat toFixed2 env storeId fuel (cleared storeId w))
        as [[[u1|]|e1] w1]; cbn [snd] in H1;
        try (exists w1, w1, w1;
             split; [exact H1|]; split; [apply emits_refl|];
             split; [apply emits_refl|]; split; reflexivity).
      pose proof (emits_processPages env storeId fuel w1) as H2.
      destruct (processPages env storeId fuel w1) as [[[u2|]|e2] w2]; cbn [snd] in H2;
        try (exists w1, w2, w2;
             split; [exact H1|]; split; [exact H2|];
             split; [apply emits_refl|]; split; reflexivity).
      pose proof (emits_processCollections env storeId fuel w2) as H3.
      destruct (processCollections env storeId fuel w2) as [[[u3|]|e3] w3];
        cbn [snd] in H3;
        exists w1, w2, w3;
        (split; [exact H1|]; split; [exact H2|]; split; [exact H3|]; split; reflexivity). }
    destruct Hphases as [w1 [w2 [w3 [H1 [H2 [H3 [Hm Ht]]]]]]].
    destruct (three_phases _ _ _ _ _ _ _ H1 H2 H3) as [Hmsgs [e1 [e2 [e3 [Htrace Hf]]]]].
    cbn [cleared whatsapp_messages trace] in Hmsgs, Htrace.
    split; [congruence|]. exists e1, e2, e3. split; [|exact Hf].
    rewrite Ht, Htrace, <- app_assoc. reflexivity.
Qed.


(** ** Syncing a store *)

Lemma read_store_run senv storeId s :
  read_store senv storeId s
  = (Ret (select_single_store (stores_error senv (ticks (base s))) storeId
            (shopify_stores s)),
     mkSync (advance (base s) 1 [EvQuery "shopify_stores" storeId]) (shopify_stores s)).
Proof.
  unfold read_store, sync_bind, lift. rewrite external_advance. reflexivity.
Qed.

Lemma update_last_synced_run senv storeId s :
  update_last_synced senv storeId s
  = (Ret tt,
     mkSync (advance (base s) 2 [EvClock; EvQuery "shopify_stores" storeId])
       (match stores_error senv (ticks (base s) + 1) with
        | Some _ => shopify_stores s
        | None =>
            map (stamp_store storeId (sync_clock senv (ticks (base s)))) (shopify_stores s)
        end)).
Proof.
  unfold update_last_synced, sync_bind, lift. rewrite !external_advance.
  cbn [base shopify_stores]. rewrite advance_advance.
  cbn [advance ticks Nat.add app].
  now destruct (stores_error senv (ticks (base s) + 1)).
Qed.

(** X19. When the read of the store row reports an error or yields no
    row, [processShopifyStore] throws "Store not found: " followed by the
    id right after that read: no processor is built, the store's chunks
    are not deleted, nothing is listed, embedded or stored, and
    [last_synced_at] is not written. *)
Theorem unknown_store_is_rejected_before_any_change :
  forall (parseFloat : string -> option Q) (toFixed2 : Q -> string)
         (senv : SyncEnv) (storeId : string) (fuel : nat) (s : SyncWorld),
    let found := select_single_store (stores_error senv (ticks (base s))) storeId
                   (shopify_stores s) in
    error found <> None \/ data found = None ->
    processShopifyStore parseFloat toFixed2 senv storeId fuel s
    = (Throw (JsError ("Store not found: " ++ storeId)%string),
       mkSync (advance (base s) 1 [EvQuery "shopify_stores" storeId]) (shopify_stores s)).
Proof.
  intros parseFloat toFixed2 senv storeId fuel s found Hmissing.
  unfold processShopifyStore, sync_bind at 1. rewrite read_store_run. fold found.
  destruct (error found) as [e|]; [reflexivity|].
  destruct Hmissing as [H|H]; [now elim H|]. now rewrite H.
Qed.

Lemma unknown_store_example :
  processShopifyStore parse_twelve print_twelve demo_sync_env "store-9" 3
    (sync_world [demo_store; other_store])
  = (Throw (JsError "Store not found: store-9"),
     mkSync (advance stale_world 1 [EvQuery "shopify_stores" "store-9"])
       [demo_store; other_store]).
Proof.
  apply (unknown_store_is_rejected_before_any_change parse_twelve print_twelve
           demo_sync_env "store-9" 3 (sync_world [demo_store; other_store])).
  left. discriminate.
Defined.

Lemma stamp_store_identity storeId at_time stores :
  map store_identity (map (stamp_store storeId at_time) stores) = map store_identity stores.
Proof.
  rewrite map_map. apply map_ext. intros row. unfold stamp_store.
  now destruct (String.eqb (st_id row) storeId).
Qed.

(** X20. Once the store row is read, [processShopifyStore] runs the
    ingestion with a processor built from the row's domain and token.
    When the ingestion throws, the exception passes through and
    [shopify_stores] is left as it was: no sync time is written.  When
    the ingestion completes, the clock is read and one update of
    [last_synced_at] is issued; if the store accepts it, the rows with
    the given id carry that reading and every other row is unchanged; if
    the store refuses it, the refusal is ignored and the call still
    returns normally.  In no case does a row's id, domain or token
    change. *)
Theorem sync_time_is_written_only_after_ingestion :
  forall (parseFloat : string -> option Q) (toFixed2 : Q -> string)
         (senv : SyncEnv) (storeId : string) (fuel : nat) (s : SyncWorld)
         (store : StoreRow),
    select_single_store (stores_error senv (ticks (base s))) storeId (shopify_stores s)
    = mkQueryResult (Some store) None ->
    let ingestion :=
      processAllData parseFloat toFixed2
        (processor_env senv (store_domain store) (storefront_token store)) storeId fuel
        (advance (base s) 1 [EvQuery "shopify_stores" storeId]) in
    let sync := processShopifyStore parseFloat toFixed2 senv storeId fuel s in
    let at_time := sync_clock senv (ticks (snd ingestion)) in
    (forall e,
        fst ingestion = Throw e ->
        sync = (Throw e, mkSync (snd ingestion) (shopify_stores s)))
    /\ (fst ingestion = Ret (Some tt) ->
        fst sync = Ret (Some tt)
        /\ base (snd sync)
           = advance (snd ingestion) 2 [EvClock; EvQuery "shopify_stores" storeId]
        /\ (stores_error senv (ticks (snd ingestion) + 1) = None ->
            shopify_stores (snd sync)
            = map (stamp_store storeId at_time) (shopify_stores s)
            /\ forall row,
                 In row (shopify_stores (snd sync)) ->
                 (st_id row = storeId -> last_synced_at row = Some at_time)
                 /\ (st_id row <> storeId -> In row (shopify_stores s)))
        /\ (stores_error senv (ticks (snd ingestion) + 1) <> None ->
            shopify_stores (snd sync) = shopify_stores s))
    /\ map store_identity (shopify_stores (snd sync))
       = map store_identity (shopify_stores s).
Proof.
  intros parseFloat toFixed2 senv storeId fuel s store Hfound ingestion sync at_time.
  assert (Hsync :
    sync
    = match fst ingestion with
      | Throw e => (Throw e, mkSync (snd ingestion) (shopify_stores s))
      | Ret None => (Ret None, mkSync (snd ingestion) (shopify_stores s))
      | Ret (Some _) =>
          (Ret (Some tt),
           mkSync (advance (snd ingestion) 2 [EvClock; EvQuery "shopify_stores" storeId])
             (match stores_error senv (ticks (snd ingestion) + 1) with
              | Some _ => shopify_stores s
              | None => map (stamp_store storeId at_time) (shopify_stores s)
              end))
      end).
  { subst sync. unfold processShopifyStore, sync_bind at 1.
    rewrite read_store_run, Hfound. cbn [error data].
    unfold sync_bind at 1, lift. cbn [base shopify_stores]. fold ingestion.
    destruct ingestion as [[[u|]|e] w1]; cbn [fst snd]; try reflexivity.
    unfold sync_bind. rewrite update_last_synced_run. reflexivity. }
  split; [|split].
  - intros e He. rewrite Hsync, He. reflexivity.
  - intros Hdone. rewrite Hsync, Hdone. cbn [fst snd base shopify_stores].
    split; [reflexivity|]. split; [reflexivity|]. split.
    + intros Hok. rewrite Hok. split; [reflexivity|].
      intros row Hin. apply in_map_iff in Hin. destruct Hin as [row0 [<- Hin]].
      unfold stamp_store. destruct (String.eqb (st_id row0) storeId) eqn:Hid.
      * split; [reflexivity|]. cbn [st_id]. apply String.eqb_eq in Hid. congruence.
      * split; [|now intros _]. apply String.eqb_neq in Hid. congruence.
    + intros Hrefused.
      destruct (stores_error senv (ticks (snd ingestion) + 1)); [reflexivity|].
      now elim Hrefused.
  - rewrite Hsync.
    destruct (fst ingestion) as [[u|]|e]; cbn [snd shopify_stores]; try reflexivity.
    destruct (stores_error senv (ticks (snd ingestion) + 1)); [reflexivity|].
    apply stamp_store_identity.
Qed.

Lemma sync_examples :
  (let sync := processShopifyStore parse_twelve print_twelve demo_sync_env "store-1" 3
                 (sync_world [demo_store; other_store]) in
   fst sync = Ret (Some tt)
   /\ map last_synced_at (shopify_stores (snd sync))
      = [Some 1700000000009%N; Some 5%N])
  /\ (let sync := processShopifyStore parse_twelve print_twelve embedder_down_sync_env
                    "store-1" 3 (sync_world [demo_store; other_store]) in
      fst sync = Throw (JsError "Failed to generate embedding for chunk: Blue Mug")
      /\ shopify_stores (snd sync) = [demo_store; other_store]).
Proof.
  split.
  - intros sync. subst sync.
    destruct (proj1 (proj2 (sync_time_is_written_only_after_ingestion parse_twelve
                              print_twelve demo_sync_env "store-1" 3
                              (sync_world [demo_store; other_store]) demo_store
                              eq_refl)))
      as [Hret [_ [Hstamped _]]]; [vm_compute; reflexivity|].
    split; [exact Hret|].
    destruct Hstamped as [Hrows _]; [vm_compute; reflexivity|].
    rewrite Hrows. vm_compute. reflexivity.
  - intros sync. subst sync.
    pose proof (proj1 (sync_time_is_written_only_after_ingestion parse_twelve
                         print_twelve embedder_down_sync_env "store-1" 3
                         (sync_world [demo_store; other_store]) demo_store eq_refl)
                  (JsError "Failed to generate embedding for chunk: Blue Mug"))
      as Hthrow.
    cbv zeta in Hthrow. rewrite Hthrow; [split; reflexivity|].
    vm_compute. reflexivity.
Defined.


(** ** Ingestion: a run in which every collaborator answers *)

Section Steady.

Variable env : Env.
Variable storeId : string.
Variable embed : string -> Vector.
Hypothesis embed_answers : forall t text, embedText env t text = Ret (Some (embed text)).
Hypothesis store_accepts : forall t, chunk_store_error env t = None.

Lemma store_all_steady chunks : forall w,
  exists w',
    for_each (storeChunk env storeId) chunks w = (Ret tt, w')
    /\ shopify_chunks w' = shopify_chunks w ++ rows_of_chunks storeId embed chunks
    /\ console w' = console w.
Proof.
  induction chunks as [|chunkData chunks IH]; intros w; cbn [for_each].
  - exists w. unfold ret, rows_of_chunks. cbn [map]. now rewrite app_nil_r.
  - unfold bind. rewrite storeChunk_run, embed_answers, store_accepts.
    destruct (IH (after_insert storeId w chunkData (embed (cd_text chunkData)) true []))
      as [w' [Hrun [Hrows Hlog]]].
    exists w'. split; [exact Hrun|].
    cbn [after_insert shopify_chunks console] in Hrows, Hlog.
    rewrite Hrows, Hlog, <- app_assoc, app_nil_r. now split.
Qed.

Section SteadyListing.

Variable A : Type.
Variable catalog : option string -> Listing A.
Variable answer : nat -> option string -> Outcome (Listing A).
Variable call : option string -> Event.
Variable chunks_of : A -> list ShopifyChunkData.
Variable process : A -> M unit.
Hypothesis answer_steady : forall t cursor, answer t cursor = Ret (catalog cursor).
Hypothesis process_stores :
  forall x, process x = for_each (storeChunk env storeId) (chunks_of x).

Lemma process_all_steady xs : forall w,
  exists w',
    for_each process xs w = (Ret tt, w')
    /\ shopify_chunks w'
       = shopify_chunks w ++ rows_of_chunks storeId embed (flat_map chunks_of xs)
    /\ console w' = console w.
Proof.
  induction xs as [|x xs IH]; intros w; cbn [for_each flat_map].
  - exists w. unfold ret, rows_of_chunks. cbn [map]. now rewrite app_nil_r.
  - unfold bind. rewrite process_stores.
    destruct (store_all_steady (chunks_of x) w) as [w1 [Hrun1 [Hrows1 Hlog1]]].
    rewrite Hrun1.
    destruct (IH w1) as [w' [Hrun [Hrows Hlog]]].
    exists w'. split; [exact Hrun|]. split; [|congruence].
    unfold rows_of_chunks in *. now rewrite Hrows, Hrows1, map_app, <- app_assoc.
Qed.

Lemma paginate_steady : forall fuel cursor total w pages,
  visited catalog fuel cursor = Some pages ->
  exists w',
    paginate (fun c => external (call c) (fun t => answer t c)) process fuel cursor total w
    = (Ret (Some (total + List.length (records pages))), w')
    /\ shopify_chunks w'
       = shopify_chunks w
         ++ rows_of_chunks storeId embed (flat_map chunks_of (records pages))
    /\ console w' = console w.
Proof.
  induction fuel as [|fuel IH]; intros cursor total w pages Hvisited;
    cbn [visited] in Hvisited; [discriminate|].
  cbn [paginate]. unfold bind at 1. rewrite external_advance, answer_steady.
  unfold bind at 1.
  destruct (process_all_steady (items (catalog cursor)) (advance w 1 [call cursor]))
    as [w1 [Hrun1 [Hrows1 Hlog1]]].
  rewrite Hrun1. cbn [advance shopify_chunks console] in Hrows1, Hlog1.
  destruct (hasNextPage (catalog cursor)).
  - destruct (visited catalog fuel (endCursor (catalog cursor))) as [rest|] eqn:Hrest;
      [|discriminate].
    injection Hvisited as <-.
    destruct (IH (endCursor (catalog cursor))
                (total + List.length (items (catalog cursor))) w1 rest Hrest)
      as [w' [Hrun [Hrows Hlog]]].
    exists w'. unfold records in *. cbn [flat_map].
    rewrite Hrun, length_app, Nat.add_assoc. split; [reflexivity|].
    split; [|congruence].
    unfold rows_of_chunks in *.
    now rewrite Hrows, Hrows1, flat_map_app, map_app, <- app_assoc.
  - injection Hvisited as <-. exists w1. unfold records, ret. cbn [flat_map].
    rewrite !app_nil_r. now split.
Qed.

End SteadyListing.

End Steady.

Lemma console_log_run line w :
  console_log line w
  = (Ret tt,
     mkWorld (ticks w) (shopify_chunks w) (whatsapp_messages w) (console w ++ [line])
       (trace w)).
Proof. reflexivity. Qed.

Lemma processProducts_steady parseFloat toFixed2 env storeId embed products fuel w ps :
  (forall t cursor, getProducts env t 250 cursor = Ret (products cursor)) ->
  (forall t text, embedText env t text = Ret (Some (embed text))) ->
  (forall t, chunk_store_error env t = None) ->
  visited products fuel None = Some ps ->
  exists w',
    processProducts parseFloat toFixed2 env storeId fuel w = (Ret (Some tt), w')
    /\ shopify_chunks w'
       = shopify_chunks w
         ++ rows_of_chunks storeId embed
              (flat_map (product_chunks parseFloat toFixed2) (records ps))
    /\ console w'
       = console w
         ++ ["Processing products...";
             "Processed " ++ Js.show_nat (List.length (records ps)) ++ " products"]%string.
Proof.
  intros Hlist Hembed Hstore Hvisited.
  unfold processProducts, bind. rewrite console_log_run.
  destruct (paginate_steady env storeId embed Hembed Hstore _ products
              (fun t => getProducts env t 250) (EvGetProducts 250)
              (product_chunks parseFloat toFixed2)
              (processProduct parseFloat toFixed2 env storeId)
              Hlist (fun x => eq_refl) fuel None 0
              (mkWorld (ticks w) (shopify_chunks w) (whatsapp_messages w)
                 (console w ++ ["Processing products..."%string]) (trace w))
              ps Hvisited)
    as [w1 [Hrun [Hrows Hlog]]].
  cbv beta in Hrun. rewrite Hrun. cbn [Nat.add]. rewrite console_log_run.
  eexists. split; [reflexivity|]. cbn [shopify_chunks console] in *.
  split; [exact Hrows|]. now rewrite Hlog, <- app_assoc.
Qed.

Lemma processPages_steady env storeId embed pages fuel w gs :
  (forall t cursor, getPages env t 100 cursor = Ret (pages cursor)) ->
  (forall t text, embedText env t text = Ret (Some (embed text))) ->
  (forall t, chunk_store_error env t = None) ->
  visited pages fuel None = Some gs ->
  exists w',
    processPages env storeId fuel w = (Ret (Some tt), w')
    /\ shopify_chunks w'
       = shopify_chunks w
         ++ rows_of_chunks storeId embed (flat_map page_chunks (records gs))
    /\ console w'
       = console w
         ++ ["Processing pages...";
             "Processed " ++ Js.show_nat (List.length (records gs)) ++ " pages"]%string.
Proof.
  intros Hlist Hembed Hstore Hvisited.
  unfold processPages, bind. rewrite console_log_run.
  destruct (paginate_steady env storeId embed Hembed Hstore _ pages
              (fun t => getPages env t 100) (EvGetPages 100)
              page_chunks (processPage env storeId)
              Hlist (fun x => eq_refl) fuel None 0
              (mkWorld (ticks w) (shopify_chunks w) (whatsapp_messages w)
                 (console w ++ ["Processing pages..."%string]) (trace w))
              gs Hvisited)
    as [w1 [Hrun [Hrows Hlog]]].
  cbv beta in Hrun. rewrite Hrun. cbn [Nat.add]. rewrite console_log_run.
  eexists. split; [reflexivity|]. cbn [shopify_chunks console] in *.
  split; [exact Hrows|]. now rewrite Hlog, <- app_assoc.
Qed.

Lemma processCollections_steady env storeId embed collections fuel w cs :
  (forall t cursor, getCollections env t 100 cursor = Ret (collections cursor)) ->
  (forall t text, embedText env t text = Ret (Some (embed text))) ->
  (forall t, chunk_store_error env t = None) ->
  visited collections fuel None = Some cs ->
  exists w',
    processCollections env storeId fuel w = (Ret (Some tt), w')
    /\ shopify_chunks w'
       = shopify_chunks w
         ++ rows_of_chunks storeId embed (flat_map collection_chunks (records cs))
    /\ console w'
       = console w
         ++ ["Processing collections...";
             "Processed " ++ Js.show_nat (List.length (records cs))
             ++ " collections"]%string.
Proof.
  intros Hlist Hembed Hstore Hvisited.
  unfold processCollections, bind. rewrite console_log_run.
  destruct (paginate_steady env storeId embed Hembed Hstore _ collections
              (fun t => getCollections env t 100) (EvGetCollections 100)
              collection_chunks (processCollection env storeId)
              Hlist (fun x => eq_refl) fuel None 0
              (mkWorld (ticks w) (shopify_chunks w) (whatsapp_messages w)
                 (console w ++ ["Processing collections..."%string]) (trace w))
              cs Hvisited)
    as [w1 [Hrun [Hrows Hlog]]].
  cbv beta in Hrun. rewrite Hrun. cbn [Nat.add]. rewrite console_log_run.
  eexists. split; [reflexivity|]. cbn [shopify_chunks console] in *.
  split; [exact Hrows|]. now rewrite Hlog, <- app_assoc.
Qed.

(** X21. A run in which every collaborator answers.  When the three
    listings answer from fixed catalogs, the embedder returns an
    embedding for every text and the chunk store accepts every request,
    [processAllData] completes.  Each listing is read from the start,
    following [endCursor] until a page reports no next page.  Afterwards
    [shopify_chunks] holds the rows of the other stores, in their order,
    followed by exactly one row per kept chunk of every listed record:
    the products in listing order, then the pages, then the collections,
    each row with the store's id and the embedding of its chunk text.
    The console shows the number of products, pages and collections
    processed. *)
Theorem ingestion_stores_every_chunk_of_the_catalog :
  forall (parseFloat : string -> option Q) (toFixed2 : Q -> string)
         (env : Env) (storeId : string) (fuel : nat) (w : World)
         (products : option string -> Listing ShopifyProduct)
         (pages : option string -> Listing ShopifyPage)
         (collections : option string -> Listing ShopifyCollection)
         (embed : string -> Vector)
         (ps : list (Listing ShopifyProduct)) (gs : list (Listing ShopifyPage))
         (cs : list (Listing ShopifyCollection)),
    steady env products pages collections embed ->
    visited products fuel None = Some ps ->
    visited pages fuel None = Some gs ->
    visited collections fuel None = Some cs ->
    exists w',
      processAllData parseFloat toFixed2 env storeId fuel w = (Ret (Some tt), w')
      /\ shopify_chunks w'
         = other_owners storeId (shopify_chunks w)
           ++ rows_of_chunks storeId embed
                (flat_map (product_chunks parseFloat toFixed2) (records ps)
                 ++ flat_map page_chunks (records gs)
                 ++ flat_map collection_chunks (records cs))
      /\ console w'
         = console w
           ++ ingestion_log storeId (List.length (records ps)) (List.length (records gs))
                (List.length (records cs)).
Proof.
  intros parseFloat toFixed2 env storeId fuel w products pages collections embed
         ps gs cs [Hproducts [Hpages [Hcollections [Hembed Hstore]]]] Hps Hgs Hcs.
  rewrite processAllData_run, Hstore. unfold repopulate, bind.
  destruct (processProducts_steady parseFloat toFixed2 env storeId embed products fuel
              (cleared storeId w) ps Hproducts Hembed Hstore Hps)
    as [w1 [Hrun1 [Hrows1 Hlog1]]].
  rewrite Hrun1.
  destruct (processPages_steady env storeId embed pages fuel w1 gs Hpages Hembed Hstore
              Hgs)
    as [w2 [Hrun2 [Hrows2 Hlog2]]].
  rewrite Hrun2.
  destruct (processCollections_steady env storeId embed collections fuel w2 cs
              Hcollections Hembed Hstore Hcs)
    as [w3 [Hrun3 [Hrows3 Hlog3]]].
  rewrite Hrun3, console_log_run. unfold ret.
  eexists. split; [reflexivity|]. cbn [shopify_chunks console].
  cbn [cleared shopify_chunks console] in Hrows1, Hlog1. split.
  - rewrite Hrows3, Hrows2, Hrows1. unfold rows_of_chunks.
    now rewrite !map_app, <- !app_assoc.
  - rewrite Hlog3, Hlog2, Hlog1. unfold ingestion_log.
    rewrite <- !app_assoc. reflexivity.
Qed.

Lemma two_page_catalog_example :
  let run := processAllData parse_twelve print_twelve two_page_env "store-1" 3
               stale_world in
  fst run = Ret (Some tt)
  /\ map title (shopify_chunks (snd run)) = ["Terms"; "Blue Mug"; "Red Mug"; "About"]%string
  /\ console (snd run)
     = ["Starting Shopify data processing...";
        "Cleared existing chunks for store store-1";
        "Processing products..."; "Processed 2 products";
        "Processing pages..."; "Processed 1 pages";
        "Processing collections..."; "Processed 0 collections";
        "Shopify data processing completed."]%string.
Proof.
  intros run. subst run.
  destruct (ingestion_stores_every_chunk_of_the_catalog parse_twelve print_twelve
              two_page_env "store-1" 3 stale_world two_page_products one_page_pages
              no_collections demo_embed
              [two_page_products None; two_page_products (Some "c1"%string)]
              [one_page_pages None] [no_collections None])
    as [w' [Hrun [Hrows Hlog]]];
    [repeat split; intros; reflexivity | reflexivity | reflexivity | reflexivity |].
  rewrite Hrun. cbn [fst snd]. split; [reflexivity|].
  rewrite Hrows, Hlog. split; vm_compute; reflexivity.
Defined.


(** ** An answered message, from lookup to storage *)

(** X22. The whole of one answered message of a Shopify-backed number.
    When the data source is ["shopify"], the first mapping row carries
    credentials, the inbound text is embedded, a store is mapped, the
    search reports no error, the model's first choice is a non-empty text
    and the send succeeds, [generateAutoResponse] makes exactly these
    calls in this order: data source, mapping, embedding, store lookup,
    search (five matches), history read, completion, send, two clock
    readings, insert, clock reading, update.  The context of the prompt
    is the chunk texts of the search rows joined by blank lines (the "No
    relevant context" sentence when there are none, in which case the
    model is still asked); the text sent, stored and returned is the
    model's first choice; the id of the stored turn is built from the
    first clock reading; and the result is a success. *)
Theorem answered_shopify_message_is_sent_and_stored :
  forall (env : Env) (fromNumber toNumber messageText messageId : string) (w : World)
         (first : MappingRow) (rest : list MappingRow) (token org : string)
         (q : Vector) (store : string) (hits : option (list ShopifyHit))
         (reply : string) (others : list (option string)) (err : option string),
    getDataSourceForPhone env (ticks w) toNumber = Ret (Some "shopify"%string) ->
    phone_mapping_query env (ticks w + 1) toNumber
    = mkQueryResult (Some (first :: rest)) None ->
    auth_token first = Some token -> token <> EmptyString ->
    origin first = Some org -> org <> EmptyString ->
    embedText env (ticks w + 2) messageText = Ret (Some q) ->
    getShopifyStoreForPhoneNumber env (ticks w + 3) toNumber = Ret (Some store) ->
    store <> EmptyString ->
    shopify_search env (ticks w + 4) q store 5 = mkQueryResult hits None ->
    let rows := match hits with Some rows => rows | None => [] end in
    let historyRows :=
      match message_store_error env (ticks w + 5) with
      | Some _ => None
      | None => Some (history_window fromNumber (whatsapp_messages w))
      end in
    let messages :=
      compose_messages (compose_system_prompt (system_prompt first) "shopify")
        (Js.join (nl ++ nl) (map h_chunk_text rows)) (build_history historyRows)
        messageText in
    chat_completion env (ticks w + 6) messages = Ret (mkCompletion (Some reply :: others)) ->
    reply <> EmptyString ->
    sendWhatsAppMessage env (ticks w + 7) fromNumber reply token org
    = Ret (mkSendResult true err) ->
    let row := outbound_row (responseMessageId messageId (clock env (ticks w + 8)))
                 fromNumber toNumber reply (clock env (ticks w + 9)) in
    let at_time := clock env (ticks w + 11) in
    generateAutoResponse env fromNumber toNumber messageText messageId w
    = (Ret (mkResult true (Some reply) None None (Some true)),
       mkWorld (ticks w + 13) (shopify_chunks w)
         (written (message_store_error env (ticks w + 12))
            (map (mark_row messageId true at_time))
            (written (message_store_error env (ticks w + 10))
               (fun table => table ++ [row]) (whatsapp_messages w)))
         (console w)
         (trace w
          ++ [EvGetDataSource toNumber;
              EvQuery "phone_document_mapping" toNumber;
              EvEmbed messageText;
              EvGetShopifyStore toNumber;
              EvShopifySearch q store 5;
              EvHistoryRead fromNumber;
              EvCompletion messages;
              EvSend fromNumber reply token org;
              EvClock; EvClock; EvMsgInsert row;
              EvClock; EvMsgUpdate messageId true at_time])).
Proof.
  intros env fromNumber toNumber messageText messageId w first rest token org q store
         hits reply others err Hds Hrows Htoken Htoken_ne Horg Horg_ne Hembed Hstore
         Hstore_ne Hsearch rows historyRows messages Hcompletion Hreply Hsend row at_time.
  assert (Hprep :
    prepare_reply env fromNumber toNumber messageText w
    = (Ret (inr (mkReply reply token org)),
       advance w 7 [EvGetDataSource toNumber;
                    EvQuery "phone_document_mapping" toNumber;
                    EvEmbed messageText;
                    EvGetShopifyStore toNumber;
                    EvShopifySearch q store 5;
                    EvHistoryRead fromNumber;
                    EvCompletion messages])).
  { rewrite (prepare_reply_with_mapping env fromNumber toNumber messageText w "shopify"
               first rest Hds eq_refl Hrows).
    unfold answer_with_mapping. rewrite Htoken, Horg.
    assert (Hcred : Js.truthy_opt (Some token) && Js.truthy_opt (Some org) = true).
    { destruct token; [now elim Htoken_ne|]. destruct org; [now elim Horg_ne|].
      reflexivity. }
    rewrite Hcred. unfold bind at 1. rewrite external_advance, advance_advance.
    cbn [advance ticks Nat.add app]. rewrite Hembed.
    unfold bind at 1, retrieve_context.
    cbn [is_shopify String.eqb Ascii.eqb Bool.eqb]. unfold bind at 1.
    rewrite external_advance, advance_advance.
    cbn [advance ticks Nat.add app]. rewrite Hstore.
    assert (Htruthy : Js.truthy_opt (Some store) = true)
      by (destruct store; [now elim Hstore_ne | reflexivity]).
    rewrite Htruthy. unfold bind at 1, retrieveRelevantShopifyChunks, bind at 1.
    rewrite external_advance, advance_advance.
    cbn [advance ticks Nat.add app]. rewrite Hsearch. cbn [error data]. unfold ret at 1.
    unfold ret at 1.
    assert (Hcontext : map sm_chunk
                         (match hits with
                          | Some rows0 => map hit_to_match rows0
                          | None => []
                          end)
                       = map h_chunk_text rows).
    { subst rows. destruct hits as [l|]; [|reflexivity].
      rewrite map_map. reflexivity. }
    rewrite Hcontext. unfold bind at 1. rewrite read_history_run.
    cbn [advance ticks whatsapp_messages]. fold historyRows. fold messages.
    unfold bind at 1. rewrite external_advance, !advance_advance.
    cbn [advance ticks Nat.add app]. rewrite Hcompletion. cbn [choices].
    assert (Hr : Js.truthy_opt (Some reply) = true)
      by (destruct reply; [now elim Hreply | reflexivity]).
    rewrite Hr. reflexivity. }
  unfold generateAutoResponse, try_catch, generateAutoResponse_body, bind at 1.
  rewrite Hprep. unfold deliver_reply, bind.
  cbn [reply_text reply_auth_token reply_origin].
  rewrite external_advance. cbn [advance ticks]. rewrite Hsend.
  cbn [send_success negb].
  rewrite !now_run, insert_message_run, update_message_run.
  unfold advance, ret. cbn [ticks shopify_chunks whatsapp_messages console trace].
  rewrite <- !Nat.add_assoc, <- !app_assoc. cbn [Nat.add app].
  reflexivity.
Qed.

Lemma answered_message_example :
  let run := generateAutoResponse shop_env "cust" "biz" "how much is the mug?" "wamid.7"
               (world_with_messages [inbound_turn 7]) in
  fst run = Ret (mkResult true (Some "The Blue Mug costs USD 12.00."%string) None None
                   (Some true))
  /\ map message_id (whatsapp_messages (snd run))
     = ["wamid.7"; "auto_wamid.7_1700000000008"]%string.
Proof.
  intros run. subst run.
  rewrite (answered_shopify_message_is_sent_and_stored shop_env "cust" "biz"
             "how much is the mug?" "wamid.7" (world_with_messages [inbound_turn 7])
             demo_mapping [] "token-1" "https://wa.example" [1 # 2; 1 # 3]%Q "store-1"
             (Some [mug_hit]) "The Blue Mug costs USD 12.00." [] None
             eq_refl eq_refl eq_refl ltac:(discriminate) eq_refl ltac:(discriminate)
             eq_refl eq_refl ltac:(discriminate) eq_refl eq_refl ltac:(discriminate)
             eq_refl).
  split; [reflexivity | vm_compute; reflexivity].
Defined.

(** ** What is taken from the first mapping row *)

Ltac first_row_walk :=
  repeat first
    [ apply (always_ret _ (emits_refl _))
    | apply (always_throw _ (emits_refl _))
    | apply (always_bind _ (emits_trans _)); [| intros ?]
    | apply emits_external; cbn [uses_first_row];
      first [ exact I | unfold compose_messages; eexists; eexists; reflexivity ]
    | match goal with
      | |- always _ (match ?x with _ => _ end) => destruct x
      | |- always _ (if ?x then _ else _) => destruct x
      end ].

Lemma first_row_retrieval first ds env q fileIds :
  always (emits (uses_first_row first ds))
    (retrieveRelevantChunksFromFiles env q fileIds 5).
Proof.
  assert (Hall : forall ids acc,
             always (emits (uses_first_row first ds)) (gather_chunks env q 5 ids acc)).
  { induction ids as [|f fs IH]; intros acc; cbn [gather_chunks].
    - first_row_walk.
    - apply (always_bind _ (emits_trans _));
        [unfold retrieveRelevantChunks; first_row_walk|].
      intros [cs|]; [apply IH | first_row_walk]. }
  unfold retrieveRelevantChunksFromFiles.
  destruct fileIds as [|f1 [|f2 fs]].
  - first_row_walk.
  - unfold retrieveRelevantChunks. first_row_walk.
  - apply (always_bind _ (emits_trans _)); [apply Hall|]. intros ?. first_row_walk.
Qed.

Lemma first_row_retrieve_context first ds env toNumber q :
  always (emits (uses_first_row first ds)) (retrieve_context env ds toNumber q).
Proof.
  unfold retrieve_context, retrieveRelevantShopifyChunks.
  destruct (is_shopify ds).
  - first_row_walk.
  - apply (always_bind _ (emits_trans _)); [first_row_walk|]. intros [|f fs];
      [first_row_walk|].
    apply (always_bind _ (emits_trans _)); [apply first_row_retrieval|].
    intros ?. first_row_walk.
Qed.

Lemma first_row_read_history first ds env fromNumber :
  always (emits (uses_first_row first ds)) (read_history env fromNumber).
Proof.
  intros w. rewrite read_history_run. split; [reflexivity|].
  exists [EvHistoryRead fromNumber]. split; [reflexivity|].
  constructor; [exact I | constructor].
Qed.

(** Once the credentials check has passed, the next call is the
    embedding of the inbound text, and what follows takes the system
    prompt from [first]. *)
Lemma answer_with_mapping_calls env ds fromNumber toNumber messageText first w :
  Js.truthy_opt (auth_token first) && Js.truthy_opt (origin first) = true ->
  exists evs,
    trace (snd (answer_with_mapping env ds fromNumber toNumber messageText first w))
    = trace w ++ EvEmbed messageText :: evs
    /\ Forall (uses_first_row first ds) evs.
Proof.
  intros Hcred. unfold answer_with_mapping. rewrite Hcred.
  unfold bind at 1. rewrite external_advance.
  destruct (embedText env (ticks w) messageText) as [[q|]|e];
    try (exists []; split; [reflexivity | constructor]).
  match goal with
  | |- context [snd (?m (advance w 1 [EvEmbed messageText]))] =>
      assert (Htail : always (emits (uses_first_row first ds)) m)
  end.
  { apply (always_bind _ (emits_trans _)); [apply first_row_retrieve_context|].
    intros [early|chunks]; [first_row_walk|].
    apply (always_bind _ (emits_trans _)); [apply first_row_read_history|].
    intros historyRows. first_row_walk. }
  destruct (Htail (advance w 1 [EvEmbed messageText])) as [_ [evs [Htrace Hevs]]].
  exists evs. split; [|exact Hevs].
  rewrite Htrace. cbn [advance trace]. now rewrite <- app_assoc.
Qed.

(** The credentials handed to the send are those of [first]. *)
Lemma answer_with_mapping_reply env ds fromNumber toNumber messageText first :
  returns (fun prepared =>
             match prepared with
             | inl _ => True
             | inr reply =>
                 auth_token first = Some (reply_auth_token reply)
                 /\ origin first = Some (reply_origin reply)
             end)
          (answer_with_mapping env ds fromNumber toNumber messageText first).
Proof.
  unfold answer_with_mapping.
  destruct (Js.truthy_opt (auth_token first) && Js.truthy_opt (origin first)) eqn:Hcred;
    [|now apply returns_ret].
  apply andb_true_iff in Hcred. destruct Hcred as [Htok Horg].
  apply (returns_bind _ _ _ _ (returns_anything _)). intros [q|] _;
    [|now apply returns_ret].
  apply (returns_bind _ _ _ _ (returns_anything _)). intros [early|chunks] _;
    [now apply returns_ret|].
  apply (returns_bind _ _ _ _ (returns_anything _)). intros historyRows _.
  apply (returns_bind _ _ _ _ (returns_anything _)). intros completion _.
  destruct (choices completion) as [|reply others]; [apply returns_throw|].
  destruct (Js.truthy_opt reply); [|now apply returns_ret].
  apply returns_ret. cbn [reply_auth_token reply_origin].
  destruct (auth_token first) as [token|]; [|discriminate].
  destruct (origin first) as [org|]; [|discriminate]. now split.
Qed.

Lemma uses_first_row_facts first ds evs :
  Forall (uses_first_row first ds) evs ->
  (forall messages,
      In messages (prompts_of evs) ->
      exists context hist,
        messages
        = mkChat System
            (compose_system_prompt (system_prompt first) ds ++ nl ++ nl
             ++ "CONTEXT:" ++ nl ++ context)%string
          :: hist)
  /\ (forall recipient text token org,
         In (EvSend recipient text token org) evs ->
         auth_token first = Some token /\ origin first = Some org).
Proof.
  intros Hevs. split.
  - induction Hevs as [|ev evs Hev _ IH]; [intros messages []|].
    intros messages Hin. destruct ev; cbn in Hin; try (now apply IH).
    destruct Hin as [<-|Hin]; [exact Hev | now apply IH].
  - intros recipient text token org Hin. rewrite Forall_forall in Hevs.
    exact (Hevs _ Hin).
Qed.

(** C10. Of the rows the mapping lookup returns, only the first is used.
    Replacing every later row by anything else changes neither the
    result nor the world [generateAutoResponse] leaves.  And when the
    lookup, through the retry wrapper, has returned the rows
    [first :: rest] without an error, what follows is decided by
    [first]: if its token or its origin is missing ([null] or empty) the
    result is the "No WhatsApp API credentials" failure and no further
    call is made, whatever credentials the later rows hold; otherwise the
    next call is the embedding of the inbound text, every prompt given to
    the language model begins with the system prompt composed from the
    [system_prompt] of [first], and every send carries the token and
    the origin of [first]. *)
Theorem only_first_mapping_row_matters :
  forall (env : Env) (q2 : nat -> string -> QueryResult (list MappingRow))
         (fromNumber toNumber messageText messageId : string) (w : World),
    ((forall t phone, same_first_row (phone_mapping_query env t phone) (q2 t phone)) ->
     generateAutoResponse (with_phone_mappings env q2) fromNumber toNumber messageText
       messageId w
     = generateAutoResponse env fromNumber toNumber messageText messageId w)
    /\ forall (ds : string) (first : MappingRow) (rest : list MappingRow) (w1 : World),
         getDataSourceForPhone env (ticks w) toNumber = Ret (Some ds) ->
         Js.truthy ds = true ->
         fetch_phone_mappings env toNumber (advance w 1 [EvGetDataSource toNumber])
         = (Ret (mkQueryResult (Some (first :: rest)) None), w1) ->
         let credentials :=
           Js.truthy_opt (auth_token first) && Js.truthy_opt (origin first) in
         exists result w' evs,
           generateAutoResponse env fromNumber toNumber messageText messageId w
           = (Ret result, w')
           /\ trace w' = trace w1 ++ evs
           /\ (credentials = false ->
               result
               = failure "No WhatsApp API credentials found. Please set credentials in the Configuration tab."
               /\ evs = [])
           /\ (credentials = true -> exists later, evs = EvEmbed messageText :: later)
           /\ (forall messages,
                  In messages (prompts_of evs) ->
                  exists context hist,
                    messages
                    = mkChat System
                        (compose_system_prompt (system_prompt first) ds ++ nl ++ nl
                         ++ "CONTEXT:" ++ nl ++ context)%string
                      :: hist)
           /\ (forall recipient text token org,
                  In (EvSend recipient text token org) evs ->
                  auth_token first = Some token /\ origin first = Some org).
Proof.
  intros env q2 fromNumber toNumber messageText messageId w.
  split; [apply later_mapping_rows_have_no_effect|].
  intros ds first rest w1 Hds Htruthy Hfetch credentials.
  assert (Hprep : prepare_reply env fromNumber toNumber messageText w
                  = answer_with_mapping env ds fromNumber toNumber messageText first w1).
  { rewrite (prepare_reply_after_data_source env fromNumber toNumber messageText w ds
               Hds Htruthy).
    unfold bind. now rewrite Hfetch. }
  assert (Hall : exists result w' evs,
             generateAutoResponse env fromNumber toNumber messageText messageId w
             = (Ret result, w')
             /\ trace w' = trace w1 ++ evs
             /\ (credentials = false ->
                 result
                 = failure "No WhatsApp API credentials found. Please set credentials in the Configuration tab."
                 /\ evs = [])
             /\ (credentials = true -> exists later, evs = EvEmbed messageText :: later)
             /\ Forall (uses_first_row first ds) evs).
  { unfold generateAutoResponse, try_catch, generateAutoResponse_body, bind.
    rewrite Hprep. subst credentials.
    destruct (Js.truthy_opt (auth_token first) && Js.truthy_opt (origin first)) eqn:Hcred.
    - destruct (answer_with_mapping_calls env ds fromNumber toNumber messageText first w1
                  Hcred) as [later [Htrace Hlater]].
      pose proof (answer_with_mapping_reply env ds fromNumber toNumber messageText first
                    w1) as Hreply.
      destruct (answer_with_mapping env ds fromNumber toNumber messageText first w1)
        as [[[early|reply]|e] wp]; cbn [fst snd] in Htrace, Hreply.
      + unfold ret. exists early, wp, (EvEmbed messageText :: later).
        split; [reflexivity|]. split; [exact Htrace|]. split; [discriminate|].
        split; [intros _; now exists later|]. constructor; [exact I | exact Hlater].
      + destruct Hreply as [Htok Horg].
        destruct (deliver_reply_cases env fromNumber toNumber messageId reply wp)
          as [outcome [w' [Hrun [_ [_ Hcases]]]]].
        rewrite Hrun.
        assert (Hpost : exists post,
                   trace w' = trace wp ++ post /\ Forall (uses_first_row first ds) post).
        { destruct Hcases
            as [[e [_ [_ Ht]]]
               |[[msg [err [at_time [_ [_ Ht]]]]]
                |[err1 [err2 [rid [at1 [at2 [_ [_ Ht]]]]]]]]];
            (eexists; split; [exact Ht|]);
            repeat first [apply Forall_nil | apply Forall_cons];
            cbn [uses_first_row]; try exact I; now split. }
        destruct Hpost as [post [Hpost_trace Hpost_ok]].
        assert (Hresult : exists result,
                   match outcome with
                   | Ret r => (Ret r, w')
                   | Throw e => ret (failure (error_text e)) w'
                   end = (Ret result, w')).
        { destruct outcome as [r|e]; eexists; reflexivity. }
        destruct Hresult as [result Hresult].
        exists result, w', (EvEmbed messageText :: later ++ post).
        split; [exact Hresult|].
        split; [rewrite Hpost_trace, Htrace, <- app_assoc; reflexivity|].
        split; [discriminate|]. split; [intros _; now eexists|].
        constructor; [exact I|]. now apply Forall_app.
      + unfold ret. exists (failure (error_text e)), wp, (EvEmbed messageText :: later).
        split; [reflexivity|]. split; [exact Htrace|]. split; [discriminate|].
        split; [intros _; now exists later|]. constructor; [exact I | exact Hlater].
    - unfold answer_with_mapping. rewrite Hcred. unfold ret.
      eexists. exists w1, []. split; [reflexivity|].
      split; [now rewrite app_nil_r|]. split; [now split|].
      split; [discriminate | constructor]. }
  destruct Hall as [result [w' [evs [Hrun [Htrace [Hmissing [Hpresent Hevs]]]]]]].
  exists result, w', evs. split; [exact Hrun|]. split; [exact Htrace|].
  split; [exact Hmissing|]. split; [exact Hpresent|].
  now apply uses_first_row_facts.
Qed.

Lemma second_mapping_row_example :
  (generateAutoResponse (with_phone_mappings prompted_env prompted_mappings) "cust" "biz"
     "how much is the mug?" "wamid.7" (world_with_messages [inbound_turn 7])
   = generateAutoResponse prompted_env "cust" "biz" "how much is the mug?" "wamid.7"
       (world_with_messages [inbound_turn 7]))
  /\ (let run := generateAutoResponse (with_phone_mappings prompted_env prompted_mappings)
                   "cust" "biz" "how much is the mug?" "wamid.7"
                   (world_with_messages [inbound_turn 7]) in
      exists evs,
        trace (snd run)
        = [EvGetDataSource "biz"; EvQuery "phone_document_mapping" "biz"] ++ evs
        /\ (exists context hist,
              prompts_of evs
              = [mkChat System
                   ("Answer in one sentence." ++ nl ++ nl ++ document_rules ++ nl ++ nl
                    ++ "CONTEXT:" ++ nl ++ context)%string
                 :: hist])
        /\ sends_of evs
           = [EvSend "cust" "The Blue Mug costs USD 12.00." "token-1"
                "https://wa.example"])
  /\ fst (generateAutoResponse (with_phone_mappings demo_env token_in_second_row) "cust"
            "biz" "how much is the mug?" "wamid.7" (world_with_messages [inbound_turn 7]))
     = Ret (failure "No WhatsApp API credentials found. Please set credentials in the Configuration tab.").
Proof.
  split; [|split].
  - apply (proj1 (only_first_mapping_row_matters prompted_env prompted_mappings
                    "cust" "biz" "how much is the mug?" "wamid.7"
                    (world_with_messages [inbound_turn 7]))).
    intros t phone. split; reflexivity.
  - intros run.
    destruct (proj2 (only_first_mapping_row_matters
                       (with_phone_mappings prompted_env prompted_mappings)
                       prompted_mappings "cust" "biz" "how much is the mug?" "wamid.7"
                       (world_with_messages [inbound_turn 7]))
                "file"%string prompted_mapping
                [mkMappingRow (Some "Be rude."%string) None (Some "token-2"%string)
                   (Some "https://other.example"%string)]
                (advance (world_with_messages [inbound_turn 7]) 2
                   [EvGetDataSource "biz"; EvQuery "phone_document_mapping" "biz"]))
      as [result [w' [evs [Hrun [Htrace [_ [_ [Hprompts Hsends]]]]]]]];
      [reflexivity | reflexivity | vm_compute; reflexivity |].
    assert (Hw' : w' = snd run) by (subst run; now rewrite Hrun).
    assert (Hevs : evs = skipn 2 (trace (snd run))).
    { rewrite <- Hw', Htrace. reflexivity. }
    exists evs. split; [rewrite <- Hw'; exact Htrace|].
    split.
    + assert (Hone : exists messages, prompts_of evs = [messages]).
      { rewrite Hevs. vm_compute. eexists. reflexivity. }
      destruct Hone as [messages Hone].
      destruct (Hprompts messages) as [context [hist ->]];
        [rewrite Hone; now left|].
      exists context, hist. exact Hone.
    + rewrite Hevs. vm_compute. reflexivity.
  - destruct (proj2 (only_first_mapping_row_matters
                       (with_phone_mappings demo_env token_in_second_row)
                       token_in_second_row "cust" "biz" "how much is the mug?" "wamid.7"
                       (world_with_messages [inbound_turn 7]))
                "file"%string
                (mkMappingRow None None None (Some "https://wa.example"%string))
                [mkMappingRow None None (Some "token-2"%string)
                   (Some "https://other.example"%string)]
                (advance (world_with_messages [inbound_turn 7]) 2
                   [EvGetDataSource "biz"; EvQuery "phone_document_mapping" "biz"]))
      as [result [w' [evs [Hrun [_ [Hmissing _]]]]]];
      [reflexivity | reflexivity | vm_compute; reflexivity |].
    rewrite Hrun. cbn [fst]. f_equal. now apply Hmissing.
Defined.
